(** * LLM extraction demos: response parsing and the asynchronous inference client

    A shallow embedding of the JSON-recovery routines ([parse.py],
    [extract_thinker.py], [extract_thinker_local_llama.py]) and of the
    SageMaker inference client ([llm_inference.py]), with the properties
    the specification states about them.

    Conventions of the embedding.
    - A Python [str] is a sequence of Unicode code points: [str := list N].
    - Python values that flow through the JSON routines are the inductive
      [value]; [None] and JSON [null] are the same constructor [VNone], as
      they are the same object in Python.
    - Effects (logging, printing, the clock, calls to the remote services)
      are threaded through an explicit [world]; exceptions are an explicit
      outcome, so that [try]/[except] is a visible combinator. *)

From Stdlib Require Import List NArith ZArith QArith Qround Lia Lqa Bool String Ascii.
Import ListNotations.

Set Implicit Arguments.
#[local] Set Warnings "-register-all".

(* ===================================================================== *)
(** * Python strings *)
(* ===================================================================== *)

Module Py.

Local Open Scope N_scope.

(** A Python [str]: a finite sequence of code points. *)
Definition str := list N.

(** Literal text: the code points of an ASCII literal. *)
Definition py (s : string) : str :=
  List.map N_of_ascii (list_ascii_of_string s).

(** JSON literals are written with an apostrophe standing for the double
    quote (code point 34). *)
Definition jsn (s : string) : str :=
  List.map (fun c => if c =? 39 then 34 else c) (py s).

Definition nl : N := 10.       (* '\n' *)
Definition dq : N := 34.       (* double quote *)
Definition sq : N := 39.       (* apostrophe *)
Definition bt : N := 96.       (* '`'  *)
Definition lbrace : N := 123.  (* '{'  *)
Definition rbrace : N := 125.  (* '}'  *)

Fixpoint str_eqb (a b : str) : bool :=
  match a, b with
  | [], [] => true
  | x :: a', y :: b' => (x =? y) && str_eqb a' b'
  | _, _ => false
  end.

(** [str.isspace] on one code point, which is also the class [\s] of the
    [re] module on [str] patterns. *)
Definition is_space (c : N) : bool :=
  ((9 <=? c) && (c <=? 13)) || ((28 <=? c) && (c <=? 32))
  || (c =? 133) || (c =? 160) || (c =? 5760)
  || ((8192 <=? c) && (c <=? 8202))
  || (c =? 8232) || (c =? 8233) || (c =? 8239) || (c =? 8287) || (c =? 12288).

(** [s.lstrip(chars)], [s.rstrip(chars)], [s.strip(chars)] for the set of
    characters recognised by [p]. *)
Fixpoint lstrip (p : N -> bool) (s : str) : str :=
  match s with
  | [] => []
  | c :: r => if p c then lstrip p r else s
  end.

Definition rstrip (p : N -> bool) (s : str) : str :=
  rev (lstrip p (rev s)).

Definition strip_chars (p : N -> bool) (s : str) : str :=
  rstrip p (lstrip p s).

(** [s.strip()] *)
Definition strip (s : str) : str := strip_chars is_space s.

(** [s.startswith(prefix)] *)
Fixpoint startswith (s prefix : str) : bool :=
  match prefix, s with
  | [], _ => true
  | p :: prefix', c :: s' => (p =? c) && startswith s' prefix'
  | _ :: _, [] => false
  end.

(** [s.find(ch)] for a one-character needle: lowest index, or -1. *)
Fixpoint find (ch : N) (s : str) : Z :=
  match s with
  | [] => (-1)%Z
  | c :: r =>
      if c =? ch then 0%Z
      else match find ch r with
           | Zneg _ => (-1)%Z
           | i => (i + 1)%Z
           end
  end.

(** [s.rfind(ch)] for a one-character needle: highest index, or -1. *)
Fixpoint rfind (ch : N) (s : str) : Z :=
  match s with
  | [] => (-1)%Z
  | c :: r =>
      match rfind ch r with
      | Zneg _ => if c =? ch then 0%Z else (-1)%Z
      | i => (i + 1)%Z
      end
  end.

(** [s[i:j]] with Python's treatment of negative and out-of-range bounds. *)
Definition slice_bound (len i : Z) : Z :=
  if (i <? 0)%Z then Z.max 0 (i + len) else Z.min i len.

Definition slice (s : str) (i j : Z) : str :=
  let len := Z.of_nat (List.length s) in
  let a := slice_bound len i in
  let b := slice_bound len j in
  firstn (Z.to_nat (b - a)) (skipn (Z.to_nat a) s).

(** [s.split(sep, 1)] for a one-character separator: the text before the
    first separator and the text after it, or the whole text alone. *)
Fixpoint split1 (sep : N) (s : str) : str * option str :=
  match s with
  | [] => ([], None)
  | c :: r =>
      if c =? sep then ([], Some r)
      else let '(a, b) := split1 sep r in (c :: a, b)
  end.

End Py.

Export Py.

(* ===================================================================== *)
(** * Values and the [json] module *)
(* ===================================================================== *)

(** Python values built by [json.loads]. A [float] keeps the lexeme it was
    read from (rounding to binary64 is not modelled); a [dict] is the list
    of its items in insertion order, keys pairwise distinct. *)
Inductive value : Type :=
| VNone
| VBool (b : bool)
| VInt (z : Z)
| VFloat (lexeme : str)
| VStr (s : str)
| VList (items : list value)
| VDict (items : list (str * value)).

Module Json.

Local Open Scope N_scope.

(** [d[k] = v] on the item list of a dict. *)
Fixpoint dict_set (d : list (str * value)) (k : str) (v : value)
  : list (str * value) :=
  match d with
  | [] => [(k, v)]
  | (k', v') :: d' =>
      if str_eqb k k' then (k', v) :: d'
      else (k', v') :: dict_set d' k v
  end.

(** [dict(pairs)] *)
Definition dict_of_pairs (pairs : list (str * value)) : list (str * value) :=
  fold_left (fun d kv => dict_set d (fst kv) (snd kv)) pairs [].

(** [d.get(k, default)] *)
Fixpoint dict_get (d : list (str * value)) (k : str) (default : value) : value :=
  match d with
  | [] => default
  | (k', v) :: d' => if str_eqb k k' then v else dict_get d' k default
  end.

(** [json.decoder.WHITESPACE]: space, tab, line feed, carriage return. *)
Definition is_ws (c : N) : bool :=
  (c =? 32) || (c =? 9) || (c =? 10) || (c =? 13).

Fixpoint skip_ws (s : str) : str :=
  match s with
  | [] => []
  | c :: r => if is_ws c then skip_ws r else s
  end.

Definition is_digit (c : N) : bool := (48 <=? c) && (c <=? 57).

Definition hex_digit (c : N) : option N :=
  if (48 <=? c) && (c <=? 57) then Some (c - 48)
  else if (65 <=? c) && (c <=? 70) then Some (c - 55)
  else if (97 <=? c) && (c <=? 102) then Some (c - 87)
  else None.

(** [_decode_uXXXX]: exactly four hexadecimal digits. *)
Definition decode_uXXXX (a b c d : N) : option N :=
  match hex_digit a, hex_digit b, hex_digit c, hex_digit d with
  | Some x, Some y, Some z, Some w => Some (((x * 16 + y) * 16 + z) * 16 + w)
  | _, _, _, _ => None
  end.

(** [json.decoder.BACKSLASH] *)
Definition backslash (esc : N) : option N :=
  if esc =? 34 then Some 34          (* escaped double quote *)
  else if esc =? 92 then Some 92     (* \\ *)
  else if esc =? 47 then Some 47     (* \/ *)
  else if esc =? 98 then Some 8      (* \b *)
  else if esc =? 102 then Some 12    (* \f *)
  else if esc =? 110 then Some 10    (* \n *)
  else if esc =? 114 then Some 13    (* \r *)
  else if esc =? 116 then Some 9     (* \t *)
  else None.

Definition push (c : N) (r : option (str * str)) : option (str * str) :=
  match r with
  | Some (k, rest) => Some (c :: k, rest)
  | None => None
  end.

(** [scanstring(s, end, strict=True)], started just after the opening
    quote: the decoded text and the input after the closing quote. [None]
    stands for [JSONDecodeError]. *)
Fixpoint scanstring (s : str) : option (str * str) :=
  match s with
  | [] => None                                   (* unterminated string *)
  | c :: r =>
      if c =? 34 then Some ([], r)
      else if c =? 92 then
        match r with
        | [] => None                             (* unterminated string *)
        | esc :: r1 =>
            if esc =? 117 then
              match r1 with
              | h1 :: h2 :: h3 :: h4 :: r2 =>
                  match decode_uXXXX h1 h2 h3 h4 with
                  | None => None                 (* invalid \uXXXX escape *)
                  | Some uni =>
                      if (55296 <=? uni) && (uni <=? 56319) then
                        match r2 with
                        | b1 :: b2 :: r3 =>
                            if (b1 =? 92) && (b2 =? 117) then
                              match r3 with
                              | k1 :: k2 :: k3 :: k4 :: r4 =>
                                  match decode_uXXXX k1 k2 k3 k4 with
                                  | None => None
                                  | Some uni2 =>
                                      if (56320 <=? uni2) && (uni2 <=? 57343)
                                      then push (65536 + ((uni - 55296) * 1024
                                                          + (uni2 - 56320)))
                                                (scanstring r4)
                                      else push uni (scanstring r2)
                                  end
                              | _ => None
                              end
                            else push uni (scanstring r2)
                        | _ => push uni (scanstring r2)
                        end
                      else push uni (scanstring r2)
                  end
              | _ => None                        (* invalid \uXXXX escape *)
              end
            else
              match backslash esc with
              | Some ch => push ch (scanstring r1)
              | None => None                     (* invalid \escape *)
              end
        end
      else if c <? 32 then None                  (* invalid control character *)
      else push c (scanstring r)
  end.

(** The longest run of decimal digits at the head of the input. *)
Fixpoint span_digits (s : str) : str * str :=
  match s with
  | [] => ([], [])
  | c :: r =>
      if is_digit c then let '(ds, rest) := span_digits r in (c :: ds, rest)
      else ([], s)
  end.

(** Group 1 of [NUMBER_RE]: an optional minus sign, then either a single
    zero or a non-zero digit followed by digits. *)
Definition match_integer (s : str) : option (str * str) :=
  let '(sign, r0) := match s with
                     | c :: r => if c =? 45 then ([45], r) else ([], s)
                     | [] => ([], s)
                     end in
  match r0 with
  | d :: r1 =>
      if d =? 48 then Some (sign ++ [48], r1)
      else if is_digit d then
        let '(ds, r2) := span_digits r1 in Some (sign ++ d :: ds, r2)
      else None
  | [] => None
  end.

(** Group 2 of [NUMBER_RE]: optionally, a dot followed by at least one digit. *)
Definition match_frac (s : str) : str * str :=
  match s with
  | c :: r =>
      if c =? 46 then
        match span_digits r with
        | ([], _) => ([], s)
        | (ds, r') => (46 :: ds, r')
        end
      else ([], s)
  | [] => ([], s)
  end.

(** Group 3 of [NUMBER_RE]: optionally, e or E, an optional sign and at
    least one digit. *)
Definition match_exp (s : str) : str * str :=
  match s with
  | e :: r =>
      if (e =? 101) || (e =? 69) then
        let '(sign, r0) := match r with
                           | c :: r' => if (c =? 45) || (c =? 43)
                                        then ([c], r') else ([], r)
                           | [] => ([], r)
                           end in
        match span_digits r0 with
        | ([], _) => ([], s)
        | (ds, r') => (e :: sign ++ ds, r')
        end
      else ([], s)
  | [] => ([], s)
  end.

(** [int(lexeme)] on an optional minus sign followed by decimal digits. *)
Definition digits_to_Z (ds : str) : Z :=
  fold_left (fun acc c => (acc * 10 + Z.of_N (c - 48))%Z) ds 0%Z.

Definition parse_int (lexeme : str) : Z :=
  match lexeme with
  | c :: ds => if c =? 45 then (- digits_to_Z ds)%Z else digits_to_Z lexeme
  | [] => 0%Z
  end.

(** [NUMBER_RE.match] followed by the choice between [int] and [float]. *)
Definition match_number (s : str) : option (value * str) :=
  match match_integer s with
  | None => None
  | Some (integer, r1) =>
      let '(frac, r2) := match_frac r1 in
      let '(exp, r3) := match_exp r2 in
      match frac, exp with
      | [], [] => Some (VInt (parse_int integer), r3)
      | _, _ => Some (VFloat (integer ++ frac ++ exp), r3)
      end
  end.

(** [scan_once], [JSONObject] and [JSONArray] of [json.scanner] and
    [json.decoder]. [fuel] bounds the number of nested calls; more fuel than
    the input has characters is always enough (see [scan_once_spec]). [None] stands
    for [JSONDecodeError]; interpreter limits (recursion depth, the digit
    limit of [int]) are not modelled.

    [object_pairs] is entered just after the opening quote of a key and
    [array_items] at the first character of an item. *)
Fixpoint scan_once (fuel : nat) (s : str) {struct fuel} : option (value * str) :=
  match fuel with
  | O => None
  | S fuel' =>
      match s with
      | [] => None
      | c :: r =>
          if c =? 34 then
            match scanstring r with
            | Some (k, r') => Some (VStr k, r')
            | None => None
            end
          else if c =? 123 then
            match skip_ws r with
            | c1 :: r1 =>
                if c1 =? 125 then Some (VDict [], r1)
                else if c1 =? 34 then object_pairs fuel' r1 []
                else None
            | [] => None
            end
          else if c =? 91 then
            match skip_ws r with
            | c1 :: r1 =>
                if c1 =? 93 then Some (VList [], r1)
                else array_items fuel' (c1 :: r1) []
            | [] => None
            end
          else if (c =? 110) && startswith s (py "null") then Some (VNone, skipn 4 s)
          else if (c =? 116) && startswith s (py "true") then Some (VBool true, skipn 4 s)
          else if (c =? 102) && startswith s (py "false") then Some (VBool false, skipn 5 s)
          else
            match match_number s with
            | Some res => Some res
            | None =>
                if (c =? 78) && startswith s (py "NaN")
                then Some (VFloat (py "NaN"), skipn 3 s)
                else if (c =? 73) && startswith s (py "Infinity")
                then Some (VFloat (py "Infinity"), skipn 8 s)
                else if (c =? 45) && startswith s (py "-Infinity")
                then Some (VFloat (py "-Infinity"), skipn 9 s)
                else None
            end
      end
  end

with object_pairs (fuel : nat) (s : str) (pairs : list (str * value))
       {struct fuel} : option (value * str) :=
  match fuel with
  | O => None
  | S fuel' =>
      match scanstring s with
      | None => None
      | Some (key, s1) =>
          match skip_ws s1 with
          | c :: s2 =>
              if c =? 58 then
                match scan_once fuel' (skip_ws s2) with
                | None => None
                | Some (v, s3) =>
                    let pairs' := pairs ++ [(key, v)] in
                    match skip_ws s3 with
                    | c2 :: s4 =>
                        if c2 =? 125 then Some (VDict (dict_of_pairs pairs'), s4)
                        else if c2 =? 44 then
                          match skip_ws s4 with
                          | c3 :: s5 =>
                              if c3 =? 34 then object_pairs fuel' s5 pairs'
                              else None
                          | [] => None
                          end
                        else None
                    | [] => None
                    end
                end
              else None
          | [] => None
          end
      end
  end

with array_items (fuel : nat) (s : str) (items : list value)
       {struct fuel} : option (value * str) :=
  match fuel with
  | O => None
  | S fuel' =>
      match scan_once fuel' s with
      | None => None
      | Some (v, s1) =>
          let items' := items ++ [v] in
          match skip_ws s1 with
          | c :: s2 =>
              if c =? 93 then Some (VList items', s2)
              else if c =? 44 then array_items fuel' (skip_ws s2) items'
              else None
          | [] => None
          end
      end
  end.

(** [json.loads(s)] for a [str] argument: [Some v] when it returns [v],
    [None] when it raises [JSONDecodeError]. *)
Definition loads (s : str) : option value :=
  if startswith s [65279] then None              (* unexpected UTF-8 BOM *)
  else
    match scan_once (S (List.length s)) (skip_ws s) with
    | None => None                               (* expecting value *)
    | Some (v, r) =>
        match skip_ws r with
        | [] => Some v
        | _ :: _ => None                         (* extra data *)
        end
    end.

End Json.


(* ===================================================================== *)
(** * The two substitutions of [parse.py] *)
(* ===================================================================== *)

Module Re.

Local Open Scope N_scope.

Definition fence : str := [bt; bt; bt].

(** Length of the run of [\s] characters at the head of the text. *)
Fixpoint count_space (s : str) : nat :=
  match s with
  | [] => O
  | c :: r => if is_space c then S (count_space r) else O
  end.

(** With [re.MULTILINE], [^] holds at the start of the text and just after
    a line feed. [prev] is the character before the current position. *)
Definition at_bol (prev : option N) : bool :=
  match prev with
  | None => true
  | Some c => c =? nl
  end.

(** Length of the match, at the head of [s], of three backticks, an
    optional [json] and a greedy run of [\s]; the caller checks [^]. Both
    optional parts are greedy and nothing follows them, so the match never
    backtracks. *)
Definition open_match (s : str) : option nat :=
  if startswith s fence then
    let r := skipn 3 s in
    if startswith r (py "json")
    then Some (3 + 4 + count_space (skipn 4 r))%nat
    else Some (3 + count_space r)%nat
  else None.

(** [re.sub(r'^```(?:json)?\s*', '', s, flags=re.MULTILINE)]: the scan of
    [re.sub], left to right; at each position the pattern is tried, a match
    of length [n] is dropped and the scan resumes after it. [skip] counts the
    characters of the current match still to drop. *)
Fixpoint sub_open (prev : option N) (skip : nat) (s : str) : str :=
  match s with
  | [] => []
  | c :: r =>
      match skip with
      | S k => sub_open (Some c) k r
      | O =>
          match (if at_bol prev then open_match s else None) with
          | Some n => sub_open (Some c) (pred n) r
          | None => c :: sub_open (Some c) O r
          end
      end
  end.

(** Length of the match, at the head of [s], of a greedy run of [\s], three
    backticks and [$], which with [re.MULTILINE] holds at the end of the
    text and just before a line feed. A shorter run of [\s] is followed by a
    [\s] character, never by a backtick, so backtracking cannot succeed. *)
Definition close_match (s : str) : option nat :=
  let k := count_space s in
  let r := skipn k s in
  if startswith r fence then
    match skipn 3 r with
    | [] => Some (k + 3)%nat
    | c :: _ => if c =? nl then Some (k + 3)%nat else None
    end
  else None.

(** [re.sub(r'\s*```$', '', s, flags=re.MULTILINE)] *)
Fixpoint sub_close (skip : nat) (s : str) : str :=
  match s with
  | [] => []
  | c :: r =>
      match skip with
      | S k => sub_close k r
      | O =>
          match close_match s with
          | Some n => sub_close (pred n) r
          | None => c :: sub_close O r
          end
      end
  end.

End Re.

(* ===================================================================== *)
(** * Effects: exceptions, the trace of external actions, the clock *)
(* ===================================================================== *)

(** Exceptions the modelled code can meet. [ClientError] carries
    [e.response['Error']['Code']] when the response has that entry.
    [NonException] stands for the exceptions outside the [Exception]
    hierarchy ([KeyboardInterrupt], [SystemExit]), which [except Exception]
    does not catch. *)
Inductive exn : Type :=
| ClientError (code : option str)
| JSONDecodeError
| AttributeError
| ValueError
| KeyError
| OtherException (name : str)
| NonException (name : str).

Definition is_Exception (e : exn) : bool :=
  match e with
  | NonException _ => false
  | _ => true
  end.

Definition is_ClientError (e : exn) : bool :=
  match e with
  | ClientError _ => true
  | _ => false
  end.

(** The request body built by [prepare_llama_payload]. The two floats are
    kept as the decimals written in the source. *)
Record payload : Type := {
  inputs : str;
  max_new_tokens : Z;
  temperature : Q;
  top_p : Q;
  do_sample : bool;
  stop : list str;
  return_full_text : bool
}.

Inductive level : Type := INFO | WARNING | ERROR.

(** The messages handed to [logger] and [print], one constructor per call
    site, with the values interpolated into the text. *)
Inductive message : Type :=
| JSONDecodeErrorLine                        (* parse.py:16 *)
| ClientErrorDuringInvocation (e : exn)      (* llm_inference.py:94, 135 *)
| ErrorInvokingAsync (e : exn)               (* :97 *)
| ErrorInvokingSync (e : exn)                (* :138 *)
| InvalidS3Location (location : str)         (* :155 *)
| UnexpectedResponseFormat (result : value)  (* :131, 176 *)
| S3Error (e : exn)                          (* :185 *)
| TimeoutWaiting (max_wait_time : Z)         (* :188 *)
| ErrorWaiting (e : exn)                     (* :192 *)
| UsingAsyncEndpoint                         (* :212 *)
| AsyncFailedFallingBack                     (* :218 *)
| UsingSyncEndpoint                          (* :222 *)
| ErrorDuringInference (e : exn).            (* :226 *)

(** What the program does to the outside, in order. *)
Inductive event : Type :=
| Print (msg : message)
| Log (lvl : level) (msg : message)
| InvokeEndpointAsync (body : payload)
| InvokeEndpoint (body : payload)
| GetObject (bucket key : str)
| Sleep (secs : Q).

Record world : Type := {
  clock : Q;                  (* what [time.time()] returns *)
  trace : list event          (* oldest first *)
}.

(** How a statement ends: normally, by raising, or not at all within the
    fuel given to its loop. *)
Inductive outcome (A : Type) : Type :=
| Ret (a : A)
| Raise (e : exn)
| Diverge.

Arguments Raise {A} e.
Arguments Diverge {A}.

Definition M (A : Type) : Type := world -> outcome A * world.

Definition ret {A} (a : A) : M A := fun w => (Ret a, w).

Definition raise {A} (e : exn) : M A := fun w => (Raise e, w).

Definition bind {A B} (m : M A) (k : A -> M B) : M B :=
  fun w =>
    match m w with
    | (Ret a, w') => k a w'
    | (Raise e, w') => (Raise e, w')
    | (Diverge, w') => (Diverge, w')
    end.

Notation "x <- m ;; k" := (bind m (fun x => k))
  (at level 61, m at next level, right associativity).
Notation "m ;;; k" := (bind m (fun _ => k))
  (at level 61, right associativity).

(** [try: body] followed by [except] clauses: [handler e] is the clause
    that catches [e], if one does. An exception raised inside a clause
    leaves the statement. *)
Definition try_ {A} (body : M A) (handler : exn -> option (M A)) : M A :=
  fun w =>
    match body w with
    | (Raise e, w') =>
        match handler e with
        | Some h => h w'
        | None => (Raise e, w')
        end
    | r => r
    end.

(** The world after one more event, and after an external action that
    took [dt] seconds. *)
Definition add (w : world) (ev : event) : world :=
  {| clock := clock w; trace := trace w ++ [ev] |}.

Definition tick (w : world) (dt : Q) (ev : event) : world :=
  {| clock := clock w + dt; trace := trace w ++ [ev] |}.

Definition emit (ev : event) : M unit := fun w => (Ret tt, add w ev).

Definition print (msg : message) : M unit := emit (Print msg).
Definition log (lvl : level) (msg : message) : M unit := emit (Log lvl msg).

(** [time.time()] *)
Definition time : M Q := fun w => (Ret (clock w), w).

(** [json.loads] as a statement. *)
Definition json_loads (s : str) : M value :=
  match Json.loads s with
  | Some v => ret v
  | None => raise JSONDecodeError
  end.

Definition count_events (p : event -> bool) (t : list event) : nat :=
  List.length (filter p t).

Definition is_GetObject (ev : event) : bool :=
  match ev with GetObject _ _ => true | _ => false end.
Definition is_Sleep (ev : event) : bool :=
  match ev with Sleep _ => true | _ => false end.
Definition is_InvokeEndpointAsync (ev : event) : bool :=
  match ev with InvokeEndpointAsync _ => true | _ => false end.
Definition is_InvokeEndpoint (ev : event) : bool :=
  match ev with InvokeEndpoint _ => true | _ => false end.
Definition is_Print (ev : event) : bool :=
  match ev with Print _ => true | _ => false end.

(* ===================================================================== *)
(** * parse.py *)
(* ===================================================================== *)

Module Parse.

Local Open Scope N_scope.

(** The text handed to [json.loads]: lines 6, 7 and 10. *)
Definition cleaned (response : str) : str :=
  let response := Re.sub_open None O response in
  let response := Re.sub_close O response in
  strip_chars (fun c => c =? sq) (strip_chars (fun c => c =? dq) response).

Definition extract_json_from_response (response : str) : M value :=
  try_ (json_loads (cleaned response))
       (fun e => match e with
                 | JSONDecodeError =>
                     Some (print JSONDecodeErrorLine ;;; ret VNone)
                 | _ => None
                 end).

End Parse.

(* ===================================================================== *)
(** * extract_thinker.py: DirectLlamaExtractor *)
(* ===================================================================== *)

Module ExtractThinker.

Local Open Scope Z_scope.

(** A field of the pydantic schema: its name, whether it is required, and
    the text of its annotation. *)
Definition field : Type := (str * bool * str)%type.

Definition join (sep : str) (parts : list str) : str :=
  match parts with
  | [] => []
  | p :: ps => p ++ flat_map (fun x => sep ++ x) ps
  end.

Definition create_extraction_prompt (text : str) (schema : list field) : str :=
  let schema_fields :=
    List.map (fun f : field =>
                let '(field_name, required, field_type) := f in
                py "- " ++ field_name ++ py " ("
                ++ (if required then py "required" else py "optional")
                ++ py "): " ++ field_type) schema in
  py "Extract the following information from the text and return it as valid JSON:"
  ++ [nl; nl] ++ py "Schema:" ++ [nl]
  ++ join [nl] schema_fields
  ++ [nl; nl] ++ py "Text: " ++ text
  ++ [nl; nl]
  ++ py "Return only valid JSON without any additional text or formatting:".

(** The text handed to [json.loads] at lines 346-353. *)
Definition json_candidate (response : str) : str :=
  let json_start := find lbrace response in
  let json_end := rfind rbrace response + 1 in
  if negb (json_start =? -1) && (json_end >? json_start)
  then slice response json_start json_end
  else strip response.

(** The mapping returned at line 355. *)
Definition could_not_parse (response : str) : value :=
  VDict [(py "error", VStr (py "Could not parse JSON"));
         (py "raw_response", VStr response)].

(** Lines 344-355: what [extract_with_prompt] does with the decoded model
    output. *)
Definition parse_response (response : str) : M value :=
  try_ (json_loads (json_candidate response))
       (fun e => match e with
                 | JSONDecodeError => Some (ret (could_not_parse response))
                 | _ => None
                 end).

Section Model.

(** The tokenizer, [model.generate] and [tokenizer.decode]: from the prompt
    and the sampling parameters to the decoded continuation. *)
Variable generate : str -> Q -> Z -> str.

Definition extract_with_prompt (text : str) (schema : list field)
    (temperature : Q) (max_tokens : Z) : M value :=
  let prompt := create_extraction_prompt text schema in
  let response := generate prompt temperature max_tokens in
  parse_response response.

End Model.

End ExtractThinker.

(* ===================================================================== *)
(** * extract_thinker_local_llama.py: DirectLlamaExtractor *)
(* ===================================================================== *)

Module LocalLlama.

Local Open Scope Z_scope.

(** Lines 258-268: the bare [except] catches everything and falls through
    to the final [return]. *)
Definition parse_response (response : str) : M value :=
  r <- try_ (let json_start := find lbrace response in
             let json_end := rfind rbrace response + 1 in
             if negb (json_start =? -1) && negb (json_end =? -1)
             then v <- json_loads (slice response json_start json_end) ;;
                  ret (Some v)
             else ret (@None value))
            (fun _ => Some (ret None)) ;;
  match r with
  | Some v => ret v
  | None => ret (VDict [(py "raw_response", VStr response)])
  end.

End LocalLlama.

(* ===================================================================== *)
(** * llm_inference.py: LLMInference *)
(* ===================================================================== *)

(** What a call to a remote service gives back. *)
Inductive reply (A : Type) : Type :=
| Raises (e : exn)
| Returns (a : A).

Arguments Raises {A} e.

(** The remote side, as the client meets it. The [n]-th call of each kind
    (counted from 0) is answered by the [n]-th entry.
    - [async_reply]: [invoke_endpoint_async] raises, or returns a response
      whose [OutputLocation] entry is the given string, when present;
    - [sync_reply]: [invoke_endpoint] followed by
      [response['Body'].read().decode()] raises, or gives the body text;
    - [s3_reply]: the same for [get_object];
    - [s3_latency]: seconds the [n]-th [get_object] takes;
    - [sleep_overrun]: seconds the [n]-th [time.sleep] oversleeps. *)
Record env : Type := {
  async_reply : nat -> reply (option str);
  sync_reply : nat -> reply str;
  s3_reply : nat -> reply str;
  s3_latency : nat -> Q;
  sleep_overrun : nat -> Q
}.

Module LLMInference.

Definition Qltb (a b : Q) : bool := negb (Qle_bool b a).

Definition answer {A} (r : reply A) : M A :=
  match r with
  | Raises e => raise e
  | Returns a => ret a
  end.

(** One external action: it is recorded and answers. The time the two
    endpoint invocations take plays no role in the client and is left out;
    [timed] is for the actions around which the client reads the clock. *)
Definition call {A} (ev : event) (r : reply A) : M A :=
  fun w => answer r (add w ev).

Definition timed {A} (ev : event) (r : reply A) (dt : Q) : M A :=
  fun w => answer r (tick w dt ev).

Definition system_prompt : str :=
  py "You are an expert at extracting structured data from invoices. Extract the requested information accurately and return it as valid JSON.".

Definition prepare_llama_payload (prompt : str) : payload :=
  let formatted_prompt :=
    py "<|begin_of_text|><|start_header_id|>system<|end_header_id|>"
    ++ [nl; nl] ++ system_prompt
    ++ py "<|eot_id|><|start_header_id|>user<|end_header_id|>"
    ++ [nl; nl] ++ prompt
    ++ py "<|eot_id|><|start_header_id|>assistant<|end_header_id|>"
    ++ [nl; nl] in
  {| inputs := formatted_prompt;
     max_new_tokens := 2048;
     temperature := 1 # 10;
     top_p := 9 # 10;
     do_sample := true;
     stop := [py "<|eot_id|>"];
     return_full_text := false |}.

(** Lines 126-132 and 171-177, the same statements in both methods. *)
Definition extract_generated_text (result : value) : M value :=
  match result with
  | VList (first :: _) =>
      match first with
      | VDict d => ret (Json.dict_get d (py "generated_text") (VStr []))
      | _ => raise AttributeError              (* no attribute [get] *)
      end
  | VDict d => ret (Json.dict_get d (py "generated_text") (VStr []))
  | _ => log ERROR (UnexpectedResponseFormat result) ;;; ret VNone
  end.

Section Client.

Variable E : env.

Definition invoke_endpoint_async (body : payload) : M (option str) :=
  fun w =>
    call (InvokeEndpointAsync body)
         (async_reply E (count_events is_InvokeEndpointAsync (trace w))) w.

Definition invoke_endpoint (body : payload) : M str :=
  fun w =>
    call (InvokeEndpoint body)
         (sync_reply E (count_events is_InvokeEndpoint (trace w))) w.

Definition get_object (bucket key : str) : M str :=
  fun w =>
    let n := count_events is_GetObject (trace w) in
    timed (GetObject bucket key) (s3_reply E n) (s3_latency E n) w.

(** [time.sleep(secs)] suspends for at least [secs] seconds. *)
Definition sleep (secs : Q) : M unit :=
  fun w =>
    let n := count_events is_Sleep (trace w) in
    timed (Sleep secs) (Returns tt) (secs + sleep_overrun E n) w.

Definition invoke_async_endpoint (body : payload) : M value :=
  try_ (response <- invoke_endpoint_async body ;;
        ret (match response with
             | Some location => VStr location
             | None => VNone
             end))
       (fun e =>
          if is_ClientError e
          then Some (log ERROR (ClientErrorDuringInvocation e) ;;; ret VNone)
          else if is_Exception e
          then Some (log ERROR (ErrorInvokingAsync e) ;;; ret VNone)
          else None).

Definition invoke_sync_endpoint (body : payload) : M value :=
  try_ (text <- invoke_endpoint body ;;
        result <- json_loads text ;;
        extract_generated_text result)
       (fun e =>
          if is_ClientError e
          then Some (log ERROR (ClientErrorDuringInvocation e) ;;; ret VNone)
          else if is_Exception e
          then Some (log ERROR (ErrorInvokingSync e) ;;; ret VNone)
          else None).

(** The [while] loop of lines 164-186. Every path through its body either
    returns or reaches [continue], so an iteration is a call. [fuel] bounds
    the number of iterations and belongs to the embedding only: the loop
    that is still running when it is used up ends in [Diverge]. *)
Fixpoint poll_loop (fuel : nat) (bucket key : str) (start_time : Q)
    (max_wait_time : Z) : M value :=
  match fuel with
  | O => fun w => (Diverge, w)
  | S fuel' =>
      now <- time ;;
      if Qltb (now - start_time) (inject_Z max_wait_time) then
        try_ (text <- get_object bucket key ;;
              result <- json_loads text ;;
              extract_generated_text result)
             (fun e =>
                match e with
                | ClientError code =>
                    Some (match code with
                          | None => raise KeyError
                          | Some c =>
                              if str_eqb c (py "NoSuchKey")
                              then sleep 5 ;;;
                                   poll_loop fuel' bucket key start_time
                                             max_wait_time
                              else log ERROR (S3Error e) ;;; ret VNone
                          end)
                | _ => None
                end)
      else
        log ERROR (TimeoutWaiting max_wait_time) ;;; ret VNone
  end.

Definition wait_for_async_result (fuel : nat) (output_location : str)
    (max_wait_time : Z) : M value :=
  try_ (if negb (startswith output_location (py "s3://")) then
          log ERROR (InvalidS3Location output_location) ;;; ret VNone
        else
          let s3_path := skipn 5 output_location in
          match split1 47 s3_path with
          | (bucket, Some key) =>
              start_time <- time ;;
              poll_loop fuel bucket key start_time max_wait_time
          | (_, None) => raise ValueError       (* not enough values to unpack *)
          end)
       (fun e =>
          if is_Exception e
          then Some (log ERROR (ErrorWaiting e) ;;; ret VNone)
          else None).

Definition infer (fuel : nat) (prompt : str) (use_async : bool) : M value :=
  try_ (let body := prepare_llama_payload prompt in
        if use_async then
          log INFO UsingAsyncEndpoint ;;;
          output_location <- invoke_async_endpoint body ;;
          match output_location with
          | VStr ((_ :: _) as location) =>
              wait_for_async_result fuel location 300
          | _ =>
              log WARNING AsyncFailedFallingBack ;;;
              invoke_sync_endpoint body
          end
        else
          log INFO UsingSyncEndpoint ;;;
          invoke_sync_endpoint body)
       (fun e =>
          if is_Exception e
          then Some (log ERROR (ErrorDuringInference e) ;;; ret VNone)
          else None).

End Client.

End LLMInference.

(* ===================================================================== *)
(** * The Response Parser as the specification words it *)
(* ===================================================================== *)

Module Spec.

Local Open Scope N_scope.

Inductive extracted : Type :=
| Parsed (v : value)
| ParseFailure (raw_text : str).

(** Position of the first occurrence of [ch]. *)
Fixpoint first_index (ch : N) (s : str) : option nat :=
  match s with
  | [] => None
  | c :: r =>
      if c =? ch then Some O
      else match first_index ch r with
           | Some i => Some (S i)
           | None => None
           end
  end.

(** Position of the last occurrence of [ch]. *)
Fixpoint last_index (ch : N) (s : str) : option nat :=
  match s with
  | [] => None
  | c :: r =>
      match last_index ch r with
      | Some i => Some (S i)
      | None => if c =? ch then Some O else None
      end
  end.

(** Steps 1 to 3 of section 4.2: the fence markers and the triple quotes
    are stripped; then the text from the first opening brace to the last
    closing brace, both included, is the candidate when the first precedes
    the last, and the entire trimmed text otherwise. *)
Definition candidate (text : str) : str :=
  let remaining := Parse.cleaned text in
  match first_index lbrace remaining, last_index rbrace remaining with
  | Some i, Some j =>
      if (i <? j)%nat then firstn (S j - i) (skipn i remaining)
      else strip remaining
  | _, _ => strip remaining
  end.

(** Steps 4 and 5. *)
Definition response_parser (text : str) : extracted :=
  match Json.loads (candidate text) with
  | Some v => Parsed v
  | None => ParseFailure text
  end.

End Spec.

(* ===================================================================== *)
(** * Notions used by the statements and their proofs *)
(* ===================================================================== *)

Local Open Scope N_scope.

(** Every backtick of [s] stands between two characters that are not line
    feeds: the one before it ([prev] for the head of [s]) and the one after
    it, which must be in [s]. *)
Fixpoint guarded_from (prev : N) (s : str) : bool :=
  match s with
  | [] => true
  | c :: r =>
      (if c =? bt
       then negb (prev =? nl)
            && match r with
               | [] => false
               | d :: _ => negb (d =? nl)
               end
       else true)
      && guarded_from c r
  end.

(** A character after which a JSON number cannot go on. *)
Definition follow_ok (s : str) : bool :=
  match s with
  | [] => true
  | c :: _ => negb (Json.is_digit c || (c =? 46) || (c =? 101) || (c =? 69))
  end.

(** A fenced block: the opening fence tagged [json], a line feed, the
    text, a line feed, the closing fence. *)
Definition fenced (s : str) : str :=
  py "```json" ++ [nl] ++ s ++ [nl] ++ py "```".

(** The branch of [scan_once] for a value that is neither a string, an
    object nor an array. *)
Definition scan_atom (s : str) : option (value * str) :=
  match s with
  | [] => None
  | c :: _ =>
      if (c =? 110) && startswith s (py "null") then Some (VNone, skipn 4 s)
      else if (c =? 116) && startswith s (py "true") then Some (VBool true, skipn 4 s)
      else if (c =? 102) && startswith s (py "false") then Some (VBool false, skipn 5 s)
      else
        match Json.match_number s with
        | Some res => Some res
        | None =>
            if (c =? 78) && startswith s (py "NaN")
            then Some (VFloat (py "NaN"), skipn 3 s)
            else if (c =? 73) && startswith s (py "Infinity")
            then Some (VFloat (py "Infinity"), skipn 8 s)
            else if (c =? 45) && startswith s (py "-Infinity")
            then Some (VFloat (py "-Infinity"), skipn 9 s)
            else None
        end
  end.

(** Sample model outputs. *)
Definition prose_sample : str :=
  jsn "Sure! Here is the result: {'a':1} Hope that helps.".
Definition fenced_list_sample : str := fenced (py "[1]").

Local Close Scope N_scope.

(** The field [generated_text] of a response body, as lines 123-132 and
    168-177 find it, when they do. *)
Definition generated_text_of (text : str) : option value :=
  match Json.loads text with
  | Some (VList (VDict d :: _)) =>
      Some (Json.dict_get d (py "generated_text") (VStr []))
  | Some (VDict d) => Some (Json.dict_get d (py "generated_text") (VStr []))
  | _ => None
  end.

(** The only read error the polling loop retries. *)
Definition is_not_found (e : exn) : bool :=
  match e with
  | ClientError (Some c) => str_eqb c (py "NoSuchKey")
  | _ => false
  end.

Definition not_found : exn := ClientError (Some (py "NoSuchKey")).

(** The clock never runs backwards: a [get_object] takes no negative time
    and [time.sleep] returns no earlier than asked. *)
Definition env_ok (E : env) : Prop :=
  forall n, 0 <= s3_latency E n /\ 0 <= sleep_overrun E n.

(** The remote object never appears. *)
Definition never_appears (E : env) : Prop :=
  forall n, s3_reply E n = Raises not_found.

(** The remote services fail only with exceptions of the [Exception]
    hierarchy. *)
Definition raises_Exceptions_only (E : env) : Prop :=
  forall n,
    (forall e, async_reply E n = Raises e -> is_Exception e = true) /\
    (forall e, sync_reply E n = Raises e -> is_Exception e = true) /\
    (forall e, s3_reply E n = Raises e -> is_Exception e = true).

(** The asynchronous submission failed: the call raised, or its response
    carries no usable [OutputLocation]. *)
Definition submission_failed (r : reply (option str)) : Prop :=
  match r with
  | Raises e => is_Exception e = true
  | Returns None => True
  | Returns (Some location) => location = []
  end.

(** [ceil(T / 5)] for an integer [T]. *)
Definition ceil_div5 (T : Z) : Z := (T + 4) / 5.

Definition polls (w : world) : nat := count_events is_GetObject (trace w).
Definition sleeps (w : world) : nat := count_events is_Sleep (trace w).
Definition async_calls (w : world) : nat :=
  count_events is_InvokeEndpointAsync (trace w).
Definition sync_calls (w : world) : nat :=
  count_events is_InvokeEndpoint (trace w).

(** What reading a response body gives: lines 123-132 and 168-177. *)
Definition read_body (text : str) : M value :=
  result <- json_loads text ;; LLMInference.extract_generated_text result.

(** What [except Exception as e:] followed by a logged error and
    [return None] makes of the outcome of the [try] block. *)
Definition except_Exception (msg : exn -> message)
    (res : outcome value * world) : outcome value * world :=
  match res with
  | (Raise e, w') =>
      if is_Exception e then (Ret VNone, add w' (Log ERROR (msg e))) else res
  | _ => res
  end.

(** The location [s3://bucket/key]. *)
Definition s3_location (bucket key : str) : str :=
  py "s3://" ++ bucket ++ [47%N] ++ key.

(** The world after the [n]-th poll found nothing and the loop slept. *)
Definition after_retry (E : env) (bucket key : str) (w : world) : world :=
  let w1 := tick w (s3_latency E (polls w)) (GetObject bucket key) in
  tick w1 (5 + sleep_overrun E (sleeps w1)) (Sleep 5).

Definition is_Log (ev : event) : bool :=
  match ev with Log _ _ => true | _ => false end.

(** Sample worlds and remote sides. *)
Definition w0 : world := {| clock := 0; trace := [] |}.

Definition env_never : env :=
  {| async_reply := fun _ => Returns (Some (py "s3://bucket/key"));
     sync_reply := fun _ => Returns (jsn "[{'generated_text': 'hello'}]");
     s3_reply := fun _ => Raises not_found;
     s3_latency := fun _ => 1 # 2;
     sleep_overrun := fun _ => 0 |}.

Definition env_denied : env :=
  {| async_reply := fun _ => Raises (ClientError (Some (py "ValidationError")));
     sync_reply := fun _ => Returns (jsn "[{'generated_text': 'hello'}]");
     s3_reply := fun _ => Raises (ClientError (Some (py "AccessDenied")));
     s3_latency := fun _ => 1 # 2;
     sleep_overrun := fun _ => 0 |}.

Definition env_body (text : str) : env :=
  {| async_reply := fun _ => Returns None;
     sync_reply := fun _ => Returns text;
     s3_reply := fun _ => Returns text;
     s3_latency := fun _ => 0;
     sleep_overrun := fun _ => 0 |}.

(* ===================================================================== *)
(** * Notions used by the proofs about the decoder *)
(* ===================================================================== *)

Local Open Scope N_scope.

(** No backtick, and no line feed, in a text. *)
Definition nobt (p : str) : bool := forallb (fun c => negb (c =? bt)) p.
Definition nonl (p : str) : bool := forallb (fun c => negb (c =? nl)) p.

(** What the string scanner consumes: no line feed, up to the closing
    quote; and what follows the closing quote does not matter to it. *)
Definition scanstring_ok (s k r : str) : Prop :=
  exists p, s = p ++ dq :: r /\ nonl p = true
            /\ forall t, Json.scanstring (s ++ t) = Some (k, r ++ t).

(** A [\uXXXX] escape that is not the first half of a surrogate pair. *)
Definition lone (uni : N) (r2 : str) : bool :=
  negb ((55296 <=? uni) && (uni <=? 56319))
  || match r2 with
     | b1 :: b2 :: _ => negb ((b1 =? 92) && (b2 =? 117))
     | _ => true
     end.

(** The head of the text, if any, is outside the class [P]. *)
Definition hd_not (P : N -> bool) (x : str) : bool :=
  match x with
  | [] => true
  | c :: _ => negb (P c)
  end.

Definition dot_or_digit (c : N) : bool := Json.is_digit c || (c =? 46).

(** What a scan consumes and how little it depends on what follows: the
    consumed prefix [p] holds no backtick at the start or the end of a
    line, and the scan gives the same value whatever text [t] comes after
    the rest [r], with enough fuel for the prefix. *)
Definition atom_ok (s : str) (v : value) (r : str) : Prop :=
  exists p, s = p ++ r /\ p <> [] /\ nobt p = true
    /\ (forall d, v <> VDict d)
    /\ forall t, follow_ok (r ++ t) = true ->
                 scan_atom (s ++ t) = Some (v, r ++ t).

Definition scan_ok (s : str) (v : value) (r : str) : Prop :=
  exists p, s = p ++ r /\ p <> [] /\ guarded_from nl p = true
    /\ (forall d, v = VDict d -> exists s', s = lbrace :: s')
    /\ forall f t, (List.length p < f)%nat -> follow_ok (r ++ t) = true ->
         Json.scan_once f (s ++ t) = Some (v, r ++ t).

Definition pairs_ok (s : str) (acc : list (str * value)) (v : value)
    (r : str) : Prop :=
  exists p, s = p ++ r /\ p <> [] /\ guarded_from dq p = true
    /\ forall f t, (List.length p < f)%nat ->
         Json.object_pairs f (s ++ t) acc = Some (v, r ++ t).

Definition items_ok (s : str) (acc : list value) (v : value) (r : str) : Prop :=
  exists p, s = p ++ r /\ p <> [] /\ guarded_from nl p = true
    /\ (exists l, v = VList l)
    /\ forall f t, (List.length p < f)%nat ->
         Json.array_items f (s ++ t) acc = Some (v, r ++ t).

Local Close Scope N_scope.

(* ===================================================================== *)
(** * Notions used by the proofs about the client *)
(* ===================================================================== *)

(** What the loop returns after a read error that it does not retry. *)
Definition after_error (e : exn) : outcome value :=
  match e with
  | ClientError None => Raise KeyError
  | ClientError (Some _) => Ret VNone
  | _ => Raise e
  end.

(** An outcome that is not an exception, and whose value is [None] unless
    it is one of those [P] accepts. *)
Definition never_raises (P : value -> Prop) (r : outcome value) : Prop :=
  (forall e, r <> Raise e) /\ (forall v, r = Ret v -> v = VNone \/ P v).

(** The value is the [generated_text] found in a body that the [n]-th call
    answered by [replies] returned, for some [n]. *)
Definition from_a_body (replies : nat -> reply str) (v : value) : Prop :=
  exists n text, replies n = Returns text /\ generated_text_of text = Some v.

(* ===================================================================== *)
(** * Notions used by the further properties of the client *)
(* ===================================================================== *)

(** Seconds taken by [k] polls that find nothing, each followed by the
    sleep of five seconds; the first of them is poll number [p] and is
    followed by sleep number [s]. *)
Fixpoint retry_time (E : env) (p s k : nat) : Q :=
  match k with
  | O => 0
  | S k' =>
      s3_latency E p + (5 + sleep_overrun E s) + retry_time E (S p) (S s) k'
  end.

(** A remote side on which the result appears at the third poll. *)
Definition env_late : env :=
  {| async_reply := fun _ => Returns (Some (py "s3://bucket/key"));
     sync_reply := fun _ => Returns (jsn "[{'generated_text': 'hello'}]");
     s3_reply := fun n => if (n <? 2)%nat then Raises not_found
                          else Returns (jsn "[{'generated_text': 'hello'}]");
     s3_latency := fun _ => 1 # 2;
     sleep_overrun := fun _ => 0 |}.

(* ===================================================================== *)
(** * The code around the client and the parsers *)
(* ===================================================================== *)

(** The lines that the code around the four client operations logs or
    prints, one constructor per call site. *)
Inductive line : Type :=
| ProcessingPrompt (i n : nat)               (* llm_inference.py:243 *)
| NoJSONFound                                (* header_para_mapping.py:930 *)
| FailedToParseJSON                          (* :933 *)
| SendingRequest                             (* :986 *)
| NoResponseFromLLM                          (* :990 *)
| FailedToParseLLMResponse                   (* :996 *)
| ValidationFailed                           (* :1001 *)
| SuccessfullyExtracted (invoice_number : value)   (* :1019 *)
| ErrorDuringExtraction (e : exn)            (* :1023 *)
| ExtractionError (e : exn)                  (* extract_thinker.py:241,
                                                extract_thinker_local_llama.py:112 *)
| ProcessingText (i n : nat).                (* extract_thinker_local_llama.py:132 *)

Inductive entry : Type :=
| Logged (lvl : level) (l : line)
| Printed (l : line).

(** The state this code runs in: the world of the client, and the journal
    of the lines written around it. Each line is kept with the length the
    trace of the client had when it was written, which places it among the
    events of the trace. *)
Record session : Type := {
  client : world;
  journal : list (nat * entry)
}.

Definition C (A : Type) : Type := session -> outcome A * session.

Definition retC {A} (a : A) : C A := fun s => (Ret a, s).

Definition raiseC {A} (e : exn) : C A := fun s => (Raise e, s).

Definition bindC {A B} (m : C A) (k : A -> C B) : C B :=
  fun s =>
    match m s with
    | (Ret a, s') => k a s'
    | (Raise e, s') => (Raise e, s')
    | (Diverge, s') => (Diverge, s')
    end.

Notation "x <~ m ;; k" := (bindC m (fun x => k))
  (at level 61, m at next level, right associativity).
Notation "m ;;~ k" := (bindC m (fun _ => k))
  (at level 61, right associativity).

(** A statement of the client, run from the code around it. *)
Definition lift {A} (m : M A) : C A :=
  fun s =>
    let '(r, w') := m (client s) in
    (r, {| client := w'; journal := journal s |}).

Definition write (en : entry) : C unit :=
  fun s =>
    (Ret tt, {| client := client s;
                journal := journal s
                           ++ [(List.length (trace (client s)), en)] |}).

Definition logC (lvl : level) (l : line) : C unit := write (Logged lvl l).
Definition printC (l : line) : C unit := write (Printed l).

(** [try: body] followed by [except] clauses, in the code around the
    client. *)
Definition tryC {A} (body : C A) (handler : exn -> option (C A)) : C A :=
  fun s =>
    match body s with
    | (Raise e, s') =>
        match handler e with
        | Some h => h s'
        | None => (Raise e, s')
        end
    | r => r
    end.

(** The events of the four client operations: everything but [print], and
    no sleep other than the five seconds between two polls. *)
Definition client_event (ev : event) : bool :=
  match ev with
  | Print _ => false
  | Sleep secs => Qeq_bool secs 5
  | _ => true
  end.

(** The pause of one second between two prompts of a batch. *)
Definition is_pause (ev : event) : bool :=
  match ev with
  | Sleep secs => Qeq_bool secs 1
  | _ => false
  end.

Definition pauses (w : world) : nat := count_events is_pause (trace w).

Module Batch.

Section Client.

Variable E : env.

(** The [for] loop of [batch_infer], lines 242-249: [n] is [len(prompts)],
    [i] the index of the head of [prompts], [results] the list built so
    far. *)
Fixpoint batch_loop (fuel : nat) (use_async : bool) (n i : nat)
    (prompts : list str) (results : list value) : C (list value) :=
  match prompts with
  | [] => retC results
  | prompt :: rest =>
      logC INFO (ProcessingPrompt (i + 1) n) ;;~
      result <~ lift (LLMInference.infer E fuel prompt use_async) ;;
      let results := results ++ [result] in
      (if (Z.of_nat i <? Z.of_nat n - 1)%Z
       then lift (LLMInference.sleep E 1)
       else retC tt) ;;~
      batch_loop fuel use_async n (S i) rest results
  end.

Definition batch_infer (fuel : nat) (prompts : list str) (use_async : bool)
  : C (list value) :=
  batch_loop fuel use_async (List.length prompts) 0 prompts [].

End Client.

End Batch.

Definition s0 : session := {| client := w0; journal := [] |}.

(** [w'] is [w] after more events of the client, and the clock has not
    run backwards. *)
Definition follows (w w' : world) : Prop :=
  (exists l, trace w' = trace w ++ l /\ forallb client_event l = true)
  /\ clock w <= clock w'.

(** What [infer] can return: [None], or the generated text of a body that
    was read from the bucket or returned by the synchronous endpoint. *)
Definition inferred (E : env) (v : value) : Prop :=
  v = VNone \/ from_a_body (s3_reply E) v \/ from_a_body (sync_reply E) v.

(* ===================================================================== *)
(** * Notions used by the further properties of the parsers *)
(* ===================================================================== *)

Local Open Scope N_scope.

(** A fenced block whose opening fence is tagged [json] or bare. *)
Definition fenced_block (tagged : bool) (s : str) : str :=
  py "```" ++ (if tagged then py "json" else []) ++ [nl] ++ s ++ [nl]
  ++ py "```".

(** The two characters that line 10 of [parse.py] strips. *)
Definition is_quote (c : N) : bool := (c =? dq) || (c =? sq).


Local Close Scope N_scope.

(* ===================================================================== *)
(** * header_para_mapping.py: InvoiceExtractor *)
(* ===================================================================== *)

Module InvoiceExtractor.

Local Open Scope N_scope.

(** [d[k]] on the item list of a dict: [None] stands for [KeyError]. *)
Fixpoint dict_item (d : list (str * value)) (k : str) : option value :=
  match d with
  | [] => None
  | (k', v) :: d' => if str_eqb k k' then Some v else dict_item d' k
  end.

(** [k in d] *)
Definition contains (d : list (str * value)) (k : str) : bool :=
  match dict_item d k with
  | Some _ => true
  | None => false
  end.

(** [v[k]] for a string key: a dict is looked up; every other value
    raises [TypeError]. *)
Definition getitem (v : value) (k : str) : C value :=
  match v with
  | VDict d =>
      match dict_item d k with
      | Some x => retC x
      | None => raiseC KeyError
      end
  | _ => raiseC (OtherException (py "TypeError"))
  end.

(** The values a [for] loop draws from [v]: the items of a list, the
    characters of a string, the keys of a dict; [None] stands for the
    [TypeError] raised for a value that is not iterable. *)
Definition iterate (v : value) : option (list value) :=
  match v with
  | VList items => Some items
  | VStr s => Some (List.map (fun c => VStr [c]) s)
  | VDict d => Some (List.map (fun kv => VStr (fst kv)) d)
  | _ => None
  end.

Definition isinstance_str (v : value) : bool :=
  match v with VStr _ => true | _ => false end.
Definition isinstance_list (v : value) : bool :=
  match v with VList _ => true | _ => false end.
Definition isinstance_dict (v : value) : bool :=
  match v with VDict _ => true | _ => false end.

Record line_item : Type := LineItem {
  id : value;
  description : value;
  shipper_address : value
}.

Record invoice_data : Type := InvoiceData {
  invoice_number : value;
  line_items : list line_item
}.

(** Lines 889-909. *)
Definition create_extraction_prompt (invoice_text : str) : str :=
  py "Extract the following information from this invoice text and return it as valid JSON:"
  ++ [nl; nl]
  ++ py "1. Invoice Number" ++ [nl]
  ++ py "2. Line Items (each with: line item ID, description, and shipper address)"
  ++ [nl; nl]
  ++ py "Invoice Text:" ++ [nl]
  ++ invoice_text ++ [nl; nl]
  ++ py "Return the data in this exact JSON format:" ++ [nl]
  ++ py "{" ++ [nl]
  ++ jsn "    'invoice_number': 'string'," ++ [nl]
  ++ jsn "    'line_items': [" ++ [nl]
  ++ py "        {" ++ [nl]
  ++ jsn "            'id': 'string'," ++ [nl]
  ++ jsn "            'description': 'string', " ++ [nl]
  ++ jsn "            'shipper_address': 'string'" ++ [nl]
  ++ py "        }" ++ [nl]
  ++ py "    ]" ++ [nl]
  ++ py "}" ++ [nl; nl]
  ++ py "Only return the JSON response, no additional text or explanation.".

(** The longest prefix of [r] that ends with a closing brace: a greedy
    [.*] under [re.DOTALL], followed by a closing brace. *)
Fixpoint greedy_rbrace (r : str) : option str :=
  match r with
  | [] => None
  | c :: r' =>
      match greedy_rbrace r' with
      | Some m => Some (c :: m)
      | None => if c =? rbrace then Some [c] else None
      end
  end.

(** [re.search(r'\{.*\}', s, re.DOTALL)] followed by [.group()]: the start
    positions are tried from left to right; at an opening brace the match
    is the longest one. *)
Fixpoint search_braces (s : str) : option str :=
  match s with
  | [] => None
  | c :: r =>
      if c =? lbrace then
        match greedy_rbrace r with
        | Some m => Some (c :: m)
        | None => search_braces r
        end
      else search_braces r
  end.

(** Lines 925-934. A response that is not a string makes [re.search] raise
    [TypeError]. *)
Definition parse_llm_response (response : value) : C value :=
  tryC (match response with
        | VStr text =>
            match search_braces text with
            | Some json_str => lift (json_loads json_str)
            | None => logC ERROR NoJSONFound ;;~ retC VNone
            end
        | _ => raiseC (OtherException (py "TypeError"))
        end)
       (fun e => match e with
                 | JSONDecodeError =>
                     Some (logC ERROR FailedToParseJSON ;;~ retC VNone)
                 | _ => None
                 end).

Definition required_fields : list str :=
  [py "id"; py "description"; py "shipper_address"].

(** The inner loop of lines 962-965. *)
Fixpoint check_fields (item : list (str * value)) (fields : list str) : bool :=
  match fields with
  | [] => true
  | field :: rest =>
      if negb (contains item field)
         || negb (isinstance_str (Json.dict_get item field VNone))
      then false
      else check_fields item rest
  end.

(** The outer loop of lines 959-965. *)
Fixpoint check_items (items : list value) : bool :=
  match items with
  | [] => true
  | item :: rest =>
      match item with
      | VDict i => if check_fields i required_fields then check_items rest
                   else false
      | _ => false
      end
  end.

(** Lines 946-967. *)
Definition validate_extracted_data (data : value) : bool :=
  match data with
  | VDict d =>
      if negb (contains d (py "invoice_number"))
         || negb (contains d (py "line_items"))
      then false
      else
        match Json.dict_get d (py "invoice_number") VNone with
        | VStr number =>
            match strip number with
            | [] => false
            | _ :: _ =>
                match Json.dict_get d (py "line_items") VNone with
                | VList items => check_items items
                | _ => false
                end
            end
        | _ => false
        end
  | _ => false
  end.

(** The loop of lines 1005-1012. *)
Fixpoint build_items (items : list value) (line_items : list line_item)
  : C (list line_item) :=
  match items with
  | [] => retC line_items
  | item_data :: rest =>
      a <~ getitem item_data (py "id") ;;
      b <~ getitem item_data (py "description") ;;
      c <~ getitem item_data (py "shipper_address") ;;
      build_items rest
        (line_items ++ [{| id := a; description := b; shipper_address := c |}])
  end.

(** Lines 1004-1017: the construction of the [InvoiceData] object. *)
Definition build_invoice (parsed_data : value) : C invoice_data :=
  items <~ getitem parsed_data (py "line_items") ;;
  line_items <~ match iterate items with
                | Some l => build_items l []
                | None => raiseC (OtherException (py "TypeError"))
                end ;;
  number <~ getitem parsed_data (py "invoice_number") ;;
  retC {| invoice_number := number; line_items := line_items |}.

Section Extractor.

Variable E : env.

(** The bound on the iterations of the polling loop of [infer]. *)
Variable fuel : nat.

(** Whether a float read from its lexeme equals zero. This depends on the
    rounding of floats, which is not modelled. *)
Variable float_is_zero : str -> bool.

(** [bool(v)] *)
Definition truthy (v : value) : bool :=
  match v with
  | VNone => false
  | VBool b => b
  | VInt z => negb (z =? 0)%Z
  | VFloat lexeme => negb (float_is_zero lexeme)
  | VStr s => match s with [] => false | _ :: _ => true end
  | VList l => match l with [] => false | _ :: _ => true end
  | VDict d => match d with [] => false | _ :: _ => true end
  end.

(** Lines 981-1024. *)
Definition extract_invoice_data (invoice_text : str)
  : C (option invoice_data) :=
  tryC (let prompt := create_extraction_prompt invoice_text in
        logC INFO SendingRequest ;;~
        llm_response <~ lift (LLMInference.infer E fuel prompt true) ;;
        if negb (truthy llm_response) then
          logC ERROR NoResponseFromLLM ;;~ retC None
        else
          parsed_data <~ parse_llm_response llm_response ;;
          if negb (truthy parsed_data) then
            logC ERROR FailedToParseLLMResponse ;;~ retC None
          else if negb (validate_extracted_data parsed_data) then
            logC ERROR ValidationFailed ;;~ retC None
          else
            invoice_data <~ build_invoice parsed_data ;;
            logC INFO (SuccessfullyExtracted (invoice_number invoice_data)) ;;~
            retC (Some invoice_data))
       (fun e =>
          if is_Exception e
          then Some (logC ERROR (ErrorDuringExtraction e) ;;~ retC None)
          else None).

End Extractor.

End InvoiceExtractor.



(** A remote side whose bucket holds, from the first poll on, a model
    output with a valid invoice in it. In the literal, an apostrophe stands
    for a double quote, as everywhere. *)
Definition env_invoice : env :=
  {| async_reply := fun _ => Returns (Some (py "s3://bucket/key"));
     sync_reply := fun _ => Returns [];
     s3_reply := fun _ =>
       Returns (jsn "[{'generated_text': 'Sure: {\'invoice_number\': \'INV-1\', \'line_items\': [{\'id\': \'LI-001\', \'description\': \'Widget A\', \'shipper_address\': \'ABC Corp\'}]} Done.'}]");
     s3_latency := fun _ => 1 # 2;
     sleep_overrun := fun _ => 0 |}.

(** The mapping that the JSON template of the prompt of [InvoiceExtractor]
    denotes. *)
Definition invoice_template : value :=
  VDict [(py "invoice_number", VStr (py "string"));
         (py "line_items",
          VList [VDict [(py "id", VStr (py "string"));
                        (py "description", VStr (py "string"));
                        (py "shipper_address", VStr (py "string"))]])].

(* ===================================================================== *)
(** * header_para_mapping.py: the field definitions and the extracted data *)
(* ===================================================================== *)

Module ExtractedInvoiceData.

(** The object holds one dict, [fields]. *)
Definition get_field (fields : list (str * value)) (field_name : str) : value :=
  Json.dict_get fields field_name VNone.

(** [self.fields[field_name] = value]: the dict after the assignment. *)
Definition set_field (fields : list (str * value)) (field_name : str)
    (v : value) : list (str * value) :=
  Json.dict_set fields field_name v.

End ExtractedInvoiceData.

Module FieldConfig.

Record FieldDefinition : Type := {
  field_name : str;
  field_type : str;
  description : str;
  required : bool;
  validation_rules : option str;
  example_value : option str
}.

(** Lines 478-483: the first definition with that name. *)
Fixpoint get_field_by_name (field_definitions : list FieldDefinition)
    (name : str) : option FieldDefinition :=
  match field_definitions with
  | [] => None
  | field_def :: rest =>
      if str_eqb (field_name field_def) name then Some field_def
      else get_field_by_name rest name
  end.

Definition get_required_fields (field_definitions : list FieldDefinition)
  : list FieldDefinition :=
  filter (fun f => required f) field_definitions.

Definition get_optional_fields (field_definitions : list FieldDefinition)
  : list FieldDefinition :=
  filter (fun f => negb (required f)) field_definitions.

Section Schema.

(** [str.lower], whose case mapping over Unicode is not modelled. *)
Variable lower : str -> str.

Definition type_mapping : list (str * str) :=
  [(py "string", py "string"); (py "number", py "number");
   (py "integer", py "integer"); (py "boolean", py "boolean");
   (py "array", py "array"); (py "date", py "string");
   (py "currency", py "string")].

(** [type_mapping.get(key, default)] *)
Fixpoint mapping_get (m : list (str * str)) (key default : str) : str :=
  match m with
  | [] => default
  | (k, v) :: m' => if str_eqb key k then v else mapping_get m' key default
  end.

(** The truth value of an [Optional[str]]: neither [None] nor empty. *)
Definition given (o : option str) : option str :=
  match o with
  | Some (c :: r) => Some (c :: r)
  | _ => None
  end.

(** The body of the loop of lines 521-552, for one definition. *)
Definition field_schema (field_def : FieldDefinition) : list (str * value) :=
  let json_type := mapping_get type_mapping (lower (field_type field_def))
                     (py "string") in
  let schema := [(py "type", VStr json_type);
                 (py "description", VStr (description field_def))] in
  let schema := match given (example_value field_def) with
                | Some ex => Json.dict_set schema (py "example") (VStr ex)
                | None => schema
                end in
  match given (validation_rules field_def) with
  | Some rules => Json.dict_set schema (py "pattern") (VStr rules)
  | None => schema
  end.

(** The loop: [properties] and [required] are the two containers of the
    schema under construction. *)
Fixpoint schema_loop (field_definitions : list FieldDefinition)
    (properties : list (str * value)) (required_names : list value)
  : list (str * value) * list value :=
  match field_definitions with
  | [] => (properties, required_names)
  | field_def :: rest =>
      let properties :=
        Json.dict_set properties (field_name field_def)
          (VDict (field_schema field_def)) in
      let required_names :=
        if required field_def
        then required_names ++ [VStr (field_name field_def)]
        else required_names in
      schema_loop rest properties required_names
  end.

(** Lines 515-554. *)
Definition create_json_schema (field_definitions : list FieldDefinition)
  : value :=
  let '(properties, required_names) := schema_loop field_definitions [] [] in
  VDict [(py "type", VStr (py "object"));
         (py "properties", VDict properties);
         (py "required", VList required_names)].

End Schema.

End FieldConfig.

(** The five type names that a property of the schema can carry. *)
Definition json_types : list str :=
  [py "string"; py "number"; py "integer"; py "boolean"; py "array"].

(* ===================================================================== *)
(** * LocalLlamaExtractor of the two extract_thinker files *)
(* ===================================================================== *)

(** [extract_thinker.py], class [LocalLlamaExtractor]. *)
Module ExtractThinkerLocal.

Section Extractor.

(** Lines 232-238: the call of the ExtractThinker library with the text,
    the temperature, the token limit and [do_sample], followed by
    [model_dump] when the result has it. *)
Variable extract : str -> Q -> Z -> bool -> C value.

(** [str(e)] *)
Variable str_of_exn : exn -> str.

(** [text[:500] + "..." if len(text) > 500 else text] *)
Definition raw_text (text : str) : str :=
  if (Z.of_nat (List.length text) >? 500)%Z
  then slice text 0 500 ++ py "..."
  else text.

(** Lines 222-242. *)
Definition extract_data (text : str) (temperature : Q) (max_tokens : Z)
  : C value :=
  tryC (extract text temperature max_tokens (LLMInference.Qltb 0 temperature))
       (fun e =>
          if is_Exception e
          then Some (printC (ExtractionError e) ;;~
                     retC (VDict [(py "error", VStr (str_of_exn e));
                                  (py "raw_text", VStr (raw_text text))]))
          else None).

End Extractor.

End ExtractThinkerLocal.

(** [extract_thinker_local_llama.py], class [LocalLlamaExtractor]. *)
Module LocalLlamaBatch.

Section Extractor.

(** Lines 103-109: the same call of the library. *)
Variable extract : str -> Q -> Z -> bool -> C value.

(** Lines 93-113. *)
Definition extract_data (text : str) (temperature : Q) (max_tokens : Z)
  : C value :=
  tryC (extract text temperature max_tokens (LLMInference.Qltb 0 temperature))
       (fun e =>
          if is_Exception e
          then Some (printC (ExtractionError e) ;;~ retC (VDict []))
          else None).

(** The loop of [batch_extract], lines 130-135: [n] is [len(texts)], [i]
    the index of the head of [texts]. *)
Fixpoint batch_loop (n i : nat) (texts : list str) (temperature : Q)
    (max_tokens : Z) (results : list value) : C (list value) :=
  match texts with
  | [] => retC results
  | text :: rest =>
      printC (ProcessingText (i + 1) n) ;;~
      result <~ extract_data text temperature max_tokens ;;
      batch_loop n (S i) rest temperature max_tokens (results ++ [result])
  end.

Definition batch_extract (texts : list str) (temperature : Q)
    (max_tokens : Z) : C (list value) :=
  batch_loop (List.length texts) 0 texts temperature max_tokens [].

End Extractor.

End LocalLlamaBatch.

(** The library call that always fails with the same error, and the
    library call under which a batch runs to its end: it returns, or fails
    with an exception of the [Exception] hierarchy. *)
Definition extract_fails : str -> Q -> Z -> bool -> C value :=
  fun _ _ _ _ => raiseC ValueError.

Definition extract_ends (extract : str -> Q -> Z -> bool -> C value) : Prop :=
  forall text temperature max_tokens do_sample s,
    fst (extract text temperature max_tokens do_sample s) <> Diverge
    /\ forall e, fst (extract text temperature max_tokens do_sample s) = Raise e ->
                 is_Exception e = true.

(* ===================================================================== *)
(** * Facts about strings *)
(* ===================================================================== *)

Unset Implicit Arguments.

Section StringFacts.

Local Open Scope N_scope.

Lemma last_cons_default (c : N) (x : str) (a : N) :
  last (c :: x) a = last x c.
Proof.
  revert c a. induction x as [|d x IH]; intros c a; [reflexivity|].
  change (last (c :: d :: x) a) with (last (d :: x) a).
  rewrite (IH d a), (IH d c). reflexivity.
Qed.

Lemma guarded_from_weaken (a : N) (p : str) :
  guarded_from nl p = true -> guarded_from a p = true.
Proof.
  destruct p as [|c r]; [reflexivity|]. simpl.
  destruct (c =? bt); simpl; [discriminate|trivial].
Qed.

Lemma guarded_from_app (x y : str) : forall a,
  guarded_from a x = true ->
  guarded_from (last x a) y = true ->
  guarded_from a (x ++ y) = true.
Proof.
  induction x as [|c x IH]; intros a Hx Hy; [exact Hy|].
  rewrite last_cons_default in Hy.
  simpl in Hx |- *. apply andb_true_iff in Hx as [Hc Hx].
  apply andb_true_iff; split; [|apply IH; assumption].
  destruct (c =? bt); [|reflexivity].
  destruct x as [|d x]; simpl in *; [rewrite andb_false_r in Hc; discriminate|].
  exact Hc.
Qed.

Lemma guarded_nobt (p : str) : forall a,
  nobt p = true -> guarded_from a p = true.
Proof.
  induction p as [|c p IH]; intros a H; [reflexivity|].
  simpl in H |- *. apply andb_true_iff in H as [Hc Hp].
  apply negb_true_iff in Hc. rewrite Hc. simpl. apply IH, Hp.
Qed.

(** Text without line feeds that ends in a character other than a
    backtick is guarded, whatever precedes it but a line feed. *)
Lemma guarded_nonl (p : str) : forall a e,
  (a =? nl) = false -> nonl (p ++ [e]) = true -> (e =? bt) = false ->
  guarded_from a (p ++ [e]) = true.
Proof.
  induction p as [|c p IH]; intros a e Ha Hp He.
  - simpl. rewrite He. reflexivity.
  - simpl in Hp. apply andb_true_iff in Hp as [Hc Hp].
    apply negb_true_iff in Hc.
    change ((c :: p) ++ [e]) with (c :: (p ++ [e])).
    cbn [guarded_from]. rewrite (IH c e Hc Hp He), andb_true_r.
    destruct (c =? bt); [|reflexivity].
    rewrite Ha. simpl.
    destruct p as [|d p]; simpl in Hp |- *.
    + rewrite andb_true_r in Hp. exact Hp.
    + apply andb_true_iff in Hp as [Hd _]. exact Hd.
Qed.

Lemma nobt_app (x y : str) : nobt (x ++ y) = nobt x && nobt y.
Proof. apply forallb_app. Qed.

Lemma nonl_app (x y : str) : nonl (x ++ y) = nonl x && nonl y.
Proof. apply forallb_app. Qed.

Lemma is_ws_cases (c : N) :
  Json.is_ws c = true -> c = 32 \/ c = 9 \/ c = 10 \/ c = 13.
Proof.
  unfold Json.is_ws. intros H.
  repeat (apply orb_true_iff in H as [H|H]);
    apply N.eqb_eq in H; subst; auto.
Qed.

Lemma is_ws_facts (c : N) :
  Json.is_ws c = true ->
  is_space c = true /\ (c =? bt) = false /\ follow_ok [c] = true.
Proof.
  intros H. destruct (is_ws_cases c H) as [ -> | [ -> | [ -> | -> ] ] ]; repeat split.
Qed.

Lemma ws_nobt (w : str) : forallb Json.is_ws w = true -> nobt w = true.
Proof.
  induction w as [|c w IH]; [reflexivity|]. simpl. intros H.
  apply andb_true_iff in H as [Hc Hw].
  destruct (is_ws_facts c Hc) as (_ & -> & _). simpl. apply IH, Hw.
Qed.

Lemma skip_ws_split (s : str) :
  exists w, s = w ++ Json.skip_ws s /\ forallb Json.is_ws w = true.
Proof.
  induction s as [|c s (w & Hs & Hw)]; [exists []; split; reflexivity|].
  simpl. destruct (Json.is_ws c) eqn:Hc.
  - exists (c :: w). split; [simpl; congruence|]. simpl. rewrite Hc. exact Hw.
  - exists []. split; reflexivity.
Qed.

Lemma skip_ws_app (s t : str) :
  Json.skip_ws s <> [] -> Json.skip_ws (s ++ t) = Json.skip_ws s ++ t.
Proof.
  induction s as [|c s IH]; simpl; [congruence|].
  destruct (Json.is_ws c); [exact IH|reflexivity].
Qed.

Lemma skip_ws_all (w : str) :
  forallb Json.is_ws w = true -> forall t, Json.skip_ws (w ++ t) = Json.skip_ws t.
Proof.
  induction w as [|c w IH]; simpl; intros H t; [reflexivity|].
  apply andb_true_iff in H as [-> Hw]. apply IH, Hw.
Qed.

Lemma skip_ws_nil (r : str) :
  Json.skip_ws r = [] -> forallb Json.is_ws r = true.
Proof.
  induction r as [|c r IH]; simpl; [reflexivity|].
  destruct (Json.is_ws c); [exact IH|discriminate].
Qed.

Lemma skip_ws_head (s : str) (c : N) (r : str) :
  Json.skip_ws s = c :: r -> Json.is_ws c = false.
Proof.
  induction s as [|d s IH]; simpl; [discriminate|].
  destruct (Json.is_ws d) eqn:Hd; [exact IH|].
  intros H. injection H as -> _. exact Hd.
Qed.

Lemma skip_ws_length (s : str) :
  (List.length (Json.skip_ws s) <= List.length s)%nat.
Proof.
  induction s as [|c s IH]; simpl; [lia|].
  destruct (Json.is_ws c); simpl; lia.
Qed.

End StringFacts.

Example loads_scenario :
  Json.loads (jsn "{'name': 'John', 'age': 30, 'city': 'New York'}")
  = Some (VDict [(py "name", VStr (py "John")); (py "age", VInt 30);
                 (py "city", VStr (py "New York"))]).
Proof. vm_compute. reflexivity. Qed.

Example loads_misc :
  Json.loads (jsn " [1, -2.5e3, true, null, {'a': [], 'a': 'xA\n'}, 0 ]  ")
  = Some (VList [VInt 1; VFloat (py "-2.5e3"); VBool true; VNone;
                 VDict [(py "a", VStr (py "xA" ++ [nl]))]; VInt 0]).
Proof. vm_compute. reflexivity. Qed.

Example loads_bad : Json.loads (jsn "{'a': 01}") = None
  /\ Json.loads (py "hello") = None /\ Json.loads (jsn "[1,]") = None
  /\ Json.loads (jsn "{'a':1} x") = None /\ Json.loads (py "") = None.
Proof. vm_compute. repeat split. Qed.


(* ===================================================================== *)
(** * Facts about the JSON decoder *)
(* ===================================================================== *)

Section ScanstringFacts.

Local Open Scope N_scope.

Lemma push_inv (c : N) (x : option (str * str)) (k r : str) :
  Json.push c x = Some (k, r) -> exists k', x = Some (k', r) /\ k = c :: k'.
Proof.
  destruct x as [[k' r']|]; simpl; [|discriminate].
  intros H. injection H as <- <-. exists k'. split; reflexivity.
Qed.

Lemma hex_digit_not_nl (h x : N) : Json.hex_digit h = Some x -> (h =? nl) = false.
Proof.
  destruct (h =? nl) eqn:E; [|reflexivity].
  apply N.eqb_eq in E. subst h. discriminate.
Qed.

Lemma decode_uXXXX_nonl (a b c d u : N) :
  Json.decode_uXXXX a b c d = Some u -> nonl [a; b; c; d] = true.
Proof.
  unfold Json.decode_uXXXX.
  destruct (Json.hex_digit a) eqn:Ha; [|discriminate].
  destruct (Json.hex_digit b) eqn:Hb; [|discriminate].
  destruct (Json.hex_digit c) eqn:Hc; [|discriminate].
  destruct (Json.hex_digit d) eqn:Hd; [|discriminate].
  intros _. unfold nonl. simpl.
  rewrite (hex_digit_not_nl _ _ Ha), (hex_digit_not_nl _ _ Hb),
    (hex_digit_not_nl _ _ Hc), (hex_digit_not_nl _ _ Hd). reflexivity.
Qed.

Lemma backslash_not_nl (esc ch : N) :
  Json.backslash esc = Some ch -> (esc =? nl) = false.
Proof.
  destruct (esc =? nl) eqn:E; [|reflexivity].
  apply N.eqb_eq in E. subst esc. discriminate.
Qed.

Lemma scanstring_ok_step (pre s k r : str) (c : N) :
  nonl pre = true ->
  (forall t, Json.scanstring (s ++ t) = Some (k, r ++ t) ->
             Json.scanstring ((pre ++ s) ++ t) = Some (c :: k, r ++ t)) ->
  scanstring_ok s k r -> scanstring_ok (pre ++ s) (c :: k) r.
Proof.
  intros Hpre Hstep (p & Hs & Hp & Hext).
  exists (pre ++ p). repeat split.
  - rewrite Hs, app_assoc. reflexivity.
  - rewrite nonl_app, Hpre, Hp. reflexivity.
  - intros t. apply Hstep, Hext.
Qed.

Lemma scanstring_plain (c : N) (r0 : str) :
  (c =? 34) = false -> (c =? 92) = false -> (c <? 32) = false ->
  Json.scanstring (c :: r0) = Json.push c (Json.scanstring r0).
Proof. intros H1 H2 H3. cbn [Json.scanstring]. rewrite H1, H2, H3. reflexivity. Qed.

Lemma scanstring_escape (esc ch : N) (r1 : str) :
  (esc =? 117) = false -> Json.backslash esc = Some ch ->
  Json.scanstring (92 :: esc :: r1) = Json.push ch (Json.scanstring r1).
Proof. intros H1 H2. cbn [Json.scanstring]. rewrite H1, H2. reflexivity. Qed.

Lemma scanstring_lone (h1 h2 h3 h4 uni : N) (r2 : str) :
  Json.decode_uXXXX h1 h2 h3 h4 = Some uni -> lone uni r2 = true ->
  Json.scanstring (92 :: 117 :: h1 :: h2 :: h3 :: h4 :: r2)
  = Json.push uni (Json.scanstring r2).
Proof.
  intros Hdec Hl. unfold lone in Hl.
  cbn [Json.scanstring]. simpl (117 =? 117). cbv iota. rewrite Hdec.
  destruct ((55296 <=? uni) && (uni <=? 56319)); [|reflexivity].
  destruct r2 as [|b1 [|b2 r3]]; try reflexivity.
  simpl in Hl. apply negb_true_iff in Hl. rewrite Hl. reflexivity.
Qed.

Lemma scanstring_pair (h1 h2 h3 h4 k1 k2 k3 k4 uni uni2 : N) (r4 : str) :
  Json.decode_uXXXX h1 h2 h3 h4 = Some uni ->
  (55296 <=? uni) && (uni <=? 56319) = true ->
  Json.decode_uXXXX k1 k2 k3 k4 = Some uni2 ->
  Json.scanstring (92 :: 117 :: h1 :: h2 :: h3 :: h4
                      :: 92 :: 117 :: k1 :: k2 :: k3 :: k4 :: r4)
  = if (56320 <=? uni2) && (uni2 <=? 57343)
    then Json.push (65536 + ((uni - 55296) * 1024 + (uni2 - 56320)))
                   (Json.scanstring r4)
    else Json.push uni (Json.scanstring (92 :: 117 :: k1 :: k2 :: k3 :: k4 :: r4)).
Proof.
  intros Hdec Hh Hdec2.
  cbn [Json.scanstring]. simpl (117 =? 117). cbv iota. rewrite Hdec, Hh.
  simpl ((92 =? 92) && (117 =? 117)). cbv iota. rewrite Hdec2.
  destruct ((56320 <=? uni2) && (uni2 <=? 57343)); reflexivity.
Qed.

Lemma lone_app (uni : N) (r2 t k r : str) :
  lone uni r2 = true -> Json.scanstring r2 = Some (k, r) ->
  lone uni (r2 ++ t) = true.
Proof.
  unfold lone. intros Hl Hs.
  destruct ((55296 <=? uni) && (uni <=? 56319)); [|reflexivity].
  simpl in Hl |- *.
  destruct r2 as [|b1 [|b2 r3]]; [discriminate| |exact Hl].
  assert (b1 = 34) as ->.
  { cbn [Json.scanstring] in Hs. destruct (b1 =? 34) eqn:E;
      [apply N.eqb_eq in E; exact E|].
    destruct (b1 =? 92); [discriminate|].
    destruct (b1 <? 32); discriminate. }
  destruct t; reflexivity.
Qed.

Lemma scanstring_spec : forall n s k r,
  (List.length s <= n)%nat -> Json.scanstring s = Some (k, r) ->
  scanstring_ok s k r.
Proof.
  induction n as [|n IH]; intros s k r Hlen H.
  { destruct s; [discriminate|simpl in Hlen; lia]. }
  destruct s as [|c r0]; [discriminate|].
  destruct (c =? 34) eqn:Hq.
  { cbn [Json.scanstring] in H. rewrite Hq in H.
    injection H as <- <-. apply N.eqb_eq in Hq. subst c.
    exists []. repeat split. }
  destruct (c =? 92) eqn:Hb.
  2:{ destruct (c <? 32) eqn:Hctl.
      { cbn [Json.scanstring] in H. rewrite Hq, Hb, Hctl in H. discriminate. }
      rewrite (scanstring_plain _ _ Hq Hb Hctl) in H.
      apply push_inv in H as (k' & H & ->).
      apply (scanstring_ok_step [c] r0).
      - unfold nonl. simpl. rewrite andb_true_r. apply negb_true_iff.
        apply N.eqb_neq. apply N.ltb_ge in Hctl. unfold nl. lia.
      - intros t Ht. cbn [app].
        rewrite (scanstring_plain _ _ Hq Hb Hctl), Ht. reflexivity.
      - apply (IH r0); [simpl in Hlen; lia|exact H]. }
  apply N.eqb_eq in Hb. subst c.
  destruct r0 as [|esc r1]; [discriminate|].
  destruct (esc =? 117) eqn:Hu.
  2:{ destruct (Json.backslash esc) as [ch|] eqn:Hesc.
      2:{ cbn [Json.scanstring] in H. rewrite Hu, Hesc in H. discriminate. }
      rewrite (scanstring_escape _ _ _ Hu Hesc) in H.
      apply push_inv in H as (k' & H & ->).
      apply (scanstring_ok_step [92; esc] r1).
      - unfold nonl. simpl. rewrite (backslash_not_nl _ _ Hesc). reflexivity.
      - intros t Ht. cbn [app].
        rewrite (scanstring_escape _ _ _ Hu Hesc), Ht. reflexivity.
      - apply (IH r1); [simpl in Hlen; lia|exact H]. }
  apply N.eqb_eq in Hu. subst esc.
  destruct r1 as [|h1 [|h2 [|h3 [|h4 r2]]]]; try discriminate.
  destruct (Json.decode_uXXXX h1 h2 h3 h4) as [uni|] eqn:Hdec.
  2:{ cbn [Json.scanstring] in H. simpl (117 =? 117) in H. cbv iota in H.
      rewrite Hdec in H. discriminate. }
  pose proof (decode_uXXXX_nonl _ _ _ _ _ Hdec) as Hhex.
  destruct (lone uni r2) eqn:Hlone.
  { rewrite (scanstring_lone _ _ _ _ _ _ Hdec Hlone) in H.
    apply push_inv in H as (k' & H & ->).
    apply (scanstring_ok_step [92; 117; h1; h2; h3; h4] r2).
    - unfold nonl in *. simpl in *. exact Hhex.
    - intros t Ht. cbn [app].
      rewrite (scanstring_lone _ _ _ _ _ _ Hdec (lone_app _ _ t _ _ Hlone H)), Ht.
      reflexivity.
    - apply (IH r2); [simpl in Hlen; lia|exact H]. }
  unfold lone in Hlone. apply orb_false_iff in Hlone as [Hhigh Hpair].
  apply negb_false_iff in Hhigh.
  destruct r2 as [|b1 [|b2 r3]]; try discriminate.
  apply negb_false_iff in Hpair. apply andb_true_iff in Hpair as [E1 E2].
  apply N.eqb_eq in E1, E2. subst b1 b2.
  destruct r3 as [|k1 [|k2 [|k3 [|k4 r4]]]];
    try (cbn [Json.scanstring] in H; simpl (117 =? 117) in H; cbv iota in H;
         rewrite Hdec, Hhigh in H; discriminate).
  destruct (Json.decode_uXXXX k1 k2 k3 k4) as [uni2|] eqn:Hdec2.
  2:{ cbn [Json.scanstring] in H. simpl (117 =? 117) in H. cbv iota in H.
      rewrite Hdec, Hhigh in H. simpl ((92 =? 92) && (117 =? 117)) in H.
      cbv iota in H. rewrite Hdec2 in H. discriminate. }
  pose proof (decode_uXXXX_nonl _ _ _ _ _ Hdec2) as Hhex2.
  rewrite (scanstring_pair _ _ _ _ _ _ _ _ _ _ _ Hdec Hhigh Hdec2) in H.
  destruct ((56320 <=? uni2) && (uni2 <=? 57343)) eqn:Hlow.
  - apply push_inv in H as (k' & H & ->).
    apply (scanstring_ok_step
             [92; 117; h1; h2; h3; h4; 92; 117; k1; k2; k3; k4] r4).
    + unfold nonl in *. simpl in *.
      repeat (apply andb_true_iff in Hhex as [? Hhex]).
      repeat (apply andb_true_iff in Hhex2 as [? Hhex2]).
      repeat (apply andb_true_iff; split); assumption.
    + intros t Ht. cbn [app].
      rewrite (scanstring_pair _ _ _ _ _ _ _ _ _ _ _ Hdec Hhigh Hdec2), Hlow, Ht.
      reflexivity.
    + apply (IH r4); [simpl in Hlen; lia|exact H].
  - apply push_inv in H as (k' & H & ->).
    apply (scanstring_ok_step [92; 117; h1; h2; h3; h4]
             (92 :: 117 :: k1 :: k2 :: k3 :: k4 :: r4)).
    + unfold nonl in *. simpl in *. exact Hhex.
    + intros t Ht. cbn [app]. cbn [app] in Ht.
      rewrite (scanstring_pair _ _ _ _ _ _ _ _ _ _ _ Hdec Hhigh Hdec2), Hlow, Ht.
      reflexivity.
    + apply (IH _); [simpl in Hlen |- *; lia|exact H].
Qed.

End ScanstringFacts.
Section NumberFacts.

Local Open Scope N_scope.

Lemma follow_ok_digit (x : str) :
  follow_ok x = true -> hd_not Json.is_digit x = true.
Proof.
  destruct x as [|c x]; [reflexivity|]. simpl.
  destruct (Json.is_digit c); [discriminate|reflexivity].
Qed.

Lemma follow_ok_dot (x : str) :
  follow_ok x = true -> hd_not dot_or_digit x = true.
Proof.
  destruct x as [|c x]; [reflexivity|]. unfold dot_or_digit. simpl.
  destruct (Json.is_digit c); [discriminate|].
  destruct (c =? 46); [discriminate|reflexivity].
Qed.

Lemma digit_not_bt (c : N) : Json.is_digit c = true -> (c =? bt) = false.
Proof.
  unfold Json.is_digit. intros H. apply andb_true_iff in H as [_ H].
  apply N.leb_le in H. apply N.eqb_neq. unfold bt. lia.
Qed.

Lemma span_digits_spec (s : str) : forall ds r,
  Json.span_digits s = (ds, r) ->
  s = ds ++ r /\ nobt ds = true /\ hd_not Json.is_digit r = true
  /\ forall t, hd_not Json.is_digit (r ++ t) = true ->
               Json.span_digits (s ++ t) = (ds, r ++ t).
Proof.
  induction s as [|c s IH]; intros ds r H.
  - injection H as <- <-. repeat split.
    intros t Ht. destruct t as [|d t]; [reflexivity|].
    simpl in Ht |- *. apply negb_true_iff in Ht. rewrite Ht. reflexivity.
  - cbn [Json.span_digits] in H. destruct (Json.is_digit c) eqn:Hc.
    + destruct (Json.span_digits s) as [ds' r'] eqn:Hs.
      injection H as <- <-.
      destruct (IH ds' r' eq_refl) as (-> & Hbt & Hhd & Hext).
      repeat split; [|exact Hhd|].
      * simpl. rewrite (digit_not_bt _ Hc). exact Hbt.
      * intros t Ht. cbn [app Json.span_digits]. rewrite Hc.
        rewrite (Hext t Ht). reflexivity.
    + injection H as <- <-. repeat split.
      * simpl. rewrite Hc. reflexivity.
      * intros t _. cbn [app Json.span_digits]. rewrite Hc. reflexivity.
Qed.

Lemma match_integer_spec (s i r : str) :
  Json.match_integer s = Some (i, r) ->
  s = i ++ r /\ i <> [] /\ nobt i = true
  /\ forall t, hd_not Json.is_digit (r ++ t) = true ->
               Json.match_integer (s ++ t) = Some (i, r ++ t).
Proof.
  unfold Json.match_integer.
  assert (Hbody : forall sign r0,
    nobt sign = true ->
    match r0 with
    | [] => None
    | d :: r1 =>
        if d =? 48 then Some (sign ++ [48], r1)
        else if Json.is_digit d
             then let '(ds, r2) := Json.span_digits r1 in Some (sign ++ d :: ds, r2)
             else None
    end = Some (i, r) ->
    sign ++ r0 = i ++ r /\ i <> [] /\ nobt i = true
    /\ forall t, hd_not Json.is_digit (r ++ t) = true ->
         match r0 ++ t with
         | [] => None
         | d :: r1 =>
             if d =? 48 then Some (sign ++ [48], r1)
             else if Json.is_digit d
                  then let '(ds, r2) := Json.span_digits r1 in Some (sign ++ d :: ds, r2)
                  else None
         end = Some (i, r ++ t)).
  { intros sign r0 Hsign H. destruct r0 as [|d r1]; [discriminate|].
    destruct (d =? 48) eqn:Hz.
    - injection H as <- <-. apply N.eqb_eq in Hz. subst d.
      repeat split.
      + rewrite <- app_assoc. reflexivity.
      + intros E. apply app_eq_nil in E as [_ E]. discriminate.
      + rewrite nobt_app, Hsign. reflexivity.
    - destruct (Json.is_digit d) eqn:Hd; [|discriminate].
      destruct (Json.span_digits r1) as [ds r2] eqn:Hs.
      injection H as <- <-.
      destruct (span_digits_spec _ _ _ Hs) as (-> & Hbt & _ & Hext).
      repeat split.
      + rewrite <- app_assoc. reflexivity.
      + intros E. apply app_eq_nil in E as [_ E]. discriminate.
      + rewrite nobt_app, Hsign. simpl. rewrite (digit_not_bt _ Hd). exact Hbt.
      + intros t Ht. cbn [app]. rewrite Hz, Hd.
        rewrite (Hext t Ht). reflexivity. }
  destruct s as [|c s].
  - intros H. discriminate.
  - destruct (c =? 45) eqn:Hm.
    + apply N.eqb_eq in Hm. subst c. intros H.
      destruct (Hbody [45] s eq_refl H) as (E & Hi & Hbt & Hext).
      repeat split; try assumption.
    + intros H.
      destruct (Hbody [] (c :: s) eq_refl H) as (E & Hi & Hbt & Hext).
      repeat split; try assumption.
      intros t Ht. cbn [app]. rewrite Hm. apply (Hext t Ht).
Qed.

Lemma match_frac_spec (s fr r : str) :
  Json.match_frac s = (fr, r) ->
  s = fr ++ r /\ nobt fr = true /\ hd_not Json.is_digit (fr ++ [46]) = true
  /\ forall t, hd_not dot_or_digit (r ++ t) = true ->
               Json.match_frac (s ++ t) = (fr, r ++ t).
Proof.
  unfold Json.match_frac. destruct s as [|c s].
  - intros H. injection H as <- <-. repeat split.
    intros t Ht. destruct t as [|d t]; [reflexivity|].
    cbn [app]. unfold hd_not, dot_or_digit in Ht. cbn [app] in Ht.
    apply negb_true_iff, orb_false_iff in Ht as [Hd Hdot].
    rewrite Hdot. reflexivity.
  - destruct (c =? 46) eqn:Hdot.
    2:{ intros H. injection H as <- <-. repeat split.
        intros t _. cbn [app]. rewrite Hdot. reflexivity. }
    apply N.eqb_eq in Hdot. subst c.
    destruct (Json.span_digits s) as [ds r'] eqn:Hs.
    destruct (span_digits_spec _ _ _ Hs) as (-> & Hbt & Hhd & Hext).
    destruct ds as [|d ds].
    + intros H. injection H as <- <-. repeat split.
      intros t Ht. discriminate.
    + intros H. injection H as <- <-. repeat split.
      * exact Hbt.
      * intros t Ht. rewrite <- app_comm_cons. simpl (46 =? 46). cbv iota.
        rewrite (Hext t).
        -- reflexivity.
        -- destruct (r' ++ t) as [|x y]; [reflexivity|].
           unfold hd_not, dot_or_digit in Ht |- *.
           apply negb_true_iff, orb_false_iff in Ht as [Hd _].
           rewrite Hd. reflexivity.
Qed.

Lemma match_exp_spec (s ex r : str) :
  Json.match_exp s = (ex, r) ->
  s = ex ++ r /\ nobt ex = true /\ hd_not dot_or_digit (ex ++ [101]) = true
  /\ forall t, follow_ok (r ++ t) = true ->
               Json.match_exp (s ++ t) = (ex, r ++ t).
Proof.
  unfold Json.match_exp. destruct s as [|e r0].
  - intros H. injection H as <- <-. repeat split.
    intros t Ht. destruct t as [|d t]; [reflexivity|].
    cbn [app] in Ht |- *. unfold follow_ok in Ht.
    apply negb_true_iff in Ht.
    repeat (apply orb_false_iff in Ht as [Ht ?]).
    replace ((d =? 101) || (d =? 69)) with false
      by (symmetry; apply orb_false_iff; split; assumption).
    reflexivity.
  - destruct ((e =? 101) || (e =? 69)) eqn:He.
    2:{ intros H. injection H as <- <-. repeat split.
        intros t _. rewrite <- app_comm_cons. cbv iota. rewrite He.
        reflexivity. }
    assert (Hebt : (e =? bt) = false /\ dot_or_digit e = false).
    { apply orb_true_iff in He as [He|He]; apply N.eqb_eq in He; subst e;
        split; reflexivity. }
    destruct Hebt as [Hebt Hedd].
    set (sg := match r0 with
               | [] => ([], r0)
               | c :: r' => if (c =? 45) || (c =? 43) then ([c], r') else ([], r0)
               end).
    assert (Hsg : r0 = fst sg ++ snd sg /\ nobt (fst sg) = true
                  /\ (r0 <> [] -> forall t,
                        match r0 ++ t with
                        | [] => ([], r0 ++ t)
                        | c :: r' =>
                            if (c =? 45) || (c =? 43) then ([c], r')
                            else ([], r0 ++ t)
                        end = (fst sg, snd sg ++ t))).
    { subst sg. destruct r0 as [|c r']; [repeat split; congruence|].
      destruct ((c =? 45) || (c =? 43)) eqn:Hc.
      - repeat split.
        + apply orb_true_iff in Hc as [Hc|Hc]; apply N.eqb_eq in Hc; subst c;
            reflexivity.
        + intros _ t. rewrite <- app_comm_cons. cbv iota. rewrite Hc. reflexivity.
      - repeat split.
        intros _ t. rewrite <- app_comm_cons. cbv iota. rewrite Hc. reflexivity. }
    destruct sg as [sign r1]. cbn [fst snd] in Hsg.
    destruct Hsg as (Hr0 & Hsbt & Hsext).
    destruct (Json.span_digits r1) as [ds r'] eqn:Hs.
    destruct (span_digits_spec _ _ _ Hs) as (Hr1 & Hbt & Hhd & Hext).
    destruct ds as [|d ds].
    + intros H. injection H as <- <-. repeat split.
      intros t Ht. exfalso. rewrite <- app_comm_cons in Ht.
      unfold follow_ok in Ht. apply negb_true_iff in Ht.
      rewrite <- !orb_assoc in Ht.
      apply orb_false_iff in Ht as [_ Ht]. apply orb_false_iff in Ht as [_ Ht].
      rewrite He in Ht. discriminate.
    + intros H. injection H as <- <-. repeat split.
      * rewrite Hr0, Hr1. cbn [app]. rewrite <- app_assoc. reflexivity.
      * change (nobt ([e] ++ sign ++ d :: ds) = true).
        rewrite !nobt_app, Hsbt, Hbt. simpl. rewrite Hebt. reflexivity.
      * unfold hd_not. cbn [app]. rewrite Hedd. reflexivity.
      * intros t Ht. rewrite <- app_comm_cons. cbv iota. rewrite He.
        assert (Hne : r0 <> []).
        { intros ->. symmetry in Hr0. apply app_eq_nil in Hr0 as [_ ->].
          discriminate. }
        rewrite (Hsext Hne t).
        rewrite (Hext t (follow_ok_digit _ Ht)). reflexivity.
Qed.

(** A number lexeme holds no backtick, and the text that follows it does
    not change it as long as that text cannot continue a number. *)
Lemma match_number_spec (s : str) (v : value) (r : str) :
  Json.match_number s = Some (v, r) ->
  exists p, s = p ++ r /\ p <> [] /\ nobt p = true
    /\ forall t, follow_ok (r ++ t) = true ->
                 Json.match_number (s ++ t) = Some (v, r ++ t).
Proof.
  unfold Json.match_number.
  destruct (Json.match_integer s) as [[i r1]|] eqn:Hi; [|discriminate].
  destruct (Json.match_frac r1) as [fr r2] eqn:Hf.
  destruct (Json.match_exp r2) as [ex r3] eqn:He.
  destruct (match_integer_spec _ _ _ Hi) as (Es & Hine & Hibt & Hiext).
  destruct (match_frac_spec _ _ _ Hf) as (Er1 & Hfbt & Hfhd & Hfext).
  destruct (match_exp_spec _ _ _ He) as (Er2 & Hebt & Hehd & Heext).
  intros H.
  assert (Hr : r3 = r) by (destruct fr, ex; injection H; auto).
  subst r3.
  exists (i ++ fr ++ ex). repeat split.
  - rewrite Es, Er1, Er2, <- !app_assoc. reflexivity.
  - intros E. apply app_eq_nil in E as [E _]. contradiction.
  - rewrite !nobt_app, Hibt, Hfbt, Hebt. reflexivity.
  - intros t Ht.
    assert (H2 : hd_not dot_or_digit (r2 ++ t) = true).
    { rewrite Er2, <- app_assoc. destruct ex as [|x ex].
      - apply follow_ok_dot, Ht.
      - exact Hehd. }
    assert (H1 : hd_not Json.is_digit (r1 ++ t) = true).
    { rewrite Er1, <- app_assoc. destruct fr as [|x fr].
      - cbn [app]. destruct (r2 ++ t) as [|y z]; [reflexivity|].
        unfold hd_not, dot_or_digit in H2 |- *.
        apply negb_true_iff, orb_false_iff in H2 as [-> _]. reflexivity.
      - exact Hfhd. }
    rewrite (Hiext t H1), (Hfext t H2), (Heext t Ht).
    clear - H. destruct fr; destruct ex; injection H as <-; reflexivity.
Qed.

End NumberFacts.
Section AtomFacts.

Local Open Scope N_scope.

Lemma startswith_inv (pre : str) : forall s,
  startswith s pre = true -> exists r, s = pre ++ r.
Proof.
  induction pre as [|p pre IH]; intros s H; [exists s; reflexivity|].
  destruct s as [|c s]; [discriminate|]. simpl in H.
  apply andb_true_iff in H as [Hc Hs]. apply N.eqb_eq in Hc. subst c.
  destruct (IH s Hs) as (r & ->). exists r. reflexivity.
Qed.

Lemma startswith_app (pre r : str) : startswith (pre ++ r) pre = true.
Proof.
  induction pre as [|p pre IH]; [destruct r; reflexivity|].
  simpl. rewrite N.eqb_refl. exact IH.
Qed.

Lemma scan_once_atom (f : nat) (c : N) (r0 : str) :
  (c =? 34) = false -> (c =? 123) = false -> (c =? 91) = false ->
  Json.scan_once (S f) (c :: r0) = scan_atom (c :: r0).
Proof.
  intros H1 H2 H3. cbn [Json.scan_once scan_atom]. rewrite H1, H2, H3.
  reflexivity.
Qed.

Lemma match_number_head (c : N) (r0 : str) (res : value * str) :
  Json.match_number (c :: r0) = Some res -> Json.is_digit c = true \/ c = 45.
Proof.
  unfold Json.match_number, Json.match_integer.
  destruct (c =? 45) eqn:Hm; [apply N.eqb_eq in Hm; auto|].
  destruct (c =? 48) eqn:Hz; [apply N.eqb_eq in Hz; subst c; auto|].
  destruct (Json.is_digit c); [auto|discriminate].
Qed.

Lemma match_number_not_letter (c : N) (r0 : str) :
  Json.is_digit c = false -> (c =? 45) = false ->
  Json.match_number (c :: r0) = None.
Proof.
  intros Hd Hm. destruct (Json.match_number (c :: r0)) as [res|] eqn:E;
    [|reflexivity].
  destruct (match_number_head _ _ _ E) as [H|H]; [congruence|].
  subst c. discriminate.
Qed.

Lemma match_number_minus_I (r0 : str) :
  Json.match_number (45 :: 73 :: r0) = None.
Proof. reflexivity. Qed.

(** A literal: the text [lit] at the head of the input. *)
Lemma literal_spec (lit : str) (v : value) (s r : str) :
  nobt lit = true -> lit <> [] ->
  startswith s lit = true -> r = skipn (List.length lit) s ->
  s = lit ++ r
  /\ forall t, startswith (s ++ t) lit = true
               /\ skipn (List.length lit) (s ++ t) = r ++ t.
Proof.
  intros Hbt Hne Hs ->. destruct (startswith_inv _ _ Hs) as (r & ->).
  assert (E : forall x, skipn (List.length lit) (lit ++ x) = x).
  { intros x. clear. induction lit; simpl; auto. }
  rewrite E. split; [reflexivity|]. intros t. rewrite <- app_assoc.
  split; [apply startswith_app|apply E].
Qed.

Lemma scan_atom_spec (s : str) (v : value) (r : str) :
  scan_atom s = Some (v, r) -> atom_ok s v r.
Proof.
  destruct s as [|c r0]; [discriminate|]. unfold scan_atom.
  destruct ((c =? 110) && startswith (c :: r0) (py "null")) eqn:E1.
  { apply andb_true_iff in E1 as [Hc Hs]. intros H. injection H as <- <-.
    destruct (literal_spec (py "null") VNone _ _ eq_refl ltac:(discriminate) Hs eq_refl)
      as (Es & Hext).
    exists (py "null"). repeat split; try discriminate; [exact Es|].
    intros t _. destruct (Hext t) as [H1 H2].
    change (List.length (py "null")) with 4%nat in H2.
    unfold scan_atom. rewrite <- app_comm_cons in *. cbv iota. rewrite Hc, H1, H2. reflexivity. }
  destruct ((c =? 116) && startswith (c :: r0) (py "true")) eqn:E2.
  { apply andb_true_iff in E2 as [Hc Hs]. intros H. injection H as <- <-.
    destruct (literal_spec (py "true") VNone _ _ eq_refl ltac:(discriminate) Hs eq_refl)
      as (Es & Hext).
    exists (py "true"). repeat split; try discriminate; [exact Es|].
    intros t _. destruct (Hext t) as [H1 H2].
    change (List.length (py "true")) with 4%nat in H2.
    apply N.eqb_eq in Hc. subst c.
    unfold scan_atom. rewrite <- app_comm_cons in *. cbv iota. simpl (116 =? 110). cbn [andb].
    simpl (116 =? 116). rewrite H1, H2. reflexivity. }
  destruct ((c =? 102) && startswith (c :: r0) (py "false")) eqn:E3.
  { apply andb_true_iff in E3 as [Hc Hs]. intros H. injection H as <- <-.
    destruct (literal_spec (py "false") VNone _ _ eq_refl ltac:(discriminate) Hs eq_refl)
      as (Es & Hext).
    exists (py "false"). repeat split; try discriminate; [exact Es|].
    intros t _. destruct (Hext t) as [H1 H2].
    change (List.length (py "false")) with 5%nat in H2.
    apply N.eqb_eq in Hc. subst c.
    unfold scan_atom. rewrite <- app_comm_cons in *. cbv iota. simpl (102 =? 110).
    simpl (102 =? 116). cbn [andb].
    simpl (102 =? 102). rewrite H1, H2. reflexivity. }
  destruct (Json.match_number (c :: r0)) as [res|] eqn:En.
  { intros H. injection H as ->.
    destruct (match_number_spec _ _ _ En) as (p & Es & Hne & Hbt & Hext).
    exists p. repeat split; try assumption.
    - intros d ->. unfold Json.match_number in En.
      destruct (Json.match_integer (c :: r0)) as [[i r1]|]; [|discriminate].
      destruct (Json.match_frac r1) as [fr r2].
      destruct (Json.match_exp r2) as [ex r3].
      destruct fr; destruct ex; discriminate.
    - intros t Ht.
      assert (Hc : (c =? 110) = false /\ (c =? 116) = false /\ (c =? 102) = false).
      { destruct (match_number_head _ _ _ En) as [Hd| ->]; [|repeat split].
        unfold Json.is_digit in Hd. apply andb_true_iff in Hd as [_ Hd].
        apply N.leb_le in Hd. repeat split; apply N.eqb_neq; lia. }
      destruct Hc as (C1 & C2 & C3).
      unfold scan_atom. rewrite <- app_comm_cons. cbv iota.
      rewrite C1, C2, C3. cbn [andb].
      rewrite app_comm_cons, (Hext t Ht). reflexivity. }
  assert (Hlit : forall (code : N) (lit : str) (w : value),
            nobt lit = true -> lit <> [] -> (forall d, w <> VDict d) ->
            (code =? 110) = false -> (code =? 116) = false ->
            (code =? 102) = false ->
            (forall x, Json.match_number (lit ++ x) = None) ->
            (c =? code) && startswith (c :: r0) lit = true ->
            exists p, c :: r0 = p ++ skipn (List.length lit) (c :: r0)
              /\ p <> [] /\ nobt p = true /\ (forall d, w <> VDict d)
              /\ forall t, c = code
                   /\ (c =? 110) = false /\ (c =? 116) = false
                   /\ (c =? 102) = false
                   /\ Json.match_number (c :: r0 ++ t) = None
                   /\ startswith (c :: r0 ++ t) lit = true
                   /\ skipn (List.length lit) (c :: r0 ++ t)
                      = skipn (List.length lit) (c :: r0) ++ t).
  { intros code lit w Hbt Hne Hw C1 C2 C3 Hnum E.
    apply andb_true_iff in E as [Hc Hs]. apply N.eqb_eq in Hc. subst code.
    destruct (literal_spec lit w _ _ Hbt Hne Hs eq_refl) as (Es & Hext).
    exists lit. repeat split; try assumption.
    - rewrite app_comm_cons, Es, <- app_assoc. apply Hnum.
    - rewrite app_comm_cons. apply (Hext t).
    - rewrite app_comm_cons. apply (Hext t). }
  destruct ((c =? 78) && startswith (c :: r0) (py "NaN")) eqn:E4.
  { intros H. injection H as <- <-.
    destruct (Hlit 78 (py "NaN") (VFloat (py "NaN")) eq_refl
                ltac:(discriminate) ltac:(discriminate) eq_refl eq_refl eq_refl
                ltac:(intros; reflexivity) E4)
      as (p & Es & Hne & Hbt & Hw & Hext).
    exists p. repeat split; try assumption.
    intros t _. destruct (Hext t) as (-> & C1 & C2 & C3 & Hn & Hs & Hk).
    change (List.length (py "NaN")) with 3%nat in Hk.
    unfold scan_atom. rewrite <- app_comm_cons. cbv iota.
    rewrite C1, C2, C3. cbn [andb].
    rewrite Hn, Hs, Hk. reflexivity. }
  destruct ((c =? 73) && startswith (c :: r0) (py "Infinity")) eqn:E5.
  { intros H. injection H as <- <-.
    destruct (Hlit 73 (py "Infinity") (VFloat (py "Infinity")) eq_refl
                ltac:(discriminate) ltac:(discriminate) eq_refl eq_refl eq_refl
                ltac:(intros; reflexivity) E5)
      as (p & Es & Hne & Hbt & Hw & Hext).
    exists p. repeat split; try assumption.
    intros t _. destruct (Hext t) as (-> & C1 & C2 & C3 & Hn & Hs & Hk).
    change (List.length (py "Infinity")) with 8%nat in Hk.
    unfold scan_atom. rewrite <- app_comm_cons. cbv iota.
    rewrite C1, C2, C3. cbn [andb].
    rewrite Hn, Hs, Hk. reflexivity. }
  destruct ((c =? 45) && startswith (c :: r0) (py "-Infinity")) eqn:E6;
    [|discriminate].
  intros H. injection H as <- <-.
  destruct (Hlit 45 (py "-Infinity") (VFloat (py "-Infinity")) eq_refl
              ltac:(discriminate) ltac:(discriminate) eq_refl eq_refl eq_refl
              ltac:(intros; reflexivity) E6)
    as (p & Es & Hne & Hbt & Hw & Hext).
  exists p. repeat split; try assumption.
  intros t _. destruct (Hext t) as (-> & C1 & C2 & C3 & Hn & Hs & Hk).
    change (List.length (py "-Infinity")) with 9%nat in Hk.
  unfold scan_atom. rewrite <- app_comm_cons. cbv iota.
  rewrite C1, C2, C3. cbn [andb].
  rewrite Hn, Hs, Hk. reflexivity.
Qed.

End AtomFacts.
Section DecoderFacts.

Local Open Scope N_scope.

Lemma scan_once_string (f : nat) (r0 : str) :
  Json.scan_once (S f) (34 :: r0)
  = match Json.scanstring r0 with
    | Some (k, r') => Some (VStr k, r')
    | None => None
    end.
Proof. reflexivity. Qed.

Lemma scan_once_object (f : nat) (r0 : str) :
  Json.scan_once (S f) (123 :: r0)
  = match Json.skip_ws r0 with
    | c1 :: r1 =>
        if c1 =? 125 then Some (VDict [], r1)
        else if c1 =? 34 then Json.object_pairs f r1 []
        else None
    | [] => None
    end.
Proof. reflexivity. Qed.

Lemma scan_once_array (f : nat) (r0 : str) :
  Json.scan_once (S f) (91 :: r0)
  = match Json.skip_ws r0 with
    | c1 :: r1 =>
        if c1 =? 93 then Some (VList [], r1)
        else Json.array_items f (c1 :: r1) []
    | [] => None
    end.
Proof. reflexivity. Qed.

Lemma object_pairs_eq (f : nat) (s : str) (pairs : list (str * value)) :
  Json.object_pairs (S f) s pairs
  = match Json.scanstring s with
    | None => None
    | Some (key, s1) =>
        match Json.skip_ws s1 with
        | c :: s2 =>
            if c =? 58 then
              match Json.scan_once f (Json.skip_ws s2) with
              | None => None
              | Some (v, s3) =>
                  match Json.skip_ws s3 with
                  | c2 :: s4 =>
                      if c2 =? 125
                      then Some (VDict (Json.dict_of_pairs (pairs ++ [(key, v)])), s4)
                      else if c2 =? 44 then
                        match Json.skip_ws s4 with
                        | c3 :: s5 =>
                            if c3 =? 34
                            then Json.object_pairs f s5 (pairs ++ [(key, v)])
                            else None
                        | [] => None
                        end
                      else None
                  | [] => None
                  end
              end
            else None
        | [] => None
        end
    end.
Proof. reflexivity. Qed.

Lemma array_items_eq (f : nat) (s : str) (items : list value) :
  Json.array_items (S f) s items
  = match Json.scan_once f s with
    | None => None
    | Some (v, s1) =>
        match Json.skip_ws s1 with
        | c :: s2 =>
            if c =? 93 then Some (VList (items ++ [v]), s2)
            else if c =? 44
                 then Json.array_items f (Json.skip_ws s2) (items ++ [v])
                 else None
        | [] => None
        end
    end.
Proof. reflexivity. Qed.

Lemma guarded_app_nl (a : N) (x y : str) :
  guarded_from a x = true -> guarded_from nl y = true ->
  guarded_from a (x ++ y) = true.
Proof.
  intros Hx Hy. apply guarded_from_app; [exact Hx|].
  apply guarded_from_weaken, Hy.
Qed.

(** Whitespace up to a character [c]. *)
Lemma skip_ws_cons (x : str) (c : N) (y : str) :
  Json.skip_ws x = c :: y ->
  exists w, x = w ++ c :: y /\ nobt w = true
    /\ (forall t, Json.skip_ws (x ++ t) = c :: (y ++ t))
    /\ (follow_ok [c] = true -> forall t, follow_ok (x ++ t) = true).
Proof.
  intros H. destruct (skip_ws_split x) as (w & E & Hw). rewrite H in E.
  exists w. repeat split.
  - exact E.
  - apply ws_nobt, Hw.
  - intros t. rewrite skip_ws_app, H; [reflexivity|]. rewrite H. discriminate.
  - intros Hc t. rewrite E. destruct w as [|d w]; [exact Hc|].
    simpl in Hw. apply andb_true_iff in Hw as [Hd _].
    destruct (is_ws_facts d Hd) as (_ & _ & Hf). exact Hf.
Qed.

Lemma scan_ok_intro (p s : str) (v : value) (r : str) :
  s = p ++ r -> p <> [] -> guarded_from nl p = true ->
  (forall d, v = VDict d -> exists s', s = lbrace :: s') ->
  (forall f t, (List.length p < f)%nat -> follow_ok (r ++ t) = true ->
     Json.scan_once f (s ++ t) = Some (v, r ++ t)) ->
  scan_ok s v r.
Proof. intros. exists p. auto. Qed.

Lemma pairs_ok_intro (p s : str) (acc : list (str * value)) (v : value)
    (r : str) :
  s = p ++ r -> p <> [] -> guarded_from dq p = true ->
  (forall f t, (List.length p < f)%nat ->
     Json.object_pairs f (s ++ t) acc = Some (v, r ++ t)) ->
  pairs_ok s acc v r.
Proof. intros. exists p. auto. Qed.

Lemma items_ok_intro (p s : str) (acc : list value) (v : value) (r : str) :
  s = p ++ r -> p <> [] -> guarded_from nl p = true ->
  (exists l, v = VList l) ->
  (forall f t, (List.length p < f)%nat ->
     Json.array_items f (s ++ t) acc = Some (v, r ++ t)) ->
  items_ok s acc v r.
Proof. intros. exists p. auto. Qed.

Lemma scan_once_head_not_ws (f : nat) (s : str) (res : value * str) :
  Json.scan_once f s = Some res -> Json.skip_ws s = s.
Proof.
  destruct f as [|f]; [discriminate|]. destruct s as [|c r0]; [discriminate|].
  intros H. cbn [Json.skip_ws]. destruct (Json.is_ws c) eqn:Hc; [|reflexivity].
  exfalso. destruct (is_ws_cases c Hc) as [ -> | [ -> | [ -> | -> ] ] ];
    discriminate.
Qed.

Lemma scan_ok_string (r0 k r : str) :
  Json.scanstring r0 = Some (k, r) -> scan_ok (34 :: r0) (VStr k) r.
Proof.
  intros Hs.
  destruct (scanstring_spec _ _ _ _ (le_n _) Hs) as (p0 & E & Hnl & Hext).
  apply (scan_ok_intro (34 :: p0 ++ [dq])).
  - rewrite E. cbn [app]. rewrite <- app_assoc. reflexivity.
  - discriminate.
  - cbn [guarded_from]. simpl (34 =? bt). cbv iota. cbn [andb].
    apply guarded_nonl; [reflexivity| |reflexivity].
    rewrite nonl_app, Hnl. reflexivity.
  - intros d Hd. discriminate.
  - intros f t Hf _. destruct f as [|f]; [inversion Hf|].
    rewrite <- app_comm_cons, scan_once_string, (Hext t). reflexivity.
Qed.

Lemma scan_ok_atom (c : N) (r0 : str) (v : value) (r : str) :
  (c =? 34) = false -> (c =? 123) = false -> (c =? 91) = false ->
  scan_atom (c :: r0) = Some (v, r) -> scan_ok (c :: r0) v r.
Proof.
  intros C1 C2 C3 H.
  destruct (scan_atom_spec _ _ _ H) as (p & E & Hne & Hbt & Hd & Hext).
  apply (scan_ok_intro p); try assumption.
  - apply guarded_nobt, Hbt.
  - intros d ->. destruct (Hd d eq_refl).
  - intros f t Hf Ht. destruct f as [|f]; [inversion Hf|].
    rewrite <- app_comm_cons, (scan_once_atom _ _ _ C1 C2 C3), app_comm_cons.
    apply Hext, Ht.
Qed.

(** The decoder reads a guarded prefix of its input, and reads it again,
    to the same value, whatever is appended to the input, as long as a
    number is not followed by something that continues it. The fuel it
    needs is bounded by the length of what it reads. *)
Lemma decoder_spec : forall f,
  (forall s v r, Json.scan_once f s = Some (v, r) -> scan_ok s v r)
  /\ (forall s acc v r,
        Json.object_pairs f s acc = Some (v, r) -> pairs_ok s acc v r)
  /\ (forall s acc v r,
        Json.array_items f s acc = Some (v, r) -> items_ok s acc v r).
Proof.
  induction f as [|f (IHs & IHp & IHi)].
  { repeat split; intros; discriminate. }
  split; [|split].
  - (* scan_once *)
    intros s v r H. destruct s as [|c r0]; [discriminate|].
    destruct (c =? 34) eqn:C1.
    { apply N.eqb_eq in C1. subst c. rewrite scan_once_string in H.
      destruct (Json.scanstring r0) as [[k r']|] eqn:Hs; [|discriminate].
      injection H as <- <-. apply scan_ok_string, Hs. }
    destruct (c =? 123) eqn:C2.
    { apply N.eqb_eq in C2. subst c. rewrite scan_once_object in H.
      destruct (Json.skip_ws r0) as [|c1 r1] eqn:Hw; [discriminate|].
      destruct (skip_ws_cons _ _ _ Hw) as (w & E & Hwbt & Hwext & _).
      destruct (c1 =? 125) eqn:D1.
      { injection H as <- <-. apply N.eqb_eq in D1. subst c1.
        apply (scan_ok_intro (123 :: w ++ [125])).
        - rewrite E. cbn [app]. rewrite <- app_assoc. reflexivity.
        - discriminate.
        - apply guarded_nobt. change (nobt ([123] ++ w ++ [125]) = true).
          rewrite !nobt_app, Hwbt. reflexivity.
        - intros d _. exists r0. reflexivity.
        - intros f' t Hf _. destruct f' as [|f']; [inversion Hf|].
          rewrite <- app_comm_cons, scan_once_object, (Hwext t).
          reflexivity. }
      destruct (c1 =? 34) eqn:D2; [|discriminate].
      apply N.eqb_eq in D2. subst c1.
      destruct (IHp _ _ _ _ H) as (p1 & E1 & Hne & Hg & Hext).
      apply (scan_ok_intro ((123 :: w ++ [34]) ++ p1)).
      - rewrite E, E1. cbn [app]. rewrite <- !app_assoc. reflexivity.
      - discriminate.
      - apply guarded_from_app.
        + apply guarded_nobt. change (nobt ([123] ++ w ++ [34]) = true).
          rewrite !nobt_app, Hwbt. reflexivity.
        + rewrite app_comm_cons, last_last. exact Hg.
      - intros d _. exists r0. reflexivity.
      - intros f' t Hf _. destruct f' as [|f']; [inversion Hf|].
        rewrite <- app_comm_cons, scan_once_object, (Hwext t). cbv iota.
        simpl (34 =? 125). simpl (34 =? 34). cbv iota.
        apply Hext. rewrite length_app in Hf. simpl in Hf. lia. }
    destruct (c =? 91) eqn:C3.
    { apply N.eqb_eq in C3. subst c. rewrite scan_once_array in H.
      destruct (Json.skip_ws r0) as [|c1 r1] eqn:Hw; [discriminate|].
      destruct (skip_ws_cons _ _ _ Hw) as (w & E & Hwbt & Hwext & _).
      destruct (c1 =? 93) eqn:D1.
      { injection H as <- <-. apply N.eqb_eq in D1. subst c1.
        apply (scan_ok_intro (91 :: w ++ [93])).
        - rewrite E. cbn [app]. rewrite <- app_assoc. reflexivity.
        - discriminate.
        - apply guarded_nobt. change (nobt ([91] ++ w ++ [93]) = true).
          rewrite !nobt_app, Hwbt. reflexivity.
        - intros d Hd. discriminate.
        - intros f' t Hf _. destruct f' as [|f']; [inversion Hf|].
          rewrite <- app_comm_cons, scan_once_array, (Hwext t).
          reflexivity. }
      destruct (IHi _ _ _ _ H) as (p1 & E1 & Hne & Hg & (l & Hl) & Hext).
      apply (scan_ok_intro ((91 :: w) ++ p1)).
      - rewrite E, E1. cbn [app]. rewrite <- !app_assoc. reflexivity.
      - discriminate.
      - apply guarded_app_nl; [|exact Hg].
        apply guarded_nobt. change (nobt ([91] ++ w) = true).
        rewrite !nobt_app, Hwbt. reflexivity.
      - intros d Hd. rewrite Hl in Hd. discriminate.
      - intros f' t Hf _. destruct f' as [|f']; [inversion Hf|].
        rewrite <- app_comm_cons, scan_once_array, (Hwext t). cbv iota.
        rewrite D1. rewrite app_comm_cons.
        apply Hext. rewrite length_app in Hf. simpl in Hf. lia. }
    cbn [Json.scan_once] in H. rewrite C1, C2, C3 in H.
    apply scan_ok_atom; try assumption.
  - (* object_pairs *)
    intros s acc v r H. rewrite object_pairs_eq in H.
    destruct (Json.scanstring s) as [[key s1]|] eqn:Hk; [|discriminate].
    destruct (scanstring_spec _ _ _ _ (le_n _) Hk) as (pk & Ek & Hknl & Hkext).
    destruct (Json.skip_ws s1) as [|c s2] eqn:Hw1; [discriminate|].
    destruct (skip_ws_cons _ _ _ Hw1) as (w1 & E1 & Hw1bt & Hw1ext & _).
    destruct (c =? 58) eqn:Hc; [|discriminate].
    apply N.eqb_eq in Hc. subst c.
    destruct (Json.scan_once f (Json.skip_ws s2)) as [[v1 s3]|] eqn:Hv;
      [|discriminate].
    destruct (IHs _ _ _ Hv) as (pv & Ev & Hvne & Hvg & _ & Hvext).
    destruct (skip_ws_split s2) as (w2 & E2 & Hw2).
    assert (Hs2ne : Json.skip_ws s2 <> []).
    { rewrite Ev. intros E. apply app_eq_nil in E as [E _]. contradiction. }
    destruct (Json.skip_ws s3) as [|c2 s4] eqn:Hw3; [discriminate|].
    destruct (skip_ws_cons _ _ _ Hw3) as (w3 & E3 & Hw3bt & Hw3ext & Hw3f).
    assert (Hgk : guarded_from dq (pk ++ [dq]) = true).
    { apply guarded_nonl; [reflexivity| |reflexivity].
      rewrite nonl_app, Hknl. reflexivity. }
    assert (Hstep : forall f' t, (List.length pv < f')%nat ->
              follow_ok [c2] = true ->
              Json.object_pairs (S f') (s ++ t) acc
              = if c2 =? 125
                then Some (VDict (Json.dict_of_pairs (acc ++ [(key, v1)])), s4 ++ t)
                else if c2 =? 44 then
                  match Json.skip_ws (s4 ++ t) with
                  | c3 :: s5 =>
                      if c3 =? 34
                      then Json.object_pairs f' s5 (acc ++ [(key, v1)])
                      else None
                  | [] => None
                  end
                else None).
    { intros f' t Hf Hc2. rewrite object_pairs_eq, (Hkext t), (Hw1ext t).
      cbv iota. simpl (58 =? 58). cbv iota.
      rewrite (skip_ws_app _ _ Hs2ne).
      rewrite (Hvext f' t Hf (Hw3f Hc2 t)), (Hw3ext t). reflexivity. }
    set (pre := (pk ++ [dq]) ++ (w1 ++ [58]) ++ w2 ++ pv ++ w3) in *.
    assert (Epre : s = pre ++ c2 :: s4).
    { subst pre. rewrite Ek, E1, E2, Ev, E3 at 1. rewrite <- !app_assoc.
      reflexivity. }
    assert (Hgpre : forall c, (c =? bt) = false ->
              guarded_from dq (pre ++ [c]) = true).
    { intros c Hcbt. subst pre. rewrite <- !app_assoc.
      rewrite (app_assoc pk). apply guarded_app_nl; [exact Hgk|].
      apply guarded_app_nl; [apply guarded_nobt, Hw1bt|].
      apply guarded_app_nl; [reflexivity|].
      apply guarded_app_nl; [apply guarded_nobt, ws_nobt, Hw2|].
      apply guarded_app_nl; [exact Hvg|].
      apply guarded_nobt. rewrite nobt_app, Hw3bt. simpl. rewrite Hcbt.
      reflexivity. }
    assert (Hlen : (List.length pv < List.length pre)%nat).
    { subst pre. rewrite !length_app. simpl. lia. }
    destruct (c2 =? 125) eqn:D1.
    { injection H as <- <-. apply N.eqb_eq in D1. subst c2.
      apply (pairs_ok_intro (pre ++ [125])).
      - rewrite Epre, <- app_assoc. reflexivity.
      - intros E. apply app_eq_nil in E as [_ E]. discriminate.
      - apply Hgpre. reflexivity.
      - intros f' t Hf. destruct f' as [|f']; [inversion Hf|].
        rewrite length_app in Hf. simpl in Hf.
        rewrite (Hstep f' t); [reflexivity|lia|reflexivity]. }
    destruct (c2 =? 44) eqn:D2; [|discriminate].
    apply N.eqb_eq in D2. subst c2.
    destruct (Json.skip_ws s4) as [|c3 s5] eqn:Hw4; [discriminate|].
    destruct (skip_ws_cons _ _ _ Hw4) as (w4 & E4 & Hw4bt & Hw4ext & _).
    destruct (c3 =? 34) eqn:D3; [|discriminate].
    apply N.eqb_eq in D3. subst c3.
    destruct (IHp _ _ _ _ H) as (p5 & E5 & H5ne & H5g & H5ext).
    apply (pairs_ok_intro ((pre ++ [44]) ++ (w4 ++ [34]) ++ p5)).
    + rewrite Epre, E4, E5. rewrite <- !app_assoc. reflexivity.
    + intros E. apply app_eq_nil in E as [E _].
      apply app_eq_nil in E as [_ E]. discriminate.
    + apply guarded_from_app; [apply Hgpre; reflexivity|].
      rewrite last_last. apply guarded_from_app.
      * apply guarded_nobt. rewrite nobt_app, Hw4bt. reflexivity.
      * rewrite last_last. exact H5g.
    + intros f' t Hf. destruct f' as [|f']; [inversion Hf|].
      rewrite !length_app in Hf. simpl in Hf.
      rewrite (Hstep f' t); [|lia|reflexivity].
      simpl (44 =? 125). simpl (44 =? 44). cbv iota.
      rewrite (Hw4ext t). simpl (34 =? 34). cbv iota.
      apply H5ext. lia.
  - (* array_items *)
    intros s acc v r H. rewrite array_items_eq in H.
    destruct (Json.scan_once f s) as [[v1 s1]|] eqn:Hv; [|discriminate].
    destruct (IHs _ _ _ Hv) as (pv & Ev & Hvne & Hvg & _ & Hvext).
    destruct (Json.skip_ws s1) as [|c s2] eqn:Hw1; [discriminate|].
    destruct (skip_ws_cons _ _ _ Hw1) as (w1 & E1 & Hw1bt & Hw1ext & Hw1f).
    assert (Hstep : forall f' t, (List.length pv < f')%nat ->
              follow_ok [c] = true ->
              Json.array_items (S f') (s ++ t) acc
              = if c =? 93 then Some (VList (acc ++ [v1]), s2 ++ t)
                else if c =? 44
                     then Json.array_items f' (Json.skip_ws (s2 ++ t)) (acc ++ [v1])
                     else None).
    { intros f' t Hf Hc. rewrite array_items_eq.
      rewrite (Hvext f' t Hf (Hw1f Hc t)), (Hw1ext t). reflexivity. }
    destruct (c =? 93) eqn:D1.
    { injection H as <- <-. apply N.eqb_eq in D1. subst c.
      apply (items_ok_intro (pv ++ w1 ++ [93])).
      - rewrite Ev, E1 at 1. rewrite <- !app_assoc. reflexivity.
      - intros E. apply app_eq_nil in E as [E _]. contradiction.
      - apply guarded_app_nl; [exact Hvg|]. apply guarded_nobt.
        rewrite nobt_app, Hw1bt. reflexivity.
      - eexists. reflexivity.
      - intros f' t Hf. destruct f' as [|f']; [inversion Hf|].
        rewrite !length_app in Hf. simpl in Hf.
        rewrite (Hstep f' t); [reflexivity|lia|reflexivity]. }
    destruct (c =? 44) eqn:D2; [|discriminate].
    apply N.eqb_eq in D2. subst c.
    destruct (IHi _ _ _ _ H) as (p2 & E2 & H2ne & H2g & Hl & H2ext).
    destruct (skip_ws_split s2) as (w2 & Es2 & Hw2).
    assert (Hs2ne : Json.skip_ws s2 <> []).
    { rewrite E2. intros E. apply app_eq_nil in E as [E _]. contradiction. }
    apply (items_ok_intro (pv ++ (w1 ++ [44]) ++ w2 ++ p2)).
    + rewrite Ev, E1, Es2, E2 at 1. rewrite <- !app_assoc. reflexivity.
    + intros E. apply app_eq_nil in E as [E _]. contradiction.
    + apply guarded_app_nl; [exact Hvg|].
      apply guarded_app_nl; [apply guarded_nobt; rewrite nobt_app, Hw1bt; reflexivity|].
      apply guarded_app_nl; [apply guarded_nobt, ws_nobt, Hw2|exact H2g].
    + exact Hl.
    + intros f' t Hf. destruct f' as [|f']; [inversion Hf|].
      rewrite !length_app in Hf. simpl in Hf.
      rewrite (Hstep f' t); [|lia|reflexivity].
      simpl (44 =? 93). simpl (44 =? 44). cbv iota.
      rewrite (skip_ws_app _ _ Hs2ne).
      apply H2ext. lia.
Qed.

End DecoderFacts.
(* ===================================================================== *)
(** * Facts about the two substitutions *)
(* ===================================================================== *)

Section SubstitutionFacts.

Local Open Scope N_scope.

Lemma last_cons_any {A : Type} (c : A) (x : list A) (a : A) :
  last (c :: x) a = last x c.
Proof.
  revert c a. induction x as [|d x IH]; intros c a; [reflexivity|].
  change (last (c :: d :: x) a) with (last (d :: x) a).
  rewrite (IH d a), (IH d c). reflexivity.
Qed.

Lemma last_map_Some {A : Type} (x : list A) (d : option A) :
  x <> [] -> exists a, last (List.map Some x) d = Some a.
Proof.
  destruct x as [|c x _] using rev_ind; [congruence|]. intros _.
  exists c. rewrite map_app. apply last_last.
Qed.

Lemma count_space_run (w x : str) :
  forallb is_space w = true -> hd_not is_space x = true ->
  Re.count_space (w ++ x) = List.length w.
Proof.
  intros Hw Hx. induction w as [|c w IH].
  - destruct x as [|d x]; [reflexivity|]. simpl in Hx |- *.
    apply negb_true_iff in Hx. rewrite Hx. reflexivity.
  - simpl in Hw |- *. apply andb_true_iff in Hw as [-> Hw]. rewrite (IH Hw).
    reflexivity.
Qed.

Lemma sub_open_match (prev : option N) (c : N) (r : str) (n : nat) :
  (if Re.at_bol prev then Re.open_match (c :: r) else None) = Some n ->
  Re.sub_open prev 0 (c :: r) = Re.sub_open (Some c) (pred n) r.
Proof. intros H. cbn [Re.sub_open]. rewrite H. reflexivity. Qed.

Lemma sub_open_nomatch (prev : option N) (c : N) (r : str) :
  (if Re.at_bol prev then Re.open_match (c :: r) else None) = None ->
  Re.sub_open prev 0 (c :: r) = c :: Re.sub_open (Some c) 0 r.
Proof. intros H. cbn [Re.sub_open]. rewrite H. reflexivity. Qed.

(** Dropping the rest of a match. *)
Lemma sub_open_skip (x : str) : forall prev y,
  Re.sub_open prev (List.length x) (x ++ y)
  = Re.sub_open (last (List.map Some x) prev) 0 y.
Proof.
  induction x as [|c x IH]; intros prev y; [reflexivity|].
  cbn [List.length app Re.sub_open List.map]. rewrite IH, last_cons_any.
  reflexivity.
Qed.

Lemma open_match_not_bt (c : N) (r : str) :
  (c =? bt) = false -> Re.open_match (c :: r) = None.
Proof.
  intros H. unfold Re.open_match, Re.fence. cbn [startswith].
  rewrite N.eqb_sym, H. reflexivity.
Qed.

(** The first substitution leaves guarded text alone. *)
Lemma sub_open_guarded (x : str) : forall a y,
  guarded_from a x = true ->
  Re.sub_open (Some a) 0 (x ++ y) = x ++ Re.sub_open (Some (last x a)) 0 y.
Proof.
  induction x as [|c x IH]; intros a y H; [reflexivity|].
  cbn [guarded_from] in H. apply andb_true_iff in H as [Hc Hx].
  rewrite <- app_comm_cons, sub_open_nomatch.
  - rewrite (IH c y Hx), last_cons_default. reflexivity.
  - cbn [Re.at_bol]. destruct (a =? nl) eqn:Ha; [|reflexivity].
    apply open_match_not_bt. destruct (c =? bt); [|reflexivity].
    discriminate.
Qed.

Lemma guarded_skipn (k : nat) : forall s a,
  guarded_from a s = true -> exists a', guarded_from a' (skipn k s) = true.
Proof.
  induction k as [|k IH]; intros s a H; [exists a; exact H|].
  destruct s as [|c s]; [exists a; reflexivity|].
  cbn [guarded_from] in H. apply andb_true_iff in H as [_ H].
  apply (IH s c H).
Qed.

Lemma startswith_fence (r : str) :
  startswith r Re.fence = true -> exists r', r = bt :: bt :: bt :: r'.
Proof. intros H. apply (startswith_inv Re.fence r H). Qed.

Lemma guarded_fence (a : N) (r' : str) :
  guarded_from a (bt :: bt :: bt :: r') = true ->
  exists d r'', r' = d :: r'' /\ (d =? nl) = false.
Proof.
  cbn [guarded_from]. simpl (bt =? bt). cbv iota. intros H.
  repeat (apply andb_true_iff in H as [? H]).
  destruct r' as [|d r'']; [discriminate|].
  exists d, r''. split; [reflexivity|]. apply negb_true_iff. assumption.
Qed.

Lemma close_match_guarded (a : N) (s : str) :
  guarded_from a s = true -> Re.close_match s = None.
Proof.
  intros H. unfold Re.close_match.
  destruct (startswith (skipn (Re.count_space s) s) Re.fence) eqn:Hf;
    [|reflexivity].
  destruct (startswith_fence _ Hf) as (r' & Er).
  destruct (guarded_skipn (Re.count_space s) s a H) as (a' & Hg).
  rewrite Er in Hg |- *. destruct (guarded_fence _ _ Hg) as (d & r'' & -> & Hd).
  cbn [skipn]. rewrite Hd. reflexivity.
Qed.

(** The second substitution leaves guarded text alone. *)
Lemma sub_close_guarded (x : str) : forall a,
  guarded_from a x = true -> Re.sub_close 0 x = x.
Proof.
  induction x as [|c x IH]; intros a H; [reflexivity|].
  cbn [Re.sub_close]. rewrite (close_match_guarded a _ H).
  cbn [guarded_from] in H. apply andb_true_iff in H as [_ H].
  rewrite (IH c H). reflexivity.
Qed.

Lemma strip_chars_id (p : N -> bool) (c e : N) (x : str) :
  p c = false -> p e = false ->
  strip_chars p (c :: x ++ [e]) = c :: x ++ [e].
Proof.
  intros Hc He. unfold strip_chars, rstrip. cbn [lstrip]. rewrite Hc.
  change (c :: x ++ [e]) with ((c :: x) ++ [e]).
  rewrite rev_app_distr. cbn [rev app lstrip]. rewrite He.
  cbn [rev]. rewrite rev_app_distr, rev_involutive. reflexivity.
Qed.

Lemma open_match_json (x : str) :
  Re.open_match (py "```json" ++ x) = Some (7 + Re.count_space x)%nat.
Proof. destruct x; reflexivity. Qed.


Lemma ws_is_space (w : str) :
  forallb Json.is_ws w = true -> forallb is_space w = true.
Proof.
  induction w as [|c w IH]; [reflexivity|]. simpl. intros H.
  apply andb_true_iff in H as [Hc Hw].
  destruct (is_ws_facts c Hc) as (-> & _). apply IH, Hw.
Qed.

Lemma ws_follow_ok (r t : str) :
  forallb Json.is_ws r = true -> follow_ok t = true -> follow_ok (r ++ t) = true.
Proof.
  intros Hr Ht. destruct r as [|c r]; [exact Ht|].
  simpl in Hr. apply andb_true_iff in Hr as [Hc _].
  destruct (is_ws_facts c Hc) as (_ & _ & Hf). exact Hf.
Qed.


End SubstitutionFacts.
(* ===================================================================== *)
(** * Facts about [find], [rfind] and slices *)
(* ===================================================================== *)

Section FindFacts.

Local Open Scope Z_scope.

Lemma succ_index (n : nat) :
  match Z.of_nat n with
  | Zneg _ => -1
  | i => i + 1
  end = Z.of_nat (S n).
Proof. destruct (Z.of_nat n) eqn:E; lia. Qed.

Lemma find_none (ch : N) (s : str) : ~ In ch s -> find ch s = -1.
Proof.
  induction s as [|c s IH]; intros H; [reflexivity|].
  cbn [find]. destruct (N.eqb_spec c ch) as [->|Hc].
  - exfalso. apply H. left. reflexivity.
  - rewrite IH; [reflexivity|]. intros Hin. apply H. right. exact Hin.
Qed.

Lemma find_first (ch : N) (pre rest : str) :
  ~ In ch pre -> find ch (pre ++ ch :: rest) = Z.of_nat (List.length pre).
Proof.
  induction pre as [|c pre IH]; intros H.
  - cbn [app find]. rewrite N.eqb_refl. reflexivity.
  - cbn [app find]. destruct (N.eqb_spec c ch) as [->|Hc].
    + exfalso. apply H. left. reflexivity.
    + rewrite IH; [apply succ_index|]. intros Hin. apply H. right. exact Hin.
Qed.

Lemma rfind_none (ch : N) (s : str) : ~ In ch s -> rfind ch s = -1.
Proof.
  induction s as [|c s IH]; intros H; [reflexivity|].
  cbn [rfind]. rewrite IH by (intros Hin; apply H; right; exact Hin).
  destruct (N.eqb_spec c ch) as [->|Hc]; [|reflexivity].
  exfalso. apply H. left. reflexivity.
Qed.

Lemma rfind_last (ch : N) (pre post : str) :
  ~ In ch post -> rfind ch (pre ++ ch :: post) = Z.of_nat (List.length pre).
Proof.
  intros H. induction pre as [|c pre IH].
  - cbn [app rfind]. rewrite (rfind_none _ _ H), N.eqb_refl. reflexivity.
  - cbn [app rfind]. rewrite IH.
    change (List.length (c :: pre)) with (S (List.length pre)).
    rewrite Nat2Z.inj_succ.
    pose proof (Nat2Z.is_nonneg (List.length pre)) as Hnn.
    destruct (Z.of_nat (List.length pre)); lia.
Qed.

Lemma first_occurrence (ch : N) (s : str) :
  In ch s -> exists pre rest, s = pre ++ ch :: rest /\ ~ In ch pre.
Proof.
  induction s as [|c s IH]; intros H; [destruct H|].
  destruct (N.eq_dec c ch) as [->|Hc].
  - exists [], s. split; [reflexivity|]. intros [].
  - destruct H as [H|H]; [contradiction|].
    destruct (IH H) as (pre & rest & -> & Hpre).
    exists (c :: pre), rest. split; [reflexivity|].
    intros [E|E]; [contradiction|]. apply Hpre, E.
Qed.

Lemma last_occurrence (ch : N) (s : str) :
  In ch s -> exists pre post, s = pre ++ ch :: post /\ ~ In ch post.
Proof.
  induction s as [|c s IH]; intros H; [destruct H|].
  destruct (in_dec N.eq_dec ch s) as [Hin|Hnin].
  - destruct (IH Hin) as (pre & post & -> & Hpost).
    exists (c :: pre), post. split; [reflexivity|exact Hpost].
  - destruct H as [->|H]; [|contradiction].
    exists [], s. split; [reflexivity|exact Hnin].
Qed.

Lemma skipn_length_app {A : Type} (x y : list A) :
  skipn (List.length x) (x ++ y) = y.
Proof. induction x; simpl; auto. Qed.

Lemma firstn_length_app {A : Type} (x y : list A) :
  firstn (List.length x) (x ++ y) = x.
Proof. induction x; simpl; [reflexivity|]. f_equal. assumption. Qed.

(** [s[i:j]] for in-range bounds. *)
Lemma slice_middle (pre x post : str) :
  slice (pre ++ x ++ post) (Z.of_nat (List.length pre))
        (Z.of_nat (List.length pre) + Z.of_nat (List.length x)) = x.
Proof.
  unfold slice, slice_bound. rewrite !length_app.
  destruct (Z.ltb_spec (Z.of_nat (List.length pre)) 0) as [H|_]; [lia|].
  destruct (Z.ltb_spec (Z.of_nat (List.length pre) + Z.of_nat (List.length x)) 0)
    as [H|_]; [lia|].
  rewrite !Z.min_l by lia.
  replace (Z.of_nat (List.length pre) + Z.of_nat (List.length x)
           - Z.of_nat (List.length pre)) with (Z.of_nat (List.length x)) by lia.
  rewrite !Nat2Z.id, skipn_length_app. apply firstn_length_app.
Qed.

(** The candidate of [extract_with_prompt] when the first opening brace
    precedes the last closing brace. *)
Lemma json_candidate_braces (pre mid post : str) :
  ~ In lbrace pre -> ~ In rbrace post ->
  ExtractThinker.json_candidate (pre ++ lbrace :: mid ++ rbrace :: post)
  = lbrace :: mid ++ [rbrace].
Proof.
  intros Hpre Hpost. unfold ExtractThinker.json_candidate.
  rewrite (find_first _ _ _ Hpre).
  replace (pre ++ lbrace :: mid ++ rbrace :: post)
    with ((pre ++ lbrace :: mid) ++ rbrace :: post)
    by (rewrite <- app_assoc; reflexivity).
  rewrite (rfind_last _ _ _ Hpost), length_app. cbn [List.length].
  destruct (Z.eqb_spec (Z.of_nat (List.length pre)) (-1)) as [E|_]; [lia|].
  destruct (Z.gtb_spec (Z.of_nat (List.length pre + S (List.length mid)) + 1)
                       (Z.of_nat (List.length pre))) as [_|E]; [|lia].
  cbn [negb andb].
  replace ((pre ++ lbrace :: mid) ++ rbrace :: post)
    with (pre ++ (lbrace :: mid ++ [rbrace]) ++ post)
    by (rewrite <- !app_assoc; cbn [app]; rewrite <- app_assoc; reflexivity).
  replace (Z.of_nat (List.length pre + S (List.length mid)) + 1)
    with (Z.of_nat (List.length pre)
          + Z.of_nat (List.length (lbrace :: mid ++ [rbrace]))).
  - apply slice_middle.
  - cbn [List.length]. rewrite length_app. cbn [List.length]. lia.
Qed.

(** Without such a pair the whole trimmed response is the candidate. *)
Lemma json_candidate_whole (response : str) :
  (forall pre mid post, response <> pre ++ lbrace :: mid ++ rbrace :: post) ->
  ExtractThinker.json_candidate response = strip response.
Proof.
  intros Hno. unfold ExtractThinker.json_candidate.
  destruct (in_dec N.eq_dec lbrace response) as [Hl|Hl].
  2:{ rewrite (find_none _ _ Hl). reflexivity. }
  destruct (first_occurrence _ _ Hl) as (pre & rest & E & Hpre).
  destruct (in_dec N.eq_dec rbrace rest) as [Hr|Hr].
  { exfalso. destruct (in_split _ _ Hr) as (mid & post & ->).
    apply (Hno pre mid post). exact E. }
  rewrite E, (find_first _ _ _ Hpre).
  assert (Hle : rfind rbrace (pre ++ lbrace :: rest)
                < Z.of_nat (List.length pre)).
  { destruct (in_dec N.eq_dec rbrace pre) as [Hp|Hp].
    - destruct (last_occurrence _ _ Hp) as (a & b & -> & Hb).
      rewrite <- app_assoc. cbn [app]. rewrite rfind_last.
      + rewrite length_app. cbn [List.length]. lia.
      + intros Hin. apply in_app_iff in Hin as [Hin|[Hin|Hin]];
          [contradiction|discriminate|contradiction].
    - rewrite rfind_none; [lia|].
      intros Hin. apply in_app_iff in Hin as [Hin|[Hin|Hin]];
        [contradiction|discriminate|contradiction]. }
  destruct (Z.gtb_spec (rfind rbrace (pre ++ lbrace :: rest) + 1)
                       (Z.of_nat (List.length pre))) as [H|_]; [lia|].
  rewrite andb_false_r. reflexivity.
Qed.

Lemma json_candidate_no_brace (response : str) :
  ~ In lbrace response \/ ~ In rbrace response ->
  ExtractThinker.json_candidate response = strip response.
Proof.
  intros H. apply json_candidate_whole. intros pre mid post ->.
  destruct H as [H|H]; apply H; rewrite in_app_iff.
  - right. left. reflexivity.
  - right. right. rewrite in_app_iff. right. left. reflexivity.
Qed.

End FindFacts.
(* ===================================================================== *)
(** * The Response Parser *)
(* ===================================================================== *)

Section ParserClaims.

Lemma parse_response_eq (response : str) (w : world) :
  ExtractThinker.parse_response response w
  = (Ret match Json.loads (ExtractThinker.json_candidate response) with
         | Some v => v
         | None => ExtractThinker.could_not_parse response
         end, w).
Proof.
  unfold ExtractThinker.parse_response, try_, json_loads.
  destruct (Json.loads (ExtractThinker.json_candidate response)); reflexivity.
Qed.

Lemma extract_json_from_response_eq (response : str) (w : world) :
  Parse.extract_json_from_response response w
  = match Json.loads (Parse.cleaned response) with
    | Some v => (Ret v, w)
    | None => (Ret VNone,
               {| clock := clock w;
                  trace := trace w ++ [Print JSONDecodeErrorLine] |})
    end.
Proof.
  unfold Parse.extract_json_from_response, try_, json_loads.
  destruct (Json.loads (Parse.cleaned response)); reflexivity.
Qed.

End ParserClaims.

(** C1, as the specification states it, fails on every routine it is drawn
    from. The parser of section 4.2 recovers [{a: 1}] from a sentence with an
    embedded object and [[1]] from a fenced block holding a JSON list; on the
    sentence [extract_json_from_response] returns [None], since it never looks
    for braces, and on the fenced block both [extract_with_prompt] routines
    return their failure mapping, since neither strips the fence. *)
Lemma response_parser_selection_counterexample :
  Spec.response_parser prose_sample = Spec.Parsed (VDict [(py "a", VInt 1)])
  /\ fst (Parse.extract_json_from_response prose_sample w0) = Ret VNone
  /\ Spec.response_parser fenced_list_sample = Spec.Parsed (VList [VInt 1])
  /\ fst (ExtractThinker.parse_response fenced_list_sample w0)
     = Ret (ExtractThinker.could_not_parse fenced_list_sample)
  /\ fst (LocalLlama.parse_response fenced_list_sample w0)
     = Ret (VDict [(py "raw_response", VStr fenced_list_sample)]).
Proof. vm_compute. repeat split. Qed.

(** C1 (amended): [extract_with_prompt] of [extract_thinker.py] selects its
    JSON candidate in the response as received, without stripping fences:
    when the response has an opening brace followed later by a closing brace,
    the candidate is the text from the first opening brace to the last
    closing brace, both included; when it has no such pair, the candidate is
    the whole response with surrounding whitespace removed; and whenever the
    candidate parses, the parsed value is what is returned. *)
Theorem extract_with_prompt_candidate (response : str) (w : world) :
  (forall pre mid post v,
     response = pre ++ lbrace :: mid ++ rbrace :: post ->
     ~ In lbrace pre -> ~ In rbrace post ->
     Json.loads (lbrace :: mid ++ [rbrace]) = Some v ->
     ExtractThinker.parse_response response w = (Ret v, w))
  /\ (forall v,
        (forall pre mid post,
           response <> pre ++ lbrace :: mid ++ rbrace :: post) ->
        Json.loads (strip response) = Some v ->
        ExtractThinker.parse_response response w = (Ret v, w)).
Proof.
  split.
  - intros pre mid post v -> Hpre Hpost Hv.
    rewrite parse_response_eq, (json_candidate_braces _ _ _ Hpre Hpost), Hv.
    reflexivity.
  - intros v Hno Hv.
    rewrite parse_response_eq, (json_candidate_whole _ Hno), Hv. reflexivity.
Qed.

Lemma extract_with_prompt_candidate_witness :
  ExtractThinker.parse_response prose_sample w0
  = (Ret (VDict [(py "a", VInt 1)]), w0).
Proof.
  apply (proj1 (extract_with_prompt_candidate prose_sample w0)
               (py "Sure! Here is the result: ") (jsn "'a':1")
               (py " Hope that helps.")).
  - reflexivity.
  - vm_compute. intuition discriminate.
  - vm_compute. intuition discriminate.
  - vm_compute. reflexivity.
Defined.







(* ===================================================================== *)
(** * Facts about the inference client *)
(* ===================================================================== *)

Section ClientFacts.

Variable E : env.

Lemma count_events_snoc (p : event -> bool) (t : list event) (ev : event) :
  count_events p (t ++ [ev]) = (count_events p t + if p ev then 1 else 0)%nat.
Proof.
  unfold count_events. rewrite filter_app, length_app. cbn [filter].
  destruct (p ev); reflexivity.
Qed.

Lemma count_events_app (p : event -> bool) (t l : list event) :
  count_events p (t ++ l) = (count_events p t + count_events p l)%nat.
Proof. unfold count_events. rewrite filter_app, length_app. reflexivity. Qed.

Lemma count_events_logs (p : event -> bool) (l : list event) :
  (forall lvl msg, p (Log lvl msg) = false) ->
  forallb is_Log l = true -> count_events p l = 0%nat.
Proof.
  intros Hp. induction l as [|ev l IH]; [reflexivity|].
  cbn [forallb]. intros H. apply andb_true_iff in H as [Hev Hl].
  destruct ev; try discriminate. unfold count_events in *. cbn [filter].
  rewrite Hp. apply IH, Hl.
Qed.

Lemma read_body_cases (text : str) (w : world) :
  match generated_text_of text with
  | Some v => read_body text w = (Ret v, w)
  | None =>
      read_body text w = (Raise JSONDecodeError, w)
      \/ read_body text w = (Raise AttributeError, w)
      \/ exists result,
           read_body text w
           = (Ret VNone, add w (Log ERROR (UnexpectedResponseFormat result)))
  end.
Proof.
  unfold generated_text_of, read_body, bind, json_loads.
  destruct (Json.loads text) as [result|]; [|left; reflexivity].
  destruct result as [| | | | |items|d]; cbn;
    try (right; right; eexists; reflexivity).
  - destruct items as [|first items]; cbn;
      [right; right; eexists; reflexivity|].
    destruct first; cbn; try (right; left; reflexivity). reflexivity.
  - reflexivity.
Qed.

(** Reading a body never raises [ClientError] and always ends. *)
Lemma read_body_outcome (text : str) (w : world) :
  exists r w', read_body text w = (r, w')
    /\ (forall e, r = Raise e -> is_ClientError e = false /\ is_Exception e = true)
    /\ r <> Diverge
    /\ clock w' = clock w
    /\ (exists l, trace w' = trace w ++ l /\ forallb is_Log l = true)
    /\ (r = Ret match generated_text_of text with
                | Some v => v
                | None => VNone
                end
        \/ exists e, r = Raise e /\ generated_text_of text = None).
Proof.
  pose proof (read_body_cases text w) as H.
  destruct (generated_text_of text) as [v|].
  - rewrite H. exists (Ret v), w. repeat split; try discriminate.
    + exists []. rewrite app_nil_r. split; reflexivity.
    + left. reflexivity.
  - destruct H as [H|[H|(result & H)]]; rewrite H.
    + exists (Raise JSONDecodeError), w. repeat split; try discriminate.
      * injection H0 as <-. reflexivity.
      * injection H0 as <-. reflexivity.
      * exists []. rewrite app_nil_r. split; reflexivity.
      * right. eexists. split; reflexivity.
    + exists (Raise AttributeError), w. repeat split; try discriminate.
      * injection H0 as <-. reflexivity.
      * injection H0 as <-. reflexivity.
      * exists []. rewrite app_nil_r. split; reflexivity.
      * right. eexists. split; reflexivity.
    + eexists _, _. repeat split; try discriminate.
      * eexists. split; reflexivity.
      * left. reflexivity.
Qed.

Lemma poll_loop_S (fuel : nat) (bucket key : str) (start : Q) (T : Z)
    (w : world) :
  LLMInference.poll_loop E (S fuel) bucket key start T w
  = if LLMInference.Qltb (clock w - start) (inject_Z T) then
      let w1 := tick w (s3_latency E (polls w)) (GetObject bucket key) in
      match s3_reply E (polls w) with
      | Returns text => read_body text w1
      | Raises e =>
          if is_not_found e
          then LLMInference.poll_loop E fuel bucket key start T
                 (after_retry E bucket key w)
          else match e with
               | ClientError None => (Raise KeyError, w1)
               | ClientError (Some _) =>
                   (Ret VNone, add w1 (Log ERROR (S3Error e)))
               | _ => (Raise e, w1)
               end
      end
    else (Ret VNone, add w (Log ERROR (TimeoutWaiting T))).
Proof.
  cbn [LLMInference.poll_loop]. unfold bind at 1. unfold time at 1.
  destruct (LLMInference.Qltb (clock w - start) (inject_Z T)); [|reflexivity].
  unfold try_, bind at 1, LLMInference.get_object, LLMInference.timed,
    LLMInference.answer.
  fold (polls w). cbv zeta.
  destruct (s3_reply E (polls w)) as [e|text].
  - unfold raise at 1. cbv beta iota.
    destruct e as [[c|]| | | | | |]; try reflexivity.
    unfold is_not_found. destruct (str_eqb c (py "NoSuchKey")); reflexivity.
  - unfold ret at 1. cbv beta iota. fold (read_body text).
    destruct (read_body_outcome text
                (tick w (s3_latency E (polls w)) (GetObject bucket key)))
      as (r & w' & -> & Hr & _).
    destruct r as [v|e|]; try reflexivity.
    destruct (Hr e eq_refl) as [Hc _]. destruct e; try reflexivity.
    discriminate.
Qed.

End ClientFacts.
Section LoopFacts.

Variable E : env.

Lemma Qltb_true (a b : Q) : LLMInference.Qltb a b = true -> a < b.
Proof.
  unfold LLMInference.Qltb. intros H. apply negb_true_iff in H.
  apply Qnot_le_lt. intros Hle. apply Qle_bool_iff in Hle. congruence.
Qed.

Lemma Qltb_false (a b : Q) : LLMInference.Qltb a b = false -> b <= a.
Proof.
  unfold LLMInference.Qltb. intros H. apply negb_false_iff in H.
  apply Qle_bool_iff, H.
Qed.

Lemma inject_nat_succ (m : nat) :
  inject_Z (Z.of_nat (S m)) == inject_Z (Z.of_nat m) + 1.
Proof.
  rewrite Nat2Z.inj_succ. unfold Z.succ. rewrite inject_Z_plus. reflexivity.
Qed.

Ltac counts :=
  unfold polls, sleeps, async_calls, sync_calls, after_retry, add, tick in *;
  cbn [trace clock] in *; rewrite ?count_events_snoc in *;
  cbn [is_GetObject is_Sleep is_InvokeEndpointAsync is_InvokeEndpoint] in *;
  try lia.

Lemma is_not_found_not_found : is_not_found not_found = true.
Proof. reflexivity. Qed.

(** A run of the polling loop that starts with at most [5 * m] seconds
    left and more than [m] units of fuel. *)
Lemma poll_loop_run (bucket key : str) (start : Q) (T : Z) :
  env_ok E ->
  forall m fuel w,
    (m < fuel)%nat ->
    inject_Z T - (clock w - start) <= 5 * inject_Z (Z.of_nat m) ->
    exists r w',
      LLMInference.poll_loop E fuel bucket key start T w = (r, w')
      /\ r <> Diverge
      /\ (polls w' <= polls w + m)%nat
      /\ (sleeps w' <= sleeps w + m)%nat
      /\ clock w <= clock w'
      /\ async_calls w' = async_calls w
      /\ sync_calls w' = sync_calls w
      /\ (never_appears E ->
          r = Ret VNone /\ inject_Z T <= clock w' - start
          /\ exists l, trace w' = trace w ++ l ++ [Log ERROR (TimeoutWaiting T)]).
Proof.
  intros Hok.
  assert (Hexit : forall w m,
            LLMInference.Qltb (clock w - start) (inject_Z T) = false ->
            let r := @Ret value VNone in
            let w' := add w (Log ERROR (TimeoutWaiting T)) in
            r <> Diverge
            /\ (polls w' <= polls w + m)%nat
            /\ (sleeps w' <= sleeps w + m)%nat
            /\ clock w <= clock w'
            /\ async_calls w' = async_calls w
            /\ sync_calls w' = sync_calls w
            /\ (never_appears E ->
                r = Ret VNone /\ inject_Z T <= clock w' - start
                /\ exists l, trace w' = trace w ++ l ++ [Log ERROR (TimeoutWaiting T)])).
  { intros w m Hq. apply Qltb_false in Hq. cbv zeta.
    repeat split; try discriminate; counts.
    - apply Qle_refl.
    - exact Hq.
    - exists []. reflexivity. }
  induction m as [|m IH]; intros fuel w Hfuel Hleft;
    (destruct fuel as [|fuel]; [lia|]); rewrite poll_loop_S;
    destruct (LLMInference.Qltb (clock w - start) (inject_Z T)) eqn:Hq;
    try (eexists _, _; split; [reflexivity|apply Hexit, Hq]).
  { apply Qltb_true in Hq. exfalso. change (inject_Z (Z.of_nat 0)) with 0 in Hleft.
    lra. }
  apply Qltb_true in Hq. cbv zeta.
  destruct (Hok (polls w)) as [Hlat _].
  destruct (s3_reply E (polls w)) as [e|text] eqn:Hreply.
  - destruct (is_not_found e) eqn:Hnf.
    + assert (Hfuel' : (m < fuel)%nat) by lia.
      assert (Hover : 0 <= sleep_overrun E
                             (sleeps (tick w (s3_latency E (polls w))
                                           (GetObject bucket key)))).
      { apply Hok. }
      assert (Hleft' : inject_Z T - (clock (after_retry E bucket key w) - start)
                       <= 5 * inject_Z (Z.of_nat m)).
      { rewrite inject_nat_succ in Hleft. unfold after_retry.
        cbn [clock tick]. cbn [clock tick] in Hover. lra. }
      destruct (IH fuel _ Hfuel' Hleft')
        as (r & w' & Hrun & Hr & Hp & Hs & Hc & Ha & Hsy & Hnever).
      exists r, w'. split; [exact Hrun|]. split; [exact Hr|].
      split; [counts|]. split; [counts|].
      split; [|split; [counts|split; [counts|]]].
      * unfold after_retry in Hc. cbn [clock tick] in Hc, Hover. lra.
      * intros Hn. destruct (Hnever Hn) as (-> & HT & l & Hl).
        split; [reflexivity|]. split; [exact HT|].
        exists ([GetObject bucket key; Sleep 5] ++ l).
        rewrite Hl. unfold after_retry, tick. cbn [trace].
        rewrite <- !app_assoc. reflexivity.
    + assert (Hnot : never_appears E -> False).
      { intros Hn. rewrite (Hn (polls w)) in Hreply. injection Hreply as <-.
        discriminate. }
      destruct e as [[c|]| | | | | |];
        (eexists _, _; split; [reflexivity|]);
        (repeat split; try discriminate; counts; try (intros; contradiction);
         try (cbn; lra)).
  - destruct (read_body_outcome text
                (tick w (s3_latency E (polls w)) (GetObject bucket key)))
      as (r & w' & Hrun & _ & Hr & Hc & (l & Hl & Hlogs) & _).
    exists r, w'. split; [exact Hrun|]. split; [exact Hr|].
    assert (Hcount : forall p, (forall lvl msg, p (Log lvl msg) = false) ->
              count_events p (trace w')
              = (count_events p (trace w)
                 + if p (GetObject bucket key) then 1 else 0)%nat).
    { intros p Hp. rewrite Hl. cbn [tick trace].
      rewrite count_events_app, count_events_snoc,
        (count_events_logs p l Hp Hlogs). lia. }
    unfold polls, sleeps, async_calls, sync_calls.
    rewrite !Hcount by reflexivity. cbn.
    repeat split; try lia.
    + rewrite Hc. cbn [clock tick]. lra.
    + exfalso. rewrite (H (polls w)) in Hreply. discriminate.
    + exfalso. rewrite (H (polls w)) in Hreply. discriminate.
    + exfalso. rewrite (H (polls w)) in Hreply. discriminate.
Qed.

End LoopFacts.
Section OutcomeFacts.

Variable E : env.

Lemma polls_tick_get (w : world) (dt : Q) (b k : str) :
  polls (tick w dt (GetObject b k)) = S (polls w).
Proof. unfold polls, tick. cbn [trace]. rewrite count_events_snoc. cbn. lia. Qed.

Lemma sleeps_tick_get (w : world) (dt : Q) (b k : str) :
  sleeps (tick w dt (GetObject b k)) = sleeps w.
Proof. unfold sleeps, tick. cbn [trace]. rewrite count_events_snoc. cbn. lia. Qed.

Lemma polls_after_retry (b k : str) (w : world) :
  polls (after_retry E b k w) = S (polls w).
Proof.
  unfold polls, after_retry, tick. cbn [trace].
  rewrite !count_events_snoc. cbn. lia.
Qed.

Lemma sleeps_after_retry (b k : str) (w : world) :
  sleeps (after_retry E b k w) = S (sleeps w).
Proof.
  unfold sleeps, after_retry, tick. cbn [trace].
  rewrite !count_events_snoc. cbn. lia.
Qed.

Lemma polls_add_log (w : world) (lvl : level) (msg : message) :
  polls (add w (Log lvl msg)) = polls w.
Proof. unfold polls, add. cbn [trace]. rewrite count_events_snoc. cbn. lia. Qed.

Lemma sleeps_add_log (w : world) (lvl : level) (msg : message) :
  sleeps (add w (Log lvl msg)) = sleeps w.
Proof. unfold sleeps, add. cbn [trace]. rewrite count_events_snoc. cbn. lia. Qed.

Ltac counts :=
  rewrite ?polls_after_retry, ?sleeps_after_retry, ?polls_add_log,
    ?sleeps_add_log, ?polls_tick_get, ?sleeps_tick_get in *;
  try lia.

(** The poll that meets a read error other than [NoSuchKey] is the last. *)
Lemma poll_loop_stops (bucket key : str) (start : Q) (T : Z) (n : nat)
    (e : exn) :
  s3_reply E n = Raises e -> is_not_found e = false ->
  forall fuel w r w',
    (polls w <= n)%nat ->
    LLMInference.poll_loop E fuel bucket key start T w = (r, w') ->
    (polls w' <= S n)%nat
    /\ (polls w' = S n ->
        r = after_error e /\ (sleeps w' + polls w = sleeps w + n)%nat).
Proof.
  intros Hn Hnf. induction fuel as [|fuel IH]; intros w r w' Hw Hrun.
  { injection Hrun as <- <-. split; lia. }
  rewrite poll_loop_S in Hrun.
  destruct (LLMInference.Qltb (clock w - start) (inject_Z T)).
  2:{ injection Hrun as <- <-. split; counts. }
  cbv zeta in Hrun.
  destruct (s3_reply E (polls w)) as [e0|text] eqn:Hreply.
  - destruct (is_not_found e0) eqn:Hnf0.
    + assert (Hlt : (polls w < n)%nat).
      { destruct (Nat.eq_dec (polls w) n) as [Heq|Hne]; [|lia].
        rewrite Heq, Hn in Hreply. injection Hreply as <-. congruence. }
      assert (Hw2 : (polls (after_retry E bucket key w) <= n)%nat) by counts.
      destruct (IH _ _ _ Hw2 Hrun) as [H1 H2].
      split; [exact H1|]. intros H. destruct (H2 H) as [-> Hs].
      split; [reflexivity|]. counts.
    + assert (Hw' : polls w' = S (polls w) /\ sleeps w' = sleeps w).
      { destruct e0 as [[c|]| | | | | |]; injection Hrun as <- <-;
          split; counts. }
      destruct Hw' as [Hp Hs]. split; [lia|]. intros H.
      assert (Heq : polls w = n) by lia.
      rewrite Heq, Hn in Hreply. injection Hreply as <-.
      split; [|lia].
      destruct e as [[c|]| | | | | |]; injection Hrun as <- _; reflexivity.
  - destruct (read_body_outcome text
                (tick w (s3_latency E (polls w)) (GetObject bucket key)))
      as (r0 & w0' & Hrun0 & _ & _ & _ & (l & Hl & Hlogs) & _).
    rewrite Hrun0 in Hrun. injection Hrun as <- <-.
    assert (Hp : polls w0' = S (polls w)).
    { unfold polls. rewrite Hl. cbn [tick trace].
      rewrite count_events_app, count_events_snoc,
        (count_events_logs _ l (fun _ _ => eq_refl) Hlogs). cbn. lia. }
    split; [lia|]. intros H. assert (Heq : polls w = n) by lia.
    rewrite Heq, Hn in Hreply. discriminate.
Qed.

(** Where the outcome of the loop comes from. *)
Lemma poll_loop_classify (bucket key : str) (start : Q) (T : Z) :
  forall fuel w r w',
    LLMInference.poll_loop E fuel bucket key start T w = (r, w') ->
    (forall e, r = Raise e ->
       e = KeyError \/ e = JSONDecodeError \/ e = AttributeError
       \/ exists n, s3_reply E n = Raises e)
    /\ (forall v, r = Ret v ->
          v = VNone
          \/ exists n text,
               s3_reply E n = Returns text /\ generated_text_of text = Some v).
Proof.
  induction fuel as [|fuel IH]; intros w r w' Hrun.
  { injection Hrun as <- <-. split; intros; discriminate. }
  rewrite poll_loop_S in Hrun.
  destruct (LLMInference.Qltb (clock w - start) (inject_Z T)).
  2:{ injection Hrun as <- <-. split; [intros; discriminate|].
      intros v Hv. injection Hv as <-. left. reflexivity. }
  cbv zeta in Hrun.
  destruct (s3_reply E (polls w)) as [e0|text] eqn:Hreply.
  - destruct (is_not_found e0); [apply (IH _ _ _ Hrun)|].
    destruct e0 as [[c|]| | | | | |]; injection Hrun as <- <-;
      (split; [intros e He; first [discriminate He|injection He as <-]
              |intros v Hv; first [discriminate Hv|injection Hv as <-]]);
      auto;
      right; right; right; exists (polls w); exact Hreply.
  - pose proof (read_body_cases text
                  (tick w (s3_latency E (polls w)) (GetObject bucket key))) as H.
    destruct (generated_text_of text) as [v0|] eqn:Hg.
    + rewrite H in Hrun. injection Hrun as <- <-.
      split; [intros; discriminate|]. intros v Hv. injection Hv as <-.
      right. exists (polls w), text. split; assumption.
    + destruct H as [H|[H|(result & H)]]; rewrite H in Hrun;
        injection Hrun as <- <-;
        (split; [intros e He; first [discriminate He|injection He as <-]
                |intros v Hv; first [discriminate Hv|injection Hv as <-]]);
        auto.
Qed.

(** The loop calls neither endpoint. *)
Lemma poll_loop_calls (bucket key : str) (start : Q) (T : Z) :
  forall fuel w r w',
    LLMInference.poll_loop E fuel bucket key start T w = (r, w') ->
    async_calls w' = async_calls w /\ sync_calls w' = sync_calls w.
Proof.
  assert (Hget : forall w dt,
            async_calls (tick w dt (GetObject bucket key)) = async_calls w
            /\ sync_calls (tick w dt (GetObject bucket key)) = sync_calls w).
  { intros w dt. unfold async_calls, sync_calls, tick. cbn [trace].
    rewrite !count_events_snoc. cbn. split; lia. }
  assert (Hlog : forall w lvl msg,
            async_calls (add w (Log lvl msg)) = async_calls w
            /\ sync_calls (add w (Log lvl msg)) = sync_calls w).
  { intros w lvl msg. unfold async_calls, sync_calls, add. cbn [trace].
    rewrite !count_events_snoc. cbn. split; lia. }
  induction fuel as [|fuel IH]; intros w r w' Hrun.
  { injection Hrun as <- <-. split; reflexivity. }
  rewrite poll_loop_S in Hrun.
  destruct (LLMInference.Qltb (clock w - start) (inject_Z T)).
  2:{ injection Hrun as <- <-. apply Hlog. }
  cbv zeta in Hrun.
  destruct (s3_reply E (polls w)) as [e0|text].
  - destruct (is_not_found e0).
    + destruct (IH _ _ _ Hrun) as [-> ->].
      unfold async_calls, sync_calls, after_retry, tick. cbn [trace].
      rewrite !count_events_snoc. cbn. split; lia.
    + destruct e0 as [[c|]| | | | | |]; injection Hrun as <- <-;
        rewrite ?(proj1 (Hlog _ _ _)), ?(proj2 (Hlog _ _ _)); apply Hget.
  - destruct (read_body_outcome text
                (tick w (s3_latency E (polls w)) (GetObject bucket key)))
      as (r0 & w0' & Hrun0 & _ & _ & _ & (l & Hl & Hlogs) & _).
    rewrite Hrun0 in Hrun. injection Hrun as <- <-.
    unfold async_calls, sync_calls. rewrite Hl.
    rewrite !count_events_app,
      !(count_events_logs _ l (fun _ _ => eq_refl) Hlogs).
    cbn [tick trace]. rewrite !count_events_snoc. cbn. split; lia.
Qed.

Lemma wait_for_async_result_eq (fuel : nat) (location : str) (T : Z)
    (w : world) :
  LLMInference.wait_for_async_result E fuel location T w
  = except_Exception ErrorWaiting
      (if negb (startswith location (py "s3://"))
       then (Ret VNone, add w (Log ERROR (InvalidS3Location location)))
       else match split1 47 (skipn 5 location) with
            | (bucket, Some key) =>
                LLMInference.poll_loop E fuel bucket key (clock w) T w
            | (_, None) => (Raise ValueError, w)
            end).
Proof.
  unfold LLMInference.wait_for_async_result, try_, except_Exception.
  destruct (negb (startswith location (py "s3://"))); [reflexivity|].
  destruct (split1 47 (skipn 5 location)) as [bucket [key|]]; [|reflexivity].
  unfold bind at 1, time at 1.
  destruct (LLMInference.poll_loop E fuel bucket key (clock w) T w)
    as [[v|e|] w']; try reflexivity.
  destruct (is_Exception e); reflexivity.
Qed.

Lemma split1_slash (bucket key : str) :
  exists b k, split1 47 (bucket ++ [47%N] ++ key) = (b, Some k).
Proof.
  induction bucket as [|c bucket (b & k & IH)].
  - exists [], key. reflexivity.
  - cbn [app split1]. destruct (c =? 47)%N.
    + eexists _, _. reflexivity.
    + cbn [app] in IH. rewrite IH. eexists _, _. reflexivity.
Qed.

(** Waiting on a location of the form [s3://bucket/key] is the polling
    loop under the outer handler. *)
Lemma wait_for_s3_location (fuel : nat) (bucket key : str) (T : Z) (w : world) :
  exists b k,
    LLMInference.wait_for_async_result E fuel (s3_location bucket key) T w
    = except_Exception ErrorWaiting
        (LLMInference.poll_loop E fuel b k (clock w) T w).
Proof.
  destruct (split1_slash bucket key) as (b & k & Hs). exists b, k.
  rewrite wait_for_async_result_eq. unfold s3_location.
  change (skipn 5 (py "s3://" ++ bucket ++ [47%N] ++ key))
    with (bucket ++ [47%N] ++ key).
  rewrite Hs, (startswith_app (py "s3://")). reflexivity.
Qed.

Lemma invoke_sync_endpoint_eq (body : payload) (w : world) :
  exists l,
    forallb is_Log l = true
    /\ LLMInference.invoke_sync_endpoint E body w
       = (match sync_reply E (sync_calls w) with
          | Raises e => if is_Exception e then Ret VNone else Raise e
          | Returns text =>
              Ret match generated_text_of text with
                  | Some v => v
                  | None => VNone
                  end
          end,
          {| clock := clock w;
             trace := (trace w ++ [InvokeEndpoint body]) ++ l |}).
Proof.
  unfold LLMInference.invoke_sync_endpoint, try_, bind at 1,
    LLMInference.invoke_endpoint, LLMInference.call, LLMInference.answer.
  fold (sync_calls w).
  destruct (sync_reply E (sync_calls w)) as [e|text].
  - unfold raise at 1. cbv beta iota.
    destruct e; cbn;
      first [eexists; split; [|reflexivity]; reflexivity
            |exists []; rewrite app_nil_r; split; reflexivity].
  - unfold ret at 1. cbv beta iota. fold (read_body text).
    pose proof (read_body_cases text (add w (InvokeEndpoint body))) as H.
    destruct (generated_text_of text) as [v|].
    + rewrite H. exists []. rewrite app_nil_r. split; reflexivity.
    + destruct H as [H|[H|(result & H)]]; rewrite H; cbn;
        eexists; (split; [|reflexivity]); reflexivity.
Qed.

Lemma invoke_async_endpoint_eq (body : payload) (w : world) :
  exists l,
    forallb is_Log l = true
    /\ LLMInference.invoke_async_endpoint E body w
       = (match async_reply E (async_calls w) with
          | Raises e => if is_Exception e then Ret VNone else Raise e
          | Returns (Some location) => Ret (VStr location)
          | Returns None => Ret VNone
          end,
          {| clock := clock w;
             trace := (trace w ++ [InvokeEndpointAsync body]) ++ l |}).
Proof.
  unfold LLMInference.invoke_async_endpoint, try_, bind at 1,
    LLMInference.invoke_endpoint_async, LLMInference.call, LLMInference.answer.
  fold (async_calls w).
  destruct (async_reply E (async_calls w)) as [e|[location|]].
  - unfold raise at 1. cbv beta iota.
    destruct e; cbn;
      first [eexists; split; [|reflexivity]; reflexivity
            |exists []; rewrite app_nil_r; split; reflexivity].
  - exists []. rewrite app_nil_r. split; reflexivity.
  - exists []. rewrite app_nil_r. split; reflexivity.
Qed.

End OutcomeFacts.
Section HandlerFacts.

Variable E : env.

Lemma ceil_div5_bound (T : Z) :
  inject_Z T <= 5 * inject_Z (Z.of_nat (Z.to_nat (ceil_div5 T))).
Proof.
  change 5 with (inject_Z 5). rewrite <- inject_Z_mult, <- Zle_Qle.
  unfold ceil_div5. destruct (Z.le_gt_cases T 0) as [H|H]; [lia|].
  rewrite Z2Nat.id by (apply Z.div_pos; lia).
  pose proof (Z.mul_div_le (T + 4) 5 ltac:(lia)) as H1.
  pose proof (Z.mod_pos_bound (T + 4) 5 ltac:(lia)) as H2.
  pose proof (Z.div_mod (T + 4) 5 ltac:(lia)) as H3. lia.
Qed.

Lemma counts_add_log (p : event -> bool) (w : world) (lvl : level)
    (msg : message) :
  p (Log lvl msg) = false ->
  count_events p (trace (add w (Log lvl msg))) = count_events p (trace w).
Proof.
  intros H. unfold add. cbn [trace]. rewrite count_events_snoc, H. lia.
Qed.

(** The outer handler turns the exceptions of the [Exception] hierarchy
    into [None] and adds nothing but a log entry. *)
Lemma except_Exception_spec (msg : exn -> message) (r : outcome value)
    (w' : world) :
  exists r2 l,
    except_Exception msg (r, w')
    = (r2, {| clock := clock w'; trace := trace w' ++ l |})
    /\ forallb is_Log l = true
    /\ (forall v, r = Ret v -> r2 = Ret v /\ l = [])
    /\ (r = Diverge -> r2 = Diverge)
    /\ (forall e, r = Raise e ->
          r2 = if is_Exception e then Ret VNone else Raise e).
Proof.
  destruct w' as [c t]. destruct r as [v|e|]; cbn.
  - exists (Ret v), []. rewrite app_nil_r. repeat split; try discriminate.
    + injection H as <-. reflexivity.
  - destruct (is_Exception e) eqn:He.
    + eexists _, _. split; [reflexivity|]. repeat split; try discriminate.
      intros e' He'. injection He' as <-. rewrite He. reflexivity.
    + exists (Raise e), []. rewrite app_nil_r. repeat split; try discriminate.
      intros e' He'. injection He' as <-. rewrite He. reflexivity.
  - exists Diverge, []. rewrite app_nil_r. repeat split; discriminate.
Qed.

Lemma count_events_log_suffix (p : event -> bool) (t l : list event) :
  (forall lvl msg, p (Log lvl msg) = false) ->
  forallb is_Log l = true -> count_events p (t ++ l) = count_events p t.
Proof.
  intros Hp Hl. rewrite count_events_app, (count_events_logs p l Hp Hl). lia.
Qed.

End HandlerFacts.

(** C10: for every output location that does not begin with [s3://],
    [wait_for_async_result] returns [None] at once: it logs the invalid
    location and performs no poll and no sleep. *)
Theorem invalid_location_returns_at_once (E : env) (fuel : nat)
    (output_location : str) (max_wait_time : Z) (w : world) :
  startswith output_location (py "s3://") = false ->
  LLMInference.wait_for_async_result E fuel output_location max_wait_time w
  = (Ret VNone, add w (Log ERROR (InvalidS3Location output_location)))
  /\ polls (add w (Log ERROR (InvalidS3Location output_location))) = polls w
  /\ sleeps (add w (Log ERROR (InvalidS3Location output_location))) = sleeps w.
Proof.
  intros H. rewrite wait_for_async_result_eq, H. cbn [negb except_Exception].
  split; [reflexivity|].
  split; apply counts_add_log; reflexivity.
Qed.

Lemma invalid_location_returns_at_once_witness :
  LLMInference.wait_for_async_result env_never 3 (py "http://bucket/key") 300 w0
  = (Ret VNone, add w0 (Log ERROR (InvalidS3Location (py "http://bucket/key")))).
Proof.
  apply (invalid_location_returns_at_once env_never 3 (py "http://bucket/key")
           300 w0).
  reflexivity.
Defined.


(** C3, as the specification states it, fails: when the object never
    appears and when the first read is denied, the caller gets the same
    result, [None]. *)
Lemma timeout_result_counterexample :
  never_appears env_never
  /\ fst (LLMInference.wait_for_async_result env_never 10
            (s3_location (py "bucket") (py "key")) 12 w0) = Ret VNone
  /\ s3_reply env_denied 0 = Raises (ClientError (Some (py "AccessDenied")))
  /\ fst (LLMInference.wait_for_async_result env_denied 10
            (s3_location (py "bucket") (py "key")) 12 w0) = Ret VNone.
Proof.
  split; [intros n; reflexivity|]. vm_compute. repeat split.
Qed.

(** C3 (amended): when the remote object never appears within the timeout,
    [wait_for_async_result] logs the timeout and returns [None], the value it
    returns for every other failure; and a read that fails with anything but
    [NoSuchKey] is the last one: no poll follows it, no sleep follows it, and
    the result is [None]. *)
Theorem await_failure_results (E : env) (bucket key : str) (T : Z)
    (fuel : nat) (w : world) :
  (env_ok E -> never_appears E -> (Z.to_nat (ceil_div5 T) < fuel)%nat ->
   exists w',
     LLMInference.wait_for_async_result E fuel (s3_location bucket key) T w
     = (Ret VNone, w')
     /\ exists l, trace w' = trace w ++ l ++ [Log ERROR (TimeoutWaiting T)])
  /\ (forall n e r w',
        (polls w <= n)%nat -> s3_reply E n = Raises e ->
        is_not_found e = false -> is_Exception e = true ->
        LLMInference.wait_for_async_result E fuel (s3_location bucket key) T w
        = (r, w') ->
        (polls w' <= S n)%nat
        /\ (polls w' = S n ->
            r = Ret VNone /\ (sleeps w' + polls w = sleeps w + n)%nat)).
Proof.
  split.
  - intros Hok Hnever Hfuel.
    destruct (wait_for_s3_location E fuel bucket key T w) as (b & k & ->).
    destruct (poll_loop_run E b k (clock w) T Hok (Z.to_nat (ceil_div5 T))
                fuel w Hfuel)
      as (r & w' & Hrun & _ & _ & _ & _ & _ & _ & Hn).
    { pose proof (ceil_div5_bound T). lra. }
    destruct (Hn Hnever) as (-> & _ & Hl).
    exists w'. rewrite Hrun. split; [reflexivity|exact Hl].
  - intros n e r w' Hw Hreply Hnf Hexc.
    destruct (wait_for_s3_location E fuel bucket key T w) as (b & k & ->).
    destruct (LLMInference.poll_loop E fuel b k (clock w) T w)
      as [r0 w0'] eqn:Hrun.
    destruct (poll_loop_stops E b k (clock w) T n e Hreply Hnf fuel w r0 w0'
                Hw Hrun) as [Hle Hlast].
    destruct (except_Exception_spec ErrorWaiting r0 w0')
      as (r2 & l & -> & Hlogs & Hret & _ & Hraise).
    intros Heq. injection Heq as <- <-.
    unfold polls, sleeps in *. cbn [trace].
    rewrite !count_events_log_suffix by (assumption || reflexivity).
    split; [exact Hle|]. intros Hp. destruct (Hlast Hp) as [-> Hs].
    split; [|exact Hs].
    destruct e as [[c|]| | | | | |]; cbn [after_error] in *;
      first [apply (Hret VNone eq_refl)
            |rewrite (Hraise _ eq_refl); reflexivity
            |discriminate].
Qed.

Lemma await_failure_results_witness :
  (polls (snd (LLMInference.wait_for_async_result env_denied 10
                 (s3_location (py "bucket") (py "key")) 12 w0)) <= 1)%nat.
Proof.
  destruct (LLMInference.wait_for_async_result env_denied 10
              (s3_location (py "bucket") (py "key")) 12 w0) as [r w'] eqn:Hrun.
  apply (proj2 (await_failure_results env_denied (py "bucket") (py "key") 12
                  10 w0) 0%nat
               (ClientError (Some (py "AccessDenied"))) r w').
  - vm_compute. lia.
  - reflexivity.
  - reflexivity.
  - reflexivity.
  - exact Hrun.
Defined.

(** C5, as the specification states it, fails: a sequence of two objects
    and an object without [generated_text] are not reported as errors; the
    first yields the text of its first element and the second the empty
    string. *)
Lemma sync_envelope_counterexample :
  fst (LLMInference.invoke_sync_endpoint
         (env_body (jsn "[{'generated_text': 'a'}, {'generated_text': 'b'}]"))
         (LLMInference.prepare_llama_payload []) w0) = Ret (VStr (py "a"))
  /\ fst (LLMInference.invoke_sync_endpoint
            (env_body (jsn "{'other': 1}"))
            (LLMInference.prepare_llama_payload []) w0) = Ret (VStr []).
Proof. vm_compute. split; reflexivity. Qed.

(** C5 (amended): when the endpoint answers with a body, [invoke_sync_endpoint]
    returns the [generated_text] entry of the first element when the body is
    a non-empty sequence whose first element is an object, and of the object
    when the body is an object, with the empty string for a missing entry;
    for every other body it returns [None]. The envelope holding [hello]
    yields [hello]. *)
Theorem sync_envelope_result (E : env) (body : payload) (w : world)
    (text : str) :
  sync_reply E (sync_calls w) = Returns text ->
  fst (LLMInference.invoke_sync_endpoint E body w)
  = Ret match Json.loads text with
        | Some (VList (VDict d :: _)) =>
            Json.dict_get d (py "generated_text") (VStr [])
        | Some (VDict d) => Json.dict_get d (py "generated_text") (VStr [])
        | _ => VNone
        end.
Proof.
  intros H. destruct (invoke_sync_endpoint_eq E body w) as (l & _ & ->).
  rewrite H. cbn [fst]. unfold generated_text_of.
  destruct (Json.loads text) as [[| | | | |[|[] items]|d]|]; reflexivity.
Qed.

Lemma sync_envelope_result_witness :
  fst (LLMInference.invoke_sync_endpoint env_never
         (LLMInference.prepare_llama_payload []) w0) = Ret (VStr (py "hello")).
Proof.
  apply (sync_envelope_result env_never (LLMInference.prepare_llama_payload [])
           w0 (jsn "[{'generated_text': 'hello'}]")).
  reflexivity.
Defined.
Section InferFacts.

Variable E : env.

(** [except Exception as e:], a logged error and [return None], as the
    three outer handlers of the client write it. *)
Lemma try_except_Exception (body : M value) (msg : exn -> message) (w : world) :
  try_ body
       (fun e => if is_Exception e
                 then Some (log ERROR (msg e) ;;; ret VNone)
                 else None) w
  = except_Exception msg (body w).
Proof.
  unfold try_, except_Exception.
  destruct (body w) as [[v|e|] w']; try reflexivity.
  destruct (is_Exception e); reflexivity.
Qed.

Lemma calls_add_log (w : world) (lvl : level) (msg : message) :
  async_calls (add w (Log lvl msg)) = async_calls w
  /\ sync_calls (add w (Log lvl msg)) = sync_calls w.
Proof.
  unfold async_calls, sync_calls.
  rewrite !counts_add_log by reflexivity. split; reflexivity.
Qed.

(** What the four counters become after an invocation of either endpoint
    and the log entries that follow it. *)
Lemma counts_after_call (w : world) (ev : event) (l : list event) (c : Q) :
  forallb is_Log l = true ->
  forall p, (forall lvl msg, p (Log lvl msg) = false) ->
    count_events p (trace {| clock := c; trace := (trace w ++ [ev]) ++ l |})
    = (count_events p (trace w) + if p ev then 1 else 0)%nat.
Proof.
  intros Hl p Hp. cbn [trace].
  rewrite (count_events_log_suffix p _ l Hp Hl), count_events_snoc.
  reflexivity.
Qed.

(** The asynchronous submission: one call of [invoke_endpoint_async], the
    location, or [None] after an exception of the [Exception] hierarchy. *)
Lemma async_outcome (body : payload) (w : world) :
  exists r w',
    LLMInference.invoke_async_endpoint E body w = (r, w')
    /\ r = match async_reply E (async_calls w) with
           | Raises e => if is_Exception e then Ret VNone else Raise e
           | Returns (Some location) => Ret (VStr location)
           | Returns None => Ret VNone
           end
    /\ async_calls w' = S (async_calls w)
    /\ sync_calls w' = sync_calls w
    /\ polls w' = polls w
    /\ sleeps w' = sleeps w
    /\ clock w' = clock w.
Proof.
  destruct (invoke_async_endpoint_eq E body w) as (l & Hl & ->).
  eexists _, _. split; [reflexivity|]. split; [reflexivity|].
  unfold async_calls, sync_calls, polls, sleeps.
  rewrite !(counts_after_call w _ l _ Hl) by reflexivity. cbn.
  repeat split; lia.
Qed.

(** The synchronous invocation: one call of [invoke_endpoint], the text
    found in the body, or [None]. *)
Lemma sync_outcome (body : payload) (w : world) :
  exists r w',
    LLMInference.invoke_sync_endpoint E body w = (r, w')
    /\ r = match sync_reply E (sync_calls w) with
           | Raises e => if is_Exception e then Ret VNone else Raise e
           | Returns text =>
               Ret match generated_text_of text with
                   | Some v => v
                   | None => VNone
                   end
           end
    /\ async_calls w' = async_calls w
    /\ sync_calls w' = S (sync_calls w)
    /\ polls w' = polls w
    /\ sleeps w' = sleeps w
    /\ clock w' = clock w.
Proof.
  destruct (invoke_sync_endpoint_eq E body w) as (l & Hl & ->).
  eexists _, _. split; [reflexivity|]. split; [reflexivity|].
  unfold async_calls, sync_calls, polls, sleeps.
  rewrite !(counts_after_call w _ l _ Hl) by reflexivity. cbn.
  repeat split; lia.
Qed.

(** The outer handler leaves the four counters as they are. *)
Lemma except_Exception_counts (msg : exn -> message) (r : outcome value)
    (w' : world) :
  forall p, (forall lvl m, p (Log lvl m) = false) ->
    count_events p (trace (snd (except_Exception msg (r, w'))))
    = count_events p (trace w').
Proof.
  intros p Hp.
  destruct (except_Exception_spec msg r w') as (r2 & l & -> & Hl & _).
  cbn [snd trace]. apply count_events_log_suffix; assumption.
Qed.

(** An invocation of the synchronous endpoint is not changed by the outer
    handler of [infer]: it raises nothing that the handler catches. *)
Lemma except_Exception_sync (msg : exn -> message) (body : payload)
    (w : world) :
  except_Exception msg (LLMInference.invoke_sync_endpoint E body w)
  = LLMInference.invoke_sync_endpoint E body w.
Proof.
  destruct (invoke_sync_endpoint_eq E body w) as (l & _ & ->).
  destruct (sync_reply E (sync_calls w)) as [e|text]; [|reflexivity].
  destruct (is_Exception e) eqn:He; [reflexivity|].
  cbn [except_Exception]. rewrite He. reflexivity.
Qed.

(** [infer], one branch at a time. *)
Lemma infer_sync (fuel : nat) (prompt : str) (w : world) :
  LLMInference.infer E fuel prompt false w
  = LLMInference.invoke_sync_endpoint E (LLMInference.prepare_llama_payload prompt)
      (add w (Log INFO UsingSyncEndpoint)).
Proof.
  unfold LLMInference.infer. rewrite try_except_Exception.
  apply except_Exception_sync.
Qed.

Lemma infer_async (fuel : nat) (prompt : str) (w : world) :
  LLMInference.infer E fuel prompt true w
  = let body := LLMInference.prepare_llama_payload prompt in
    match LLMInference.invoke_async_endpoint E body
            (add w (Log INFO UsingAsyncEndpoint)) with
    | (Ret (VStr (c :: l)), w1) =>
        except_Exception ErrorDuringInference
          (LLMInference.wait_for_async_result E fuel (c :: l) 300 w1)
    | (Ret _, w1) =>
        LLMInference.invoke_sync_endpoint E body
          (add w1 (Log WARNING AsyncFailedFallingBack))
    | (Raise e, w1) => (Raise e, w1)
    | (Diverge, w1) => (Diverge, w1)
    end.
Proof.
  unfold LLMInference.infer. rewrite try_except_Exception. cbv zeta.
  unfold bind at 1, log at 1, emit at 1. cbv beta iota.
  unfold bind at 1.
  destruct (async_outcome (LLMInference.prepare_llama_payload prompt)
              (add w (Log INFO UsingAsyncEndpoint)))
    as (r & w1 & -> & Hr & _).
  destruct r as [v|e|].
  - destruct v as [| | | |s| |];
      try (cbv beta iota; unfold bind at 1, log at 1, emit at 1;
           cbv beta iota; apply except_Exception_sync).
    destruct s as [|c s]; [|reflexivity].
    cbv beta iota; unfold bind at 1, log at 1, emit at 1;
      cbv beta iota; apply except_Exception_sync.
  - cbv beta iota.
    destruct (async_reply E (async_calls (add w (Log INFO UsingAsyncEndpoint))))
      as [e0|[location|]]; try discriminate Hr.
    destruct (is_Exception e0) eqn:He; [discriminate Hr|].
    injection Hr as ->. cbn [except_Exception]. rewrite He. reflexivity.
  - cbv beta iota.
    destruct (async_reply E (async_calls (add w (Log INFO UsingAsyncEndpoint))))
      as [e0|[location|]]; try discriminate Hr.
    destruct (is_Exception e0); discriminate Hr.
Qed.

End InferFacts.


Section NoExceptionEscapes.

Variable E : env.
Hypothesis HE : raises_Exceptions_only E.

Lemma except_Exception_outcome (msg : exn -> message) (P : value -> Prop)
    (r0 : outcome value) (w0' : world) :
  (forall e, r0 = Raise e -> is_Exception e = true) ->
  (forall v, r0 = Ret v -> v = VNone \/ P v) ->
  never_raises P (fst (except_Exception msg (r0, w0')))
  /\ (r0 <> Diverge -> fst (except_Exception msg (r0, w0')) <> Diverge).
Proof.
  intros Ha Hb. destruct r0 as [v|e|]; cbn [except_Exception fst].
  - split; [split|]; try discriminate. exact Hb.
  - rewrite (Ha e eq_refl). cbn [fst]. split; [split|]; try discriminate.
    intros v Hv. injection Hv as <-. left. reflexivity.
  - split; [split|]; try discriminate. intros H. exact H.
Qed.

Lemma never_raises_weaken (P Q : value -> Prop) (r : outcome value) :
  (forall v, P v -> Q v) -> never_raises P r -> never_raises Q r.
Proof.
  intros HPQ [H1 H2]. split; [exact H1|].
  intros v Hv. destruct (H2 v Hv) as [H|H]; [left; exact H|right; auto].
Qed.

Lemma async_never_raises (body : payload) (w : world) :
  never_raises
    (fun v => exists location,
       async_reply E (async_calls w) = Returns (Some location)
       /\ v = VStr location)
    (fst (LLMInference.invoke_async_endpoint E body w))
  /\ fst (LLMInference.invoke_async_endpoint E body w) <> Diverge.
Proof.
  destruct (async_outcome E body w) as (r & w' & -> & -> & _). cbn [fst].
  destruct (HE (async_calls w)) as (Ha & _).
  destruct (async_reply E (async_calls w)) as [e|[location|]].
  - rewrite (Ha e eq_refl). split; [split|]; try discriminate.
    intros v Hv. injection Hv as <-. left. reflexivity.
  - split; [split|]; try discriminate.
    intros v Hv. injection Hv as <-. right. exists location.
    split; reflexivity.
  - split; [split|]; try discriminate.
    intros v Hv. injection Hv as <-. left. reflexivity.
Qed.

Lemma sync_never_raises (body : payload) (w : world) :
  never_raises
    (fun v => exists text,
       sync_reply E (sync_calls w) = Returns text
       /\ generated_text_of text = Some v)
    (fst (LLMInference.invoke_sync_endpoint E body w))
  /\ fst (LLMInference.invoke_sync_endpoint E body w) <> Diverge.
Proof.
  destruct (sync_outcome E body w) as (r & w' & -> & -> & _). cbn [fst].
  destruct (HE (sync_calls w)) as (_ & Hs & _).
  destruct (sync_reply E (sync_calls w)) as [e|text].
  - rewrite (Hs e eq_refl). split; [split|]; try discriminate.
    intros v Hv. injection Hv as <-. left. reflexivity.
  - split; [split|]; try discriminate.
    intros v Hv. injection Hv as <-.
    destruct (generated_text_of text) as [v0|] eqn:Hg.
    + right. exists text. split; [reflexivity|exact Hg].
    + left. reflexivity.
Qed.

Lemma wait_never_raises (fuel : nat) (location : str) (T : Z) (w : world) :
  never_raises (from_a_body (s3_reply E))
    (fst (LLMInference.wait_for_async_result E fuel location T w))
  /\ (env_ok E -> (Z.to_nat (ceil_div5 T) < fuel)%nat ->
      fst (LLMInference.wait_for_async_result E fuel location T w) <> Diverge).
Proof.
  rewrite wait_for_async_result_eq.
  destruct (negb (startswith location (py "s3://"))).
  { cbn [except_Exception fst]. split; [split|]; try discriminate.
    intros v Hv. injection Hv as <-. left. reflexivity. }
  destruct (split1 47 (skipn 5 location)) as [bucket [key|]].
  2:{ cbn [except_Exception is_Exception fst]. split; [split|]; try discriminate.
      intros v Hv. injection Hv as <-. left. reflexivity. }
  destruct (LLMInference.poll_loop E fuel bucket key (clock w) T w)
    as [r0 w0'] eqn:Hrun.
  destruct (poll_loop_classify E bucket key (clock w) T fuel w r0 w0' Hrun)
    as [Hraise Hret].
  destruct (except_Exception_outcome ErrorWaiting (from_a_body (s3_reply E))
              r0 w0') as [Hn Hd].
  - intros e He. destruct (Hraise e He) as [->|[->|[->|(n & Hn)]]];
      try reflexivity.
    destruct (HE n) as (_ & _ & Hs). apply (Hs e Hn).
  - intros v Hv. destruct (Hret v Hv) as [H|H]; [left; exact H|right; exact H].
  - split; [exact Hn|]. intros Hok Hfuel. apply Hd.
    destruct (poll_loop_run E bucket key (clock w) T Hok
                (Z.to_nat (ceil_div5 T)) fuel w Hfuel)
      as (r & w' & Hrun' & Hr & _).
    { pose proof (ceil_div5_bound T). lra. }
    rewrite Hrun in Hrun'. injection Hrun' as <- <-. exact Hr.
Qed.

Lemma infer_never_raises (fuel : nat) (prompt : str) (use_async : bool)
    (w : world) :
  never_raises
    (fun v => from_a_body (s3_reply E) v \/ from_a_body (sync_reply E) v)
    (fst (LLMInference.infer E fuel prompt use_async w))
  /\ (env_ok E -> (60 < fuel)%nat ->
      fst (LLMInference.infer E fuel prompt use_async w) <> Diverge).
Proof.
  assert (Hsync : forall w1,
            never_raises
              (fun v => from_a_body (s3_reply E) v \/ from_a_body (sync_reply E) v)
              (fst (LLMInference.invoke_sync_endpoint E
                      (LLMInference.prepare_llama_payload prompt) w1))
            /\ (env_ok E -> (60 < fuel)%nat ->
                fst (LLMInference.invoke_sync_endpoint E
                       (LLMInference.prepare_llama_payload prompt) w1)
                <> Diverge)).
  { intros w1.
    destruct (sync_never_raises (LLMInference.prepare_llama_payload prompt) w1)
      as [Hn Hd].
    split; [|intros _ _; exact Hd].
    apply (never_raises_weaken _ _ _ (fun v H => or_intror
             match H with
             | ex_intro _ text Ht => ex_intro _ (sync_calls w1) (ex_intro _ text Ht)
             end) Hn). }
  destruct use_async; [|rewrite infer_sync; apply Hsync].
  rewrite infer_async. cbv zeta.
  destruct (async_never_raises (LLMInference.prepare_llama_payload prompt)
              (add w (Log INFO UsingAsyncEndpoint))) as [[Hnr _] Hnd].
  destruct (LLMInference.invoke_async_endpoint E
              (LLMInference.prepare_llama_payload prompt)
              (add w (Log INFO UsingAsyncEndpoint))) as [[v|e|] w1];
    cbn [fst] in Hnr, Hnd.
  - destruct v as [| | | |[|c s]| |]; try apply Hsync.
    destruct (wait_never_raises fuel (c :: s) 300 w1) as [[Hwr Hwv] Hwd].
    destruct (LLMInference.wait_for_async_result E fuel (c :: s) 300 w1)
      as [r0 w0'].
    cbn [fst] in Hwr, Hwv, Hwd.
    destruct (except_Exception_outcome ErrorDuringInference
                (fun v => from_a_body (s3_reply E) v
                          \/ from_a_body (sync_reply E) v) r0 w0')
      as [Hn Hd].
    + intros e He. destruct (Hwr e He).
    + intros v Hv. destruct (Hwv v Hv) as [H|H];
        [left; exact H|right; left; exact H].
    + split; [exact Hn|]. intros Hok Hfuel. apply Hd, (Hwd Hok).
      change (Z.to_nat (ceil_div5 300)) with 60%nat. exact Hfuel.
  - destruct (Hnr e eq_refl).
  - destruct (Hnd eq_refl).
Qed.

End NoExceptionEscapes.

(** C4: when the asynchronous submission fails (the call raises an
    exception of the [Exception] hierarchy, or its response carries no
    usable location), [infer] with [use_async=True] is one invocation of
    [invoke_sync_endpoint], started after the failed submission, and returns
    what that invocation returns; over the whole call the asynchronous
    endpoint is invoked once, the synchronous endpoint once, and nothing is
    polled or slept on. *)
Theorem async_failure_falls_back_once (E : env) (fuel : nat) (prompt : str)
    (w : world) :
  submission_failed (async_reply E (async_calls w)) ->
  exists w1 r w',
    LLMInference.infer E fuel prompt true w = (r, w')
    /\ LLMInference.invoke_sync_endpoint E
         (LLMInference.prepare_llama_payload prompt) w1 = (r, w')
    /\ async_calls w1 = S (async_calls w)
    /\ sync_calls w1 = sync_calls w
    /\ async_calls w' = S (async_calls w)
    /\ sync_calls w' = S (sync_calls w)
    /\ polls w' = polls w
    /\ sleeps w' = sleeps w.
Proof.
  intros Hfail. rewrite infer_async. cbv zeta.
  destruct (async_outcome E (LLMInference.prepare_llama_payload prompt)
              (add w (Log INFO UsingAsyncEndpoint)))
    as (r1 & w1 & -> & Hr & Ha & Hs & Hp & Hsl & _).
  rewrite (proj1 (calls_add_log w INFO UsingAsyncEndpoint)) in Hr, Ha.
  rewrite (proj2 (calls_add_log w INFO UsingAsyncEndpoint)) in Hs.
  rewrite polls_add_log in Hp. rewrite sleeps_add_log in Hsl.
  destruct (sync_outcome E (LLMInference.prepare_llama_payload prompt)
              (add w1 (Log WARNING AsyncFailedFallingBack)))
    as (r & w' & Hrun & _ & Ha2 & Hs2 & Hp2 & Hsl2 & _).
  rewrite (proj1 (calls_add_log w1 WARNING AsyncFailedFallingBack)) in Ha2.
  rewrite (proj2 (calls_add_log w1 WARNING AsyncFailedFallingBack)) in Hs2.
  rewrite polls_add_log in Hp2. rewrite sleeps_add_log in Hsl2.
  assert (Hfall : r1 = Ret VNone \/ r1 = Ret (VStr [])).
  { destruct (async_reply E (async_calls w)) as [e|[location|]];
      cbn [submission_failed] in Hfail.
    - rewrite Hfail in Hr. left. exact Hr.
    - subst location. right. exact Hr.
    - left. exact Hr. }
  exists (add w1 (Log WARNING AsyncFailedFallingBack)), r, w'.
  split.
  { destruct Hfall as [-> | ->]; exact Hrun. }
  split; [exact Hrun|].
  rewrite (proj1 (calls_add_log w1 WARNING AsyncFailedFallingBack)).
  rewrite (proj2 (calls_add_log w1 WARNING AsyncFailedFallingBack)).
  repeat split; congruence.
Qed.

Lemma async_failure_falls_back_once_witness :
  exists w1 r w',
    LLMInference.infer env_denied 1 (py "total?") true w0 = (r, w')
    /\ LLMInference.invoke_sync_endpoint env_denied
         (LLMInference.prepare_llama_payload (py "total?")) w1 = (r, w')
    /\ async_calls w1 = S (async_calls w0)
    /\ sync_calls w1 = sync_calls w0
    /\ async_calls w' = S (async_calls w0)
    /\ sync_calls w' = S (sync_calls w0)
    /\ polls w' = polls w0
    /\ sleeps w' = sleeps w0.
Proof.
  apply (async_failure_falls_back_once env_denied 1 (py "total?") w0).
  reflexivity.
Defined.



(* ===================================================================== *)
(** * Further properties of the inference client *)
(* ===================================================================== *)

Section WaitFacts.

Variable E : env.

Lemma split1_none (sep : N) (s : str) :
  ~ In sep s -> split1 sep s = (s, None).
Proof.
  induction s as [|c s IH]; intros H; [reflexivity|].
  cbn [split1]. destruct (N.eqb_spec c sep) as [->|_].
  - exfalso. apply H. left. reflexivity.
  - rewrite IH; [reflexivity|]. intros Hin. apply H. right. exact Hin.
Qed.

Lemma Qltb_intro (a b : Q) : a < b -> LLMInference.Qltb a b = true.
Proof.
  intros H. unfold LLMInference.Qltb. apply negb_true_iff.
  destruct (Qle_bool b a) eqn:Hle; [|reflexivity].
  apply Qle_bool_iff in Hle. lra.
Qed.

Lemma Qltb_elapsed_nonpositive (c : Q) (T : Z) :
  (T <= 0)%Z -> LLMInference.Qltb (c - c) (inject_Z T) = false.
Proof.
  intros H. unfold LLMInference.Qltb. apply negb_false_iff, Qle_bool_iff.
  assert (H0 : inject_Z T <= inject_Z 0) by (rewrite <- Zle_Qle; exact H).
  change (inject_Z 0) with 0 in H0. lra.
Qed.

(** The loop that meets [k] times [NoSuchKey] and then the body, all within
    the time allowed. *)
Lemma poll_loop_finds (bucket key : str) (start : Q) (T : Z) (text : str)
    (v : value) :
  generated_text_of text = Some v ->
  forall k fuel w,
    (k < fuel)%nat ->
    (forall i, (i < k)%nat -> s3_reply E (polls w + i) = Raises not_found) ->
    s3_reply E (polls w + k) = Returns text ->
    (forall i, (i <= k)%nat ->
       (clock w - start) + retry_time E (polls w) (sleeps w) i < inject_Z T) ->
    exists w',
      LLMInference.poll_loop E fuel bucket key start T w = (Ret v, w')
      /\ polls w' = (polls w + k + 1)%nat
      /\ sleeps w' = (sleeps w + k)%nat
      /\ clock w' == clock w + retry_time E (polls w) (sleeps w) k
                     + s3_latency E (polls w + k).
Proof.
  intros Hg. induction k as [|k IH]; intros fuel w Hfuel Hnone Hfound Htime;
    (destruct fuel as [|fuel]; [lia|]); rewrite poll_loop_S.
  - pose proof (Htime 0%nat (Nat.le_refl _)) as H0. cbn [retry_time] in H0.
    rewrite Qltb_intro by lra. cbv zeta.
    rewrite Nat.add_0_r in Hfound. rewrite Hfound.
    pose proof (read_body_cases text
                  (tick w (s3_latency E (polls w)) (GetObject bucket key))) as H.
    rewrite Hg in H. rewrite H. eexists. split; [reflexivity|].
    rewrite polls_tick_get, sleeps_tick_get, !Nat.add_0_r.
    split; [lia|]. split; [reflexivity|]. cbn [clock tick retry_time]. ring.
  - pose proof (Htime 0%nat (Nat.le_0_l _)) as H0. cbn [retry_time] in H0.
    rewrite Qltb_intro by lra. cbv zeta.
    pose proof (Hnone 0%nat (Nat.lt_0_succ _)) as Hfirst.
    rewrite Nat.add_0_r in Hfirst. rewrite Hfirst.
    change (is_not_found not_found) with true. cbv iota.
    destruct (IH fuel (after_retry E bucket key w)) as (w' & Hrun & Hp & Hs & Hc).
    + lia.
    + intros i Hi. rewrite polls_after_retry.
      replace (S (polls w) + i)%nat with (polls w + S i)%nat by lia.
      apply Hnone. lia.
    + rewrite polls_after_retry.
      replace (S (polls w) + k)%nat with (polls w + S k)%nat by lia.
      exact Hfound.
    + intros i Hi. rewrite polls_after_retry, sleeps_after_retry.
      pose proof (Htime (S i) ltac:(lia)) as Hi'. cbn [retry_time] in Hi'.
      unfold after_retry. cbn [clock tick]. rewrite sleeps_tick_get. lra.
    + exists w'. split; [exact Hrun|].
      rewrite polls_after_retry in Hp, Hc. rewrite sleeps_after_retry in Hs, Hc.
      split; [lia|]. split; [lia|].
      replace (polls w + S k)%nat with (S (polls w) + k)%nat by lia.
      rewrite Hc. unfold after_retry. cbn [clock tick retry_time].
      rewrite sleeps_tick_get. ring.
Qed.

(** Waiting touches neither endpoint. *)
Lemma wait_calls (fuel : nat) (location : str) (T : Z) (w : world) :
  async_calls (snd (LLMInference.wait_for_async_result E fuel location T w))
  = async_calls w
  /\ sync_calls (snd (LLMInference.wait_for_async_result E fuel location T w))
     = sync_calls w.
Proof.
  rewrite wait_for_async_result_eq. unfold async_calls, sync_calls.
  destruct (negb (startswith location (py "s3://"))).
  { rewrite !except_Exception_counts by reflexivity.
    rewrite !counts_add_log by reflexivity. split; reflexivity. }
  destruct (split1 47 (skipn 5 location)) as [bucket [key|]].
  2:{ rewrite !except_Exception_counts by reflexivity. split; reflexivity. }
  destruct (LLMInference.poll_loop E fuel bucket key (clock w) T w)
    as [r0 w0'] eqn:Hrun.
  rewrite !except_Exception_counts by reflexivity.
  apply (poll_loop_calls E bucket key (clock w) T fuel w r0 w0' Hrun).
Qed.

End WaitFacts.

(** X1: A location that names a bucket and no key, [s3://bucket] with no
    further slash, makes [wait_for_async_result] return [None] without a
    single poll: unpacking the split raises [ValueError], which the outer
    handler logs. *)
Theorem location_without_key (E : env) (fuel : nat) (bucket : str) (T : Z)
    (w : world) :
  ~ In 47%N bucket ->
  LLMInference.wait_for_async_result E fuel (py "s3://" ++ bucket) T w
  = (Ret VNone, add w (Log ERROR (ErrorWaiting ValueError)))
  /\ polls (add w (Log ERROR (ErrorWaiting ValueError))) = polls w.
Proof.
  intros H. split; [|apply polls_add_log].
  rewrite wait_for_async_result_eq, (startswith_app (py "s3://")).
  change (skipn 5 (py "s3://" ++ bucket)) with bucket.
  rewrite (split1_none _ _ H). reflexivity.
Qed.

Lemma location_without_key_witness :
  LLMInference.wait_for_async_result env_never 3 (py "s3://" ++ py "bucket")
    300 w0
  = (Ret VNone, add w0 (Log ERROR (ErrorWaiting ValueError)))
  /\ polls (add w0 (Log ERROR (ErrorWaiting ValueError))) = polls w0.
Proof.
  apply (location_without_key env_never 3 (py "bucket") 300 w0).
  vm_compute. intuition discriminate.
Defined.

(** X2: With a timeout that is zero or negative, [wait_for_async_result]
    leaves through its timeout exit before the first poll, whatever the
    bucket holds: the object is not read even when it is there. *)
Theorem nonpositive_timeout_never_polls (E : env) (fuel : nat)
    (bucket key : str) (T : Z) (w : world) :
  (T <= 0)%Z -> (0 < fuel)%nat ->
  LLMInference.wait_for_async_result E fuel (s3_location bucket key) T w
  = (Ret VNone, add w (Log ERROR (TimeoutWaiting T)))
  /\ polls (add w (Log ERROR (TimeoutWaiting T))) = polls w.
Proof.
  intros HT Hfuel. split; [|apply polls_add_log].
  destruct (wait_for_s3_location E fuel bucket key T w) as (b & k & ->).
  destruct fuel as [|fuel]; [lia|].
  rewrite poll_loop_S, (Qltb_elapsed_nonpositive _ _ HT). reflexivity.
Qed.

Lemma nonpositive_timeout_never_polls_witness :
  LLMInference.wait_for_async_result (env_body (jsn "{'generated_text': 'x'}"))
    1 (s3_location (py "bucket") (py "key")) 0 w0
  = (Ret VNone, add w0 (Log ERROR (TimeoutWaiting 0)))
  /\ polls (add w0 (Log ERROR (TimeoutWaiting 0))) = polls w0.
Proof.
  apply (nonpositive_timeout_never_polls
           (env_body (jsn "{'generated_text': 'x'}")) 1 (py "bucket") (py "key")
           0 w0); lia.
Defined.

(** X3: The success path of [wait_for_async_result]: when the first [k] polls
    meet [NoSuchKey], the next one finds a body from which the generated
    text [v] is read, and each of these polls starts before the timeout,
    the method returns [v] after [k + 1] polls and [k] sleeps, at the time
    the retries and the last read add up to. *)
Theorem result_found_after_retries (E : env) (bucket key : str) (T : Z)
    (k fuel : nat) (w : world) (text : str) (v : value) :
  (k < fuel)%nat ->
  (forall i, (i < k)%nat -> s3_reply E (polls w + i) = Raises not_found) ->
  s3_reply E (polls w + k) = Returns text ->
  generated_text_of text = Some v ->
  (forall i, (i <= k)%nat ->
     retry_time E (polls w) (sleeps w) i < inject_Z T) ->
  exists w',
    LLMInference.wait_for_async_result E fuel (s3_location bucket key) T w
    = (Ret v, w')
    /\ polls w' = (polls w + k + 1)%nat
    /\ sleeps w' = (sleeps w + k)%nat
    /\ clock w' == clock w + retry_time E (polls w) (sleeps w) k
                   + s3_latency E (polls w + k).
Proof.
  intros Hfuel Hnone Hfound Hg Htime.
  destruct (wait_for_s3_location E fuel bucket key T w) as (b & k' & ->).
  destruct (poll_loop_finds E b k' (clock w) T text v Hg k fuel w Hfuel Hnone
              Hfound) as (w' & -> & H).
  { intros i Hi. pose proof (Htime i Hi). lra. }
  exists w'. split; [reflexivity|exact H].
Qed.

Lemma result_found_after_retries_witness :
  exists w',
    LLMInference.wait_for_async_result env_late 3
      (s3_location (py "bucket") (py "key")) 300 w0
    = (Ret (VStr (py "hello")), w')
    /\ polls w' = (polls w0 + 2 + 1)%nat
    /\ sleeps w' = (sleeps w0 + 2)%nat
    /\ clock w' == clock w0 + retry_time env_late (polls w0) (sleeps w0) 2
                   + s3_latency env_late (polls w0 + 2).
Proof.
  apply (result_found_after_retries env_late (py "bucket") (py "key") 300 2 3
           w0 (jsn "[{'generated_text': 'hello'}]") (VStr (py "hello"))).
  - lia.
  - intros i Hi. destruct i as [|[|i]]; [reflexivity|reflexivity|lia].
  - reflexivity.
  - vm_compute. reflexivity.
  - intros i Hi. destruct i as [|[|[|i]]];
      [vm_compute; reflexivity|vm_compute; reflexivity
      |vm_compute; reflexivity|lia].
Defined.

(** X4: Once the submission has returned a location, [infer] never falls back
    to the synchronous endpoint, however the wait ends: it invokes the
    asynchronous endpoint once and the synchronous one not at all. In
    particular, when the result never appears, [infer] returns [None] after
    the five minutes of the default timeout. *)
Theorem accepted_submission_never_falls_back (E : env) (fuel : nat)
    (prompt : str) (w : world) (c : N) (location : str) :
  async_reply E (async_calls w) = Returns (Some (c :: location)) ->
  sync_calls (snd (LLMInference.infer E fuel prompt true w)) = sync_calls w
  /\ async_calls (snd (LLMInference.infer E fuel prompt true w))
     = S (async_calls w)
  /\ (forall bucket key,
        c :: location = s3_location bucket key ->
        env_ok E -> never_appears E -> (60 < fuel)%nat ->
        fst (LLMInference.infer E fuel prompt true w) = Ret VNone
        /\ 300 <= clock (snd (LLMInference.infer E fuel prompt true w))
                  - clock w).
Proof.
  intros Hreply. rewrite infer_async. cbv zeta.
  destruct (async_outcome E (LLMInference.prepare_llama_payload prompt)
              (add w (Log INFO UsingAsyncEndpoint)))
    as (r1 & w1 & -> & Hr & Ha & Hs & _ & _ & Hc).
  rewrite (proj1 (calls_add_log w INFO UsingAsyncEndpoint)) in Hr, Ha.
  rewrite (proj2 (calls_add_log w INFO UsingAsyncEndpoint)) in Hs.
  rewrite Hreply in Hr. subst r1. cbv iota. cbn [clock add] in Hc.
  destruct (wait_calls E fuel (c :: location) 300 w1) as [Hwa Hws].
  split; [|split].
  - destruct (LLMInference.wait_for_async_result E fuel (c :: location) 300 w1)
      as [r w']. unfold sync_calls in *.
    rewrite except_Exception_counts by reflexivity. cbn [snd] in Hws.
    congruence.
  - destruct (LLMInference.wait_for_async_result E fuel (c :: location) 300 w1)
      as [r w']. unfold async_calls in *.
    rewrite except_Exception_counts by reflexivity. cbn [snd] in Hwa.
    congruence.
  - intros bucket key -> Hok Hnever Hfuel.
    destruct (wait_for_s3_location E fuel bucket key 300 w1) as (b & k & ->).
    destruct (poll_loop_run E b k (clock w1) 300 Hok 60 fuel w1 Hfuel)
      as (r & w' & Hrun & _ & _ & _ & _ & _ & _ & Hn).
    { change (inject_Z (Z.of_nat 60)) with 60.
      change (inject_Z 300) with 300. lra. }
    destruct (Hn Hnever) as (-> & HT & _). rewrite Hrun.
    cbn [except_Exception fst snd]. split; [reflexivity|].
    change (inject_Z 300) with 300 in HT. rewrite <- Hc. exact HT.
Qed.

Lemma accepted_submission_never_falls_back_witness :
  sync_calls (snd (LLMInference.infer env_never 61 (py "total?") true w0))
  = sync_calls w0.
Proof.
  apply (accepted_submission_never_falls_back env_never 61 (py "total?") w0
           115%N (py "3://bucket/key")).
  reflexivity.
Defined.

(** X5: [infer] with [use_async=False] is one invocation of the synchronous
    endpoint and nothing else: no submission, no poll, no sleep, and no
    time read from the clock; it returns the generated text of the body,
    or [None]. *)
Theorem sync_inference_is_one_call (E : env) (fuel : nat) (prompt : str)
    (w : world) :
  exists r w',
    LLMInference.infer E fuel prompt false w = (r, w')
    /\ r = match sync_reply E (sync_calls w) with
           | Raises e => if is_Exception e then Ret VNone else Raise e
           | Returns text =>
               Ret match generated_text_of text with
                   | Some v => v
                   | None => VNone
                   end
           end
    /\ async_calls w' = async_calls w
    /\ sync_calls w' = S (sync_calls w)
    /\ polls w' = polls w
    /\ sleeps w' = sleeps w
    /\ clock w' = clock w.
Proof.
  rewrite infer_sync.
  destruct (sync_outcome E (LLMInference.prepare_llama_payload prompt)
              (add w (Log INFO UsingSyncEndpoint)))
    as (r & w' & -> & Hr & Ha & Hs & Hp & Hsl & Hc).
  rewrite (proj1 (calls_add_log w INFO UsingSyncEndpoint)) in Ha.
  rewrite (proj2 (calls_add_log w INFO UsingSyncEndpoint)) in Hr, Hs.
  rewrite polls_add_log in Hp. rewrite sleeps_add_log in Hsl.
  exists r, w'. repeat split; assumption.
Qed.

(* ===================================================================== *)
(** * What the client emits, and [batch_infer] *)
(* ===================================================================== *)

Section EmitFacts.

Variable E : env.

Lemma follows_refl (w : world) : follows w w.
Proof.
  split; [|apply Qle_refl]. exists []. rewrite app_nil_r. split; reflexivity.
Qed.

Lemma follows_trans (w1 w2 w3 : world) :
  follows w1 w2 -> follows w2 w3 -> follows w1 w3.
Proof.
  intros [(l1 & E1 & H1) C1] [(l2 & E2 & H2) C2]. split.
  - exists (l1 ++ l2). rewrite E2, E1, app_assoc. split; [reflexivity|].
    rewrite forallb_app, H1, H2. reflexivity.
  - apply (Qle_trans _ _ _ C1 C2).
Qed.

Lemma logs_client_events (l : list event) :
  forallb is_Log l = true -> forallb client_event l = true.
Proof.
  induction l as [|ev l IH]; [reflexivity|]. cbn [forallb]. intros H.
  apply andb_true_iff in H as [Hev Hl]. rewrite (IH Hl).
  destruct ev; try discriminate. reflexivity.
Qed.

Lemma follows_add (w : world) (ev : event) :
  client_event ev = true -> follows w (add w ev).
Proof.
  intros H. split; [|apply Qle_refl]. exists [ev]. split; [reflexivity|].
  cbn [forallb]. rewrite H. reflexivity.
Qed.

Lemma follows_tick (w : world) (dt : Q) (ev : event) :
  client_event ev = true -> 0 <= dt -> follows w (tick w dt ev).
Proof.
  intros H Hdt. split; [|cbn [clock tick]; lra]. exists [ev].
  split; [reflexivity|]. cbn [forallb]. rewrite H. reflexivity.
Qed.

Lemma follows_logs (w : world) (c : Q) (t l : list event) :
  forallb is_Log l = true ->
  follows w {| clock := c; trace := t |} ->
  follows w {| clock := c; trace := t ++ l |}.
Proof.
  intros Hl [(l1 & E1 & H1) C1]. cbn [trace clock] in *. split; [|exact C1].
  exists (l1 ++ l). cbn [trace]. rewrite E1, app_assoc. split; [reflexivity|].
  rewrite forallb_app, H1, (logs_client_events l Hl). reflexivity.
Qed.

Lemma follows_count (p : event -> bool) (w w' : world) :
  (forall ev, client_event ev = true -> p ev = false) ->
  follows w w' -> count_events p (trace w') = count_events p (trace w).
Proof.
  intros Hp [(l & -> & Hl) _]. rewrite count_events_app.
  assert (H : count_events p l = 0%nat); [|lia].
  induction l as [|ev l IH]; [reflexivity|]. cbn [forallb] in Hl.
  apply andb_true_iff in Hl as [Hev Hl]. unfold count_events in *.
  cbn [filter]. rewrite (Hp ev Hev). apply IH, Hl.
Qed.

Lemma follows_pauses (w w' : world) : follows w w' -> pauses w' = pauses w.
Proof.
  apply follows_count. intros ev H. destruct ev; try reflexivity.
  cbn [client_event is_pause] in *. apply Qeq_bool_iff in H.
  destruct (Qeq_bool secs 1) eqn:H1; [|reflexivity].
  apply Qeq_bool_iff in H1. rewrite H1 in H. discriminate H.
Qed.

Lemma except_Exception_follows (msg : exn -> message) (w : world)
    (r : outcome value) (w' : world) :
  follows w w' -> follows w (snd (except_Exception msg (r, w'))).
Proof.
  intros H. destruct (except_Exception_spec msg r w') as (r2 & l & -> & Hl & _).
  cbn [snd]. destruct w' as [c t]. apply (follows_logs _ _ _ _ Hl H).
Qed.

Lemma async_follows (body : payload) (w : world) :
  follows w (snd (LLMInference.invoke_async_endpoint E body w)).
Proof.
  destruct (invoke_async_endpoint_eq E body w) as (l & Hl & ->). cbn [snd].
  apply (follows_logs _ _ _ _ Hl), (follows_add w (InvokeEndpointAsync body)).
  reflexivity.
Qed.

Lemma sync_follows (body : payload) (w : world) :
  follows w (snd (LLMInference.invoke_sync_endpoint E body w)).
Proof.
  destruct (invoke_sync_endpoint_eq E body w) as (l & Hl & ->). cbn [snd].
  apply (follows_logs _ _ _ _ Hl), (follows_add w (InvokeEndpoint body)).
  reflexivity.
Qed.

Hypothesis Hok : env_ok E.

Lemma follows_after_retry (bucket key : str) (w : world) :
  follows w (after_retry E bucket key w).
Proof.
  unfold after_retry.
  apply (follows_trans _ (tick w (s3_latency E (polls w)) (GetObject bucket key))).
  - apply follows_tick; [reflexivity|apply Hok].
  - apply follows_tick; [reflexivity|].
    pose proof (proj2 (Hok (sleeps (tick w (s3_latency E (polls w))
                                      (GetObject bucket key))))). lra.
Qed.

Lemma poll_loop_follows (bucket key : str) (start : Q) (T : Z) :
  forall fuel w r w',
    LLMInference.poll_loop E fuel bucket key start T w = (r, w') ->
    follows w w'.
Proof.
  induction fuel as [|fuel IH]; intros w r w' Hrun.
  { injection Hrun as <- <-. apply follows_refl. }
  rewrite poll_loop_S in Hrun.
  destruct (LLMInference.Qltb (clock w - start) (inject_Z T)).
  2:{ injection Hrun as <- <-. apply follows_add. reflexivity. }
  cbv zeta in Hrun.
  assert (Hget : follows w (tick w (s3_latency E (polls w))
                              (GetObject bucket key))).
  { apply follows_tick; [reflexivity|apply Hok]. }
  destruct (s3_reply E (polls w)) as [e0|text].
  - destruct (is_not_found e0).
    + apply (follows_trans _ _ _ (follows_after_retry bucket key w)),
        (IH _ _ _ Hrun).
    + destruct e0 as [[c|]| | | | | |]; injection Hrun as <- <-;
        try exact Hget.
      apply (follows_trans _ _ _ Hget), follows_add. reflexivity.
  - destruct (read_body_outcome text
                (tick w (s3_latency E (polls w)) (GetObject bucket key)))
      as (r0 & w0' & Hrun0 & _ & _ & Hc & (l & Hl & Hlogs) & _).
    rewrite Hrun0 in Hrun. injection Hrun as <- <-.
    apply (follows_trans _ _ _ Hget). split.
    + exists l. split; [exact Hl|apply logs_client_events, Hlogs].
    + rewrite Hc. apply Qle_refl.
Qed.

Lemma wait_follows (fuel : nat) (location : str) (T : Z) (w : world) :
  follows w (snd (LLMInference.wait_for_async_result E fuel location T w)).
Proof.
  rewrite wait_for_async_result_eq.
  destruct (negb (startswith location (py "s3://"))).
  { apply except_Exception_follows, follows_add. reflexivity. }
  destruct (split1 47 (skipn 5 location)) as [bucket [key|]].
  2:{ apply except_Exception_follows, follows_refl. }
  destruct (LLMInference.poll_loop E fuel bucket key (clock w) T w)
    as [r0 w0'] eqn:Hrun.
  apply except_Exception_follows,
    (poll_loop_follows bucket key (clock w) T fuel w r0 w0' Hrun).
Qed.

Lemma infer_follows (fuel : nat) (prompt : str) (use_async : bool)
    (w : world) :
  follows w (snd (LLMInference.infer E fuel prompt use_async w)).
Proof.
  assert (Hlog : forall msg lvl, follows w (add w (Log lvl msg))).
  { intros msg lvl. apply follows_add. reflexivity. }
  destruct use_async.
  2:{ rewrite infer_sync.
      apply (follows_trans _ _ _ (Hlog UsingSyncEndpoint INFO)), sync_follows. }
  rewrite infer_async. cbv zeta.
  pose proof (async_follows (LLMInference.prepare_llama_payload prompt)
                (add w (Log INFO UsingAsyncEndpoint))) as Ha.
  destruct (LLMInference.invoke_async_endpoint E
              (LLMInference.prepare_llama_payload prompt)
              (add w (Log INFO UsingAsyncEndpoint))) as [r1 w1].
  cbn [snd] in Ha.
  pose proof (follows_trans _ _ _ (Hlog UsingAsyncEndpoint INFO) Ha) as H1.
  assert (Hfall : follows w
            (snd (LLMInference.invoke_sync_endpoint E
                    (LLMInference.prepare_llama_payload prompt)
                    (add w1 (Log WARNING AsyncFailedFallingBack))))).
  { apply (follows_trans _ _ _ H1),
      (follows_trans _ (add w1 (Log WARNING AsyncFailedFallingBack))).
    - apply follows_add. reflexivity.
    - apply sync_follows. }
  destruct r1 as [v|e|]; try exact H1.
  destruct v as [| | | |[|c s]| |]; try exact Hfall.
  pose proof (wait_follows fuel (c :: s) 300 w1) as Hw.
  destruct (LLMInference.wait_for_async_result E fuel (c :: s) 300 w1)
    as [r0 w0'].
  cbn [snd] in Hw.
  apply except_Exception_follows, (follows_trans _ _ _ H1 Hw).
Qed.

End EmitFacts.

Section BatchFacts.

Variable E : env.
Hypothesis HE : raises_Exceptions_only E.
Hypothesis Hok : env_ok E.

Variable fuel : nat.
Hypothesis Hfuel : (60 < fuel)%nat.

(** One run of [infer] inside a batch. *)
Lemma infer_run (prompt : str) (use_async : bool) (w : world) :
  exists v w',
    LLMInference.infer E fuel prompt use_async w = (Ret v, w')
    /\ inferred E v
    /\ follows w w'
    /\ (if use_async
        then async_calls w' = S (async_calls w)
        else async_calls w' = async_calls w
             /\ sync_calls w' = S (sync_calls w)
             /\ polls w' = polls w /\ sleeps w' = sleeps w).
Proof.
  destruct (infer_never_raises E HE fuel prompt use_async w) as [[Hr Hv] Hd].
  pose proof (infer_follows E Hok fuel prompt use_async w) as Hf.
  assert (Hc : if use_async
               then async_calls (snd (LLMInference.infer E fuel prompt
                                        use_async w)) = S (async_calls w)
               else async_calls (snd (LLMInference.infer E fuel prompt
                                        use_async w)) = async_calls w
                    /\ sync_calls (snd (LLMInference.infer E fuel prompt
                                          use_async w)) = S (sync_calls w)
                    /\ polls (snd (LLMInference.infer E fuel prompt
                                     use_async w)) = polls w
                    /\ sleeps (snd (LLMInference.infer E fuel prompt
                                      use_async w)) = sleeps w).
  { destruct use_async.
    - rewrite infer_async. cbv zeta.
      destruct (async_outcome E (LLMInference.prepare_llama_payload prompt)
                  (add w (Log INFO UsingAsyncEndpoint)))
        as (r1 & w1 & -> & _ & Ha & _).
      rewrite (proj1 (calls_add_log w INFO UsingAsyncEndpoint)) in Ha.
      assert (Hs : async_calls
                     (snd (LLMInference.invoke_sync_endpoint E
                             (LLMInference.prepare_llama_payload prompt)
                             (add w1 (Log WARNING AsyncFailedFallingBack))))
                   = S (async_calls w)).
      { destruct (sync_outcome E (LLMInference.prepare_llama_payload prompt)
                    (add w1 (Log WARNING AsyncFailedFallingBack)))
          as (r & w' & -> & _ & Ha2 & _).
        rewrite (proj1 (calls_add_log w1 WARNING AsyncFailedFallingBack))
          in Ha2. cbn [snd]. congruence. }
      destruct r1 as [v|e|]; try exact Ha.
      destruct v as [| | | |[|c s]| |]; try exact Hs.
      destruct (wait_calls E fuel (c :: s) 300 w1) as [Hwa _].
      destruct (LLMInference.wait_for_async_result E fuel (c :: s) 300 w1)
        as [r0 w0'].
      unfold async_calls in *. rewrite except_Exception_counts by reflexivity.
      cbn [snd] in Hwa. congruence.
    - rewrite infer_sync.
      destruct (sync_outcome E (LLMInference.prepare_llama_payload prompt)
                  (add w (Log INFO UsingSyncEndpoint)))
        as (r & w' & -> & _ & Ha & Hs & Hp & Hsl & _).
      rewrite (proj1 (calls_add_log w INFO UsingSyncEndpoint)) in Ha.
      rewrite (proj2 (calls_add_log w INFO UsingSyncEndpoint)) in Hs.
      rewrite polls_add_log in Hp. rewrite sleeps_add_log in Hsl.
      cbn [snd]. repeat split; assumption. }
  destruct (LLMInference.infer E fuel prompt use_async w) as [[v|e|] w'];
    cbn [fst snd] in *.
  - exists v, w'. split; [reflexivity|]. split; [|split; assumption].
    destruct (Hv v eq_refl) as [H|H]; [left; exact H|right; exact H].
  - destruct (Hr e eq_refl).
  - destruct (Hd Hok Hfuel eq_refl).
Qed.

Lemma batch_loop_cons (use_async : bool) (n i : nat) (prompt : str)
    (rest : list str) (results : list value) (s : session) :
  Batch.batch_loop E fuel use_async n i (prompt :: rest) results s
  = let j := journal s ++ [(List.length (trace (client s)),
                            Logged INFO (ProcessingPrompt (i + 1) n))] in
    match LLMInference.infer E fuel prompt use_async (client s) with
    | (Ret result, w1) =>
        Batch.batch_loop E fuel use_async n (S i) rest (results ++ [result])
          {| client := if (Z.of_nat i <? Z.of_nat n - 1)%Z
                       then tick w1 (1 + sleep_overrun E (sleeps w1)) (Sleep 1)
                       else w1;
             journal := j |}
    | (Raise e, w1) => (Raise e, {| client := w1; journal := j |})
    | (Diverge, w1) => (Diverge, {| client := w1; journal := j |})
    end.
Proof.
  cbn [Batch.batch_loop]. unfold bindC at 1, logC, write. cbv beta iota zeta.
  unfold bindC at 1, lift at 1. cbn [client journal].
  destruct (LLMInference.infer E fuel prompt use_async (client s))
    as [[v|e|] w1]; try reflexivity.
  unfold bindC at 1. destruct (Z.of_nat i <? Z.of_nat n - 1)%Z; reflexivity.
Qed.

Lemma pause_counts (w : world) (dt : Q) :
  pauses (tick w dt (Sleep 1)) = S (pauses w)
  /\ async_calls (tick w dt (Sleep 1)) = async_calls w
  /\ sync_calls (tick w dt (Sleep 1)) = sync_calls w
  /\ polls (tick w dt (Sleep 1)) = polls w
  /\ sleeps (tick w dt (Sleep 1)) = S (sleeps w).
Proof.
  unfold pauses, async_calls, sync_calls, polls, sleeps, tick. cbn [trace].
  rewrite !count_events_snoc. cbn. repeat split; lia.
Qed.

(** The loop of [batch_infer] from the [i]-th prompt on. *)
Lemma batch_loop_run (use_async : bool) (n : nat) :
  forall rest i results s,
    (i + List.length rest = n)%nat ->
    exists new s',
      Batch.batch_loop E fuel use_async n i rest results s
      = (Ret (results ++ new), s')
      /\ List.length new = List.length rest
      /\ Forall (inferred E) new
      /\ pauses (client s') = (pauses (client s) + (List.length rest - 1))%nat
      /\ List.map snd (journal s')
         = List.map snd (journal s)
           ++ List.map (fun k => Logged INFO (ProcessingPrompt (k + 1) n))
                (seq i (List.length rest))
      /\ inject_Z (Z.of_nat (List.length rest - 1))
         <= clock (client s') - clock (client s)
      /\ (if use_async
          then async_calls (client s')
               = (async_calls (client s) + List.length rest)%nat
          else async_calls (client s') = async_calls (client s)
               /\ sync_calls (client s')
                  = (sync_calls (client s) + List.length rest)%nat
               /\ polls (client s') = polls (client s)
               /\ sleeps (client s')
                  = (sleeps (client s) + (List.length rest - 1))%nat).
Proof.
  induction rest as [|prompt rest IH]; intros i results s Hn.
  { exists [], s. rewrite app_nil_r. cbn [Batch.batch_loop List.length seq List.map].
    rewrite app_nil_r, !Nat.add_0_r.
    split; [reflexivity|]. split; [reflexivity|]. split; [constructor|].
    split; [reflexivity|]. split; [reflexivity|].
    split; [change (inject_Z (Z.of_nat (0 - 1))) with 0; lra|].
    destruct use_async; repeat split; reflexivity. }
  rewrite batch_loop_cons. cbv zeta.
  destruct (infer_run prompt use_async (client s))
    as (v & w1 & -> & Hv & Hf & Hcalls).
  cbn [List.length] in Hn.
  set (s2 := {| client := if (Z.of_nat i <? Z.of_nat n - 1)%Z
                          then tick w1 (1 + sleep_overrun E (sleeps w1)) (Sleep 1)
                          else w1;
                journal := journal s
                           ++ [(List.length (trace (client s)),
                                Logged INFO (ProcessingPrompt (i + 1) n))] |}).
  destruct (IH (S i) (results ++ [v]) s2 ltac:(lia))
    as (new & s' & Hrun & Hlen & Hall & Hp & Hj & Hc & Hcalls').
  exists (v :: new), s'. rewrite Hrun, <- app_assoc.
  split; [reflexivity|]. split; [cbn [List.length]; lia|].
  split; [constructor; assumption|].
  pose proof (follows_pauses _ _ Hf) as Hp1.
  destruct Hf as [_ Hclock].
  pose proof (proj2 (Hok (sleeps w1))) as Hover.
  destruct rest as [|prompt2 rest].
  - assert (Hlast : (Z.of_nat i <? Z.of_nat n - 1)%Z = false).
    { apply Z.ltb_ge. cbn [List.length] in Hn. lia. }
    subst s2. rewrite Hlast in *. cbn [client journal List.length] in *.
    split; [lia|]. split.
    { rewrite Hj, map_app, <- app_assoc. reflexivity. }
    split.
    { change (inject_Z (Z.of_nat (1 - 1))) with 0.
      change (inject_Z (Z.of_nat (0 - 1))) with 0 in Hc. lra. }
    destruct use_async.
    + lia.
    + destruct Hcalls as (H1 & H2 & H3 & H4).
      destruct Hcalls' as (H1' & H2' & H3' & H4'). repeat split; lia.
  - assert (Hmore : (Z.of_nat i <? Z.of_nat n - 1)%Z = true).
    { apply Z.ltb_lt. cbn [List.length] in Hn. lia. }
    subst s2. rewrite Hmore in *. cbn [client journal] in *.
    destruct (pause_counts w1 (1 + sleep_overrun E (sleeps w1)))
      as (Q1 & Q2 & Q3 & Q4 & Q5).
    rewrite Q1 in Hp. cbn [List.length] in *.
    split; [lia|]. split.
    { rewrite Hj, map_app, <- app_assoc. reflexivity. }
    split.
    { replace (S (S (List.length rest)) - 1)%nat
        with (S (S (List.length rest) - 1))%nat by lia.
      rewrite inject_nat_succ. cbn [clock tick] in Hc. lra. }
    destruct use_async.
    + rewrite Q2 in Hcalls'. lia.
    + destruct Hcalls as (H1 & H2 & H3 & H4).
      destruct Hcalls' as (H1' & H2' & H3' & H4').
      rewrite Q2 in H1'. rewrite Q3 in H2'. rewrite Q4 in H3'.
      rewrite Q5 in H4'. repeat split; lia.
Qed.

End BatchFacts.



(** X7: The calls of a batch: with [use_async=True], [batch_infer] submits to
    the asynchronous endpoint exactly once per prompt; with
    [use_async=False] it invokes the synchronous endpoint exactly once per
    prompt, never the asynchronous one, reads nothing from the bucket, and
    its only sleeps are the pauses between prompts. *)
Theorem batch_infer_calls (E : env) (fuel : nat) (prompts : list str)
    (use_async : bool) (s : session) :
  raises_Exceptions_only E -> env_ok E -> (60 < fuel)%nat ->
  let s' := snd (Batch.batch_infer E fuel prompts use_async s) in
  if use_async
  then async_calls (client s')
       = (async_calls (client s) + List.length prompts)%nat
  else async_calls (client s') = async_calls (client s)
       /\ sync_calls (client s')
          = (sync_calls (client s) + List.length prompts)%nat
       /\ polls (client s') = polls (client s)
       /\ sleeps (client s')
          = (sleeps (client s) + (List.length prompts - 1))%nat.
Proof.
  intros HE Hok Hfuel.
  destruct (batch_loop_run E HE Hok fuel Hfuel use_async (List.length prompts)
              prompts 0%nat [] s eq_refl)
    as (new & s' & Hrun & _ & _ & _ & _ & _ & Hcalls).
  unfold Batch.batch_infer. rewrite Hrun. exact Hcalls.
Qed.

Lemma batch_infer_calls_witness :
  async_calls (client (snd (Batch.batch_infer env_never 61
                              [py "a"; py "b"; py "c"] true s0)))
  = (async_calls (client s0) + 3)%nat.
Proof.
  apply (batch_infer_calls env_never 61 [py "a"; py "b"; py "c"] true s0).
  - intros n. repeat split; intros e H; cbn in H;
      first [discriminate H | injection H as <-; reflexivity].
  - intros n. split; cbn; lra.
  - lia.
Defined.

(* ===================================================================== *)
(** * Further properties of [parse.py] *)
(* ===================================================================== *)

Section FenceFacts.

Local Open Scope N_scope.

Lemma digit_head (c : N) :
  Json.is_digit c = true ->
  is_space c = false /\ (c =? sq) = false /\ (c =? 65279) = false
  /\ (c =? dq) = false.
Proof.
  unfold Json.is_digit. intros H. apply andb_true_iff in H as [H1 H2].
  apply N.leb_le in H1, H2.
  assert (H : c = 48 \/ c = 49 \/ c = 50 \/ c = 51 \/ c = 52 \/ c = 53
              \/ c = 54 \/ c = 55 \/ c = 56 \/ c = 57) by lia.
  repeat (destruct H as [->|H]); try subst c; repeat split; reflexivity.
Qed.

(** The first character of a JSON value. *)
Lemma scan_once_head (f : nat) (c : N) (r : str) (v : value) (rest : str) :
  Json.scan_once f (c :: r) = Some (v, rest) ->
  is_space c = false /\ (c =? sq) = false /\ (c =? 65279) = false
  /\ ((c =? dq) = true -> exists k, v = VStr k).
Proof.
  destruct f as [|f]; [discriminate|].
  assert (Hknown : forall k, (c =? k) = true ->
            is_space k = false -> (k =? sq) = false -> (k =? 65279) = false ->
            (k =? dq) = false ->
            is_space c = false /\ (c =? sq) = false /\ (c =? 65279) = false
            /\ ((c =? dq) = true -> exists k, v = VStr k)).
  { intros k Hk H1 H2 H3 H4. apply N.eqb_eq in Hk. subst k.
    repeat split; try assumption. intros H. congruence. }
  destruct (c =? 34) eqn:H1.
  { apply N.eqb_eq in H1. subst c. cbn [Json.scan_once]. cbn [N.eqb Pos.eqb].
    destruct (Json.scanstring r) as [[k r']|]; [|discriminate].
    intros H. injection H as <- _. repeat split; try reflexivity.
    intros _. exists k. reflexivity. }
  destruct (c =? 123) eqn:H2; [intros _; apply (Hknown 123); auto|].
  destruct (c =? 91) eqn:H3; [intros _; apply (Hknown 91); auto|].
  rewrite (scan_once_atom f c r H1 H2 H3). unfold scan_atom.
  destruct (c =? 110) eqn:H4; [intros _; apply (Hknown 110); auto|].
  destruct (c =? 116) eqn:H5; [intros _; apply (Hknown 116); auto|].
  destruct (c =? 102) eqn:H6; [intros _; apply (Hknown 102); auto|].
  cbn [andb].
  destruct (Json.match_number (c :: r)) as [res|] eqn:Hn.
  { intros _. destruct (match_number_head c r res Hn) as [Hd| ->].
    - destruct (digit_head c Hd) as (A1 & A2 & A3 & A4).
      repeat split; try assumption. intros H. congruence.
    - repeat split; try reflexivity. intros H. discriminate H. }
  destruct (c =? 78) eqn:H7; [intros _; apply (Hknown 78); auto|].
  destruct (c =? 73) eqn:H8; [intros _; apply (Hknown 73); auto|].
  destruct (c =? 45) eqn:H9; [intros _; apply (Hknown 45); auto|].
  cbn [andb]. discriminate.
Qed.

(** A text that [json.loads] accepts: whitespace, then the value, whose
    text holds no backtick at either end of a line; the value is read
    again from its text followed by a line feed. *)
Lemma loads_trimmed (s : str) (v : value) :
  Json.loads s = Some v ->
  exists w c body,
    s = w ++ c :: body /\ forallb is_space w = true
    /\ guarded_from nl (c :: body) = true
    /\ Json.loads ((c :: body) ++ [nl]) = Some v
    /\ is_space c = false /\ (c =? sq) = false
    /\ ((c =? dq) = true -> exists k, v = VStr k).
Proof.
  unfold Json.loads. destruct (startswith s [65279]); [discriminate|].
  destruct (Json.scan_once (S (List.length s)) (Json.skip_ws s))
    as [[v0 r]|] eqn:Hscan; [|discriminate].
  destruct (Json.skip_ws r) as [|x y] eqn:Hr; [|discriminate].
  intros H. injection H as ->.
  destruct (proj1 (decoder_spec _) _ _ _ Hscan)
    as (p & Ep & Hne & Hg & _ & Hext).
  destruct (skip_ws_split s) as (w & Es & Hw).
  pose proof (skip_ws_nil _ Hr) as Hrws.
  destruct (Json.skip_ws s) as [|c body] eqn:Eb; [discriminate Hscan|].
  destruct (scan_once_head _ _ _ _ _ Hscan) as (Hsp & Hsq & Hbom & Hdq).
  exists w, c, body. split; [exact Es|]. split; [apply ws_is_space, Hw|].
  split.
  { rewrite Ep. apply guarded_app_nl; [exact Hg|].
    apply guarded_nobt, ws_nobt, Hrws. }
  split; [|repeat split; assumption].
  assert (Hstart : startswith ((c :: body) ++ [nl]) [65279] = false).
  { cbn [app startswith]. rewrite N.eqb_sym, Hbom. reflexivity. }
  rewrite Hstart.
  assert (Hskip : Json.skip_ws ((c :: body) ++ [nl]) = (c :: body) ++ [nl]).
  { cbn [app Json.skip_ws]. destruct (Json.is_ws c) eqn:Hc; [|reflexivity].
    destruct (is_ws_facts c Hc) as (Hs & _). congruence. }
  rewrite Hskip, (Hext _ [nl]).
  - rewrite (skip_ws_all _ Hrws). reflexivity.
  - rewrite length_app, Ep, length_app. simpl. lia.
  - apply ws_follow_ok; [exact Hrws|reflexivity].
Qed.

Lemma open_match_bare (x : str) :
  Re.open_match (py "```" ++ nl :: x)
  = Some (3 + Re.count_space (nl :: x))%nat.
Proof. reflexivity. Qed.

(** What [parse.py] hands to [json.loads] for a fenced block, tagged or
    not, whose text starts, after whitespace, with a character that is
    neither whitespace nor a quote, and is guarded. *)
Lemma cleaned_fenced_block (tagged : bool) (w : str) (c : N) (body : str) :
  forallb is_space w = true -> is_space c = false -> is_quote c = false ->
  guarded_from nl (c :: body) = true ->
  Parse.cleaned (fenced_block tagged (w ++ c :: body)) = (c :: body) ++ [nl].
Proof.
  intros Hw Hsp Hq Hg. unfold Parse.cleaned.
  apply orb_false_iff in Hq as [Hdq Hsq].
  assert (Hg' : forall a, guarded_from a ((c :: body) ++ [nl]) = true).
  { intros a. apply guarded_from_weaken. apply guarded_app_nl; [exact Hg|].
    reflexivity. }
  assert (Hrest : forall y, hd_not is_space ((c :: body) ++ y) = true).
  { intros y. cbn [app hd_not]. rewrite Hsp. reflexivity. }
  assert (E1 : Re.sub_open None 0 (fenced_block tagged (w ++ c :: body))
               = (c :: body) ++ [nl]).
  { unfold fenced_block.
    set (rest := (c :: body) ++ [nl] ++ py "```").
    assert (Hskip : forall pre,
              pre <> [] ->
              Re.sub_open (Some bt) (List.length pre) (pre ++ rest)
              = (c :: body) ++ [nl]).
    { intros pre Hpre. rewrite sub_open_skip.
      destruct (last_map_Some pre (Some bt) Hpre) as (a' & ->). subst rest.
      rewrite app_assoc, (sub_open_guarded _ a' _ (Hg' a')), last_last.
      rewrite <- app_nil_r. f_equal. }
    destruct tagged.
    - assert (Ef : py "```" ++ py "json" ++ [nl] ++ (w ++ c :: body) ++ [nl]
                   ++ py "```"
                   = bt :: (py "``json" ++ [nl] ++ w) ++ rest).
      { subst rest. rewrite <- !app_assoc. reflexivity. }
      rewrite Ef.
      rewrite (sub_open_match None bt _
                 (S (List.length (py "``json" ++ [nl] ++ w)))).
      + apply Hskip. discriminate.
      + cbn [Re.at_bol].
        change (bt :: (py "``json" ++ [nl] ++ w) ++ rest)
          with (py "```json" ++ ((nl :: w) ++ rest)).
        rewrite open_match_json, count_space_run.
        * rewrite !length_app. reflexivity.
        * simpl. exact Hw.
        * apply Hrest.
    - assert (Ef : py "```" ++ [] ++ [nl] ++ (w ++ c :: body) ++ [nl]
                   ++ py "```"
                   = bt :: (py "``" ++ [nl] ++ w) ++ rest).
      { subst rest. rewrite <- !app_assoc. reflexivity. }
      rewrite Ef.
      rewrite (sub_open_match None bt _
                 (S (List.length (py "``" ++ [nl] ++ w)))).
      + apply Hskip. discriminate.
      + cbn [Re.at_bol].
        change (bt :: (py "``" ++ [nl] ++ w) ++ rest)
          with (py "```" ++ nl :: (w ++ rest)).
        rewrite open_match_bare.
        change (nl :: w ++ rest) with ((nl :: w) ++ rest).
        rewrite count_space_run.
        * rewrite !length_app. reflexivity.
        * simpl. exact Hw.
        * apply Hrest. }
  rewrite E1, (sub_close_guarded _ nl (Hg' nl)).
  rewrite <- app_comm_cons.
  rewrite (strip_chars_id _ c nl body Hdq eq_refl).
  apply (strip_chars_id _ c nl body Hsq eq_refl).
Qed.

Lemma lstrip_id (p : N -> bool) (s : str) :
  hd_not p s = true -> lstrip p s = s.
Proof.
  destruct s as [|c r]; [reflexivity|]. cbn [hd_not lstrip]. intros H.
  apply negb_true_iff in H. rewrite H. reflexivity.
Qed.

Lemma rstrip_id (p : N -> bool) (c : N) (r : str) :
  p (last r c) = false -> rstrip p (c :: r) = c :: r.
Proof.
  intros H. unfold rstrip.
  destruct r as [|e r _] using rev_ind.
  - cbn [last] in H. cbn [rev app lstrip]. rewrite H. reflexivity.
  - rewrite last_last in H. cbn [rev]. rewrite rev_app_distr.
    cbn [rev app lstrip]. rewrite H. cbn [rev].
    rewrite rev_app_distr, rev_involutive. reflexivity.
Qed.

Lemma strip_chars_unquoted (p : N -> bool) (s : str) :
  match s with
  | [] => True
  | c :: r => p c = false /\ p (last r c) = false
  end ->
  strip_chars p s = s.
Proof.
  destruct s as [|c r]; [reflexivity|]. intros [Hc Hl]. unfold strip_chars.
  rewrite (lstrip_id p (c :: r)) by (cbn [hd_not]; rewrite Hc; reflexivity).
  apply rstrip_id, Hl.
Qed.



End FenceFacts.

(** X10: Every JSON text whose value is not a string is recovered by
    [extract_json_from_response] from a fenced block, whether the opening
    fence is tagged [json] or bare: objects, lists, numbers, booleans and
    [null] alike. *)
Theorem fenced_value_recovered (tagged : bool) (s : str) (v : value)
    (w : world) :
  Json.loads s = Some v -> (forall k, v <> VStr k) ->
  Parse.extract_json_from_response (fenced_block tagged s) w = (Ret v, w).
Proof.
  intros H Hv.
  destruct (loads_trimmed s v H)
    as (ws & c & body & -> & Hws & Hg & Hl & Hsp & Hsq & Hdq).
  assert (Hq : is_quote c = false).
  { unfold is_quote. rewrite Hsq, orb_false_r.
    destruct (c =? dq)%N eqn:Hc; [|reflexivity].
    destruct (Hdq eq_refl) as (k & Hk). destruct (Hv k Hk). }
  rewrite extract_json_from_response_eq,
    (cleaned_fenced_block tagged ws c body Hws Hsp Hq Hg), Hl.
  reflexivity.
Qed.

Lemma fenced_value_recovered_witness :
  Parse.extract_json_from_response
    (fenced_block false (jsn " [1, {'a': null}]")) w0
  = (Ret (VList [VInt 1; VDict [(py "a", VNone)]]), w0).
Proof.
  apply (fenced_value_recovered false (jsn " [1, {'a': null}]")).
  - vm_compute. reflexivity.
  - intros k H. discriminate H.
Defined.



(* ===================================================================== *)
(** * Further properties of the two [extract_with_prompt] *)
(* ===================================================================== *)

Section CandidateFacts.

Local Open Scope Z_scope.

(** [json_end] of the two routines never precedes zero, and does not pass
    the first opening brace when no closing brace follows it. *)
Lemma rfind_before (pre rest : str) :
  ~ In rbrace rest ->
  -1 <= rfind rbrace (pre ++ lbrace :: rest) < Z.of_nat (List.length pre).
Proof.
  intros Hr. destruct (in_dec N.eq_dec rbrace pre) as [Hp|Hp].
  - destruct (last_occurrence _ _ Hp) as (a & b & -> & Hb).
    rewrite <- app_assoc. cbn [app]. rewrite rfind_last.
    + rewrite length_app. cbn [List.length]. lia.
    + intros Hin. apply in_app_iff in Hin as [Hin|[Hin|Hin]];
        [contradiction|discriminate|contradiction].
  - rewrite rfind_none; [lia|].
    intros Hin. apply in_app_iff in Hin as [Hin|[Hin|Hin]];
      [contradiction|discriminate|contradiction].
Qed.

Lemma slice_empty (s : str) (i j : Z) :
  0 <= j <= i -> i <= Z.of_nat (List.length s) -> slice s i j = [].
Proof.
  intros Hj Hi. unfold slice, slice_bound.
  destruct (Z.ltb_spec i 0) as [H|_]; [lia|].
  destruct (Z.ltb_spec j 0) as [H|_]; [lia|].
  rewrite !Z.min_l by lia.
  replace (Z.to_nat (j - i)) with 0%nat by lia. reflexivity.
Qed.

Lemma rfind_lower (ch : N) (s : str) : -1 <= rfind ch s.
Proof.
  induction s as [|c s IH]; cbn [rfind]; [lia|].
  destruct (rfind ch s); try lia. destruct (c =? ch)%N; lia.
Qed.

Lemma local_parse_response_eq (response : str) (w : world) :
  LocalLlama.parse_response response w
  = (Ret (if negb (find lbrace response =? -1)
          then match Json.loads (slice response (find lbrace response)
                                   (rfind rbrace response + 1)) with
               | Some v => v
               | None => VDict [(py "raw_response", VStr response)]
               end
          else VDict [(py "raw_response", VStr response)]), w).
Proof.
  unfold LocalLlama.parse_response, bind, try_, json_loads.
  assert (H : (rfind rbrace response + 1 =? -1) = false).
  { apply Z.eqb_neq. pose proof (rfind_lower rbrace response). lia. }
  rewrite H. cbn [negb]. rewrite andb_true_r.
  destruct (negb (find lbrace response =? -1)); [|reflexivity].
  destruct (Json.loads (slice response (find lbrace response)
                          (rfind rbrace response + 1))); reflexivity.
Qed.

Lemma lstrip_spec (p : N -> bool) (s : str) :
  exists a, s = a ++ lstrip p s /\ forallb p a = true
            /\ hd_not p (lstrip p s) = true.
Proof.
  induction s as [|c s (a & Ha & Hp & Hh)].
  - exists []. repeat split.
  - cbn [lstrip]. destruct (p c) eqn:Hc.
    + exists (c :: a). cbn [app forallb]. rewrite Hc, <- Ha.
      repeat split; assumption.
    + exists []. cbn [app forallb hd_not]. rewrite Hc. repeat split.
Qed.

Lemma rstrip_spec (p : N -> bool) (s : str) :
  exists b, s = rstrip p s ++ b /\ forallb p b = true
            /\ hd_not p (rev (rstrip p s)) = true.
Proof.
  unfold rstrip. destruct (lstrip_spec p (rev s)) as (a & Ha & Hp & Hh).
  exists (rev a). rewrite rev_involutive. split; [|split].
  - rewrite <- rev_app_distr, <- Ha, rev_involutive. reflexivity.
  - rewrite forallb_forall in *. intros x Hx. apply Hp, in_rev, Hx.
  - exact Hh.
Qed.

Lemma strip_chars_spec (p : N -> bool) (s : str) :
  exists a b, s = a ++ strip_chars p s ++ b
              /\ hd_not p (strip_chars p s) = true
              /\ hd_not p (rev (strip_chars p s)) = true.
Proof.
  unfold strip_chars.
  destruct (lstrip_spec p s) as (a & Ha & Hpa & Hha).
  destruct (rstrip_spec p (lstrip p s)) as (b & Hb & Hpb & Hhb).
  exists a, b. split; [rewrite <- Hb; exact Ha|]. split; [|exact Hhb].
  destruct (rstrip p (lstrip p s)) as [|c r] eqn:Er; [reflexivity|].
  rewrite Hb in Hha. exact Hha.
Qed.

Lemma hd_rev_last (p : N -> bool) (c : N) (r : str) :
  hd_not p (rev (c :: r)) = true -> p (last r c) = false.
Proof.
  destruct r as [|e r _] using rev_ind.
  - cbn. intros H. apply negb_true_iff, H.
  - rewrite last_last. cbn [rev]. rewrite rev_app_distr. cbn [rev app hd_not].
    intros H. apply negb_true_iff, H.
Qed.

Lemma strip_chars_idem (p : N -> bool) (s : str) :
  strip_chars p (strip_chars p s) = strip_chars p s.
Proof.
  destruct (strip_chars_spec p s) as (a & b & _ & Hh & Hl).
  apply strip_chars_unquoted.
  destruct (strip_chars p s) as [|c r]; [exact I|]. split.
  - cbn [hd_not] in Hh. apply negb_true_iff, Hh.
  - apply hd_rev_last, Hl.
Qed.

(** Whether the first opening brace of a text is followed by a closing
    brace. *)
Lemma brace_pair_dec (response : str) :
  (exists pre mid post,
     response = pre ++ lbrace :: mid ++ rbrace :: post
     /\ ~ In lbrace pre /\ ~ In rbrace post)
  \/ (forall pre mid post, response <> pre ++ lbrace :: mid ++ rbrace :: post).
Proof.
  destruct (in_dec N.eq_dec lbrace response) as [Hl|Hl].
  2:{ right. intros pre mid post ->. apply Hl. rewrite in_app_iff.
      right. left. reflexivity. }
  destruct (first_occurrence _ _ Hl) as (pre & rest & E & Hpre).
  destruct (in_dec N.eq_dec rbrace rest) as [Hr|Hr].
  - left. destruct (last_occurrence _ _ Hr) as (mid & post & -> & Hpost).
    exists pre, mid, post. repeat split; assumption.
  - right. intros pre' mid post E'. rewrite E in E'.
    assert (Hin : In rbrace rest); [|contradiction].
    assert (Hlen : (List.length pre <= List.length pre')%nat).
    { destruct (Nat.le_gt_cases (List.length pre) (List.length pre'))
        as [H|H]; [exact H|exfalso].
      apply Hpre.
      assert (Hnth : nth (List.length pre') (pre ++ lbrace :: rest) 0%N
                     = lbrace).
      { rewrite E', app_nth2, Nat.sub_diag by lia. reflexivity. }
      rewrite app_nth1 in Hnth by lia. rewrite <- Hnth.
      apply nth_In. lia. }
    assert (Hsk : skipn (List.length pre) (pre ++ lbrace :: rest)
                  = lbrace :: rest) by apply skipn_length_app.
    rewrite E' in Hsk.
    assert (Hpos : In rbrace
                     (skipn (List.length pre)
                        (pre' ++ lbrace :: mid ++ rbrace :: post))).
    { rewrite skipn_app.
      apply in_app_iff. right.
      replace (List.length pre - List.length pre')%nat with 0%nat by lia.
      cbn [skipn]. right. apply in_app_iff. right. left. reflexivity. }
    rewrite Hsk in Hpos. destruct Hpos as [Hpos|Hpos]; [discriminate|exact Hpos].
Qed.

End CandidateFacts.

(** X12: [extract_with_prompt] of [extract_thinker_local_llama.py] has no
    whole-text fallback. A response without an opening brace comes back as
    the mapping [raw_response], even when it is valid JSON as a whole; so
    does a response whose first opening brace is followed by no closing
    brace. A response whose first opening brace precedes its last closing
    brace yields the value of the text between them, both included, when
    that text parses. *)
Theorem local_llama_no_whole_text_fallback (response : str) (w : world) :
  (~ In lbrace response ->
   LocalLlama.parse_response response w
   = (Ret (VDict [(py "raw_response", VStr response)]), w))
  /\ (forall pre rest,
        response = pre ++ lbrace :: rest ->
        ~ In lbrace pre -> ~ In rbrace rest ->
        LocalLlama.parse_response response w
        = (Ret (VDict [(py "raw_response", VStr response)]), w))
  /\ (forall pre mid post v,
        response = pre ++ lbrace :: mid ++ rbrace :: post ->
        ~ In lbrace pre -> ~ In rbrace post ->
        Json.loads (lbrace :: mid ++ [rbrace]) = Some v ->
        LocalLlama.parse_response response w = (Ret v, w)).
Proof.
  split; [|split].
  - intros H. rewrite local_parse_response_eq, (find_none _ _ H). reflexivity.
  - intros pre rest -> Hpre Hrest.
    rewrite local_parse_response_eq, (find_first _ _ _ Hpre).
    pose proof (rfind_before pre rest Hrest) as Hr.
    rewrite slice_empty.
    + destruct (negb _); reflexivity.
    + lia.
    + rewrite length_app. lia.
  - intros pre mid post v -> Hpre Hpost Hv.
    rewrite local_parse_response_eq, (find_first _ _ _ Hpre).
    replace (pre ++ lbrace :: mid ++ rbrace :: post)
      with ((pre ++ lbrace :: mid) ++ rbrace :: post)
      by (rewrite <- app_assoc; reflexivity).
    rewrite (rfind_last _ _ _ Hpost), length_app. cbn [List.length].
    destruct (Z.eqb_spec (Z.of_nat (List.length pre)) (-1)) as [E|_]; [lia|].
    cbn [negb].
    replace ((pre ++ lbrace :: mid) ++ rbrace :: post)
      with (pre ++ (lbrace :: mid ++ [rbrace]) ++ post)
      by (rewrite <- !app_assoc; cbn [app]; rewrite <- app_assoc; reflexivity).
    replace (Z.of_nat (List.length pre + S (List.length mid)) + 1)%Z
      with (Z.of_nat (List.length pre)
            + Z.of_nat (List.length (lbrace :: mid ++ [rbrace])))%Z.
    + rewrite slice_middle, Hv. reflexivity.
    + cbn [List.length]. rewrite length_app. cbn [List.length]. lia.
Qed.

Lemma local_llama_no_whole_text_fallback_witness :
  LocalLlama.parse_response (py "[1]") w0
  = (Ret (VDict [(py "raw_response", VStr (py "[1]"))]), w0)
  /\ Json.loads (py "[1]") = Some (VList [VInt 1]).
Proof.
  split; [|vm_compute; reflexivity].
  apply (proj1 (local_llama_no_whole_text_fallback (py "[1]") w0)).
  vm_compute. intuition discriminate.
Defined.

(** X13: The JSON candidate of [extract_with_prompt] in [extract_thinker.py] is
    always a contiguous part of the response: the routine never hands to
    [json.loads] a character that the model did not write. Selecting the
    candidate of a candidate changes nothing. *)
Theorem candidate_is_part_of_response (response : str) :
  (exists pre post,
     response = pre ++ ExtractThinker.json_candidate response ++ post)
  /\ ExtractThinker.json_candidate (ExtractThinker.json_candidate response)
     = ExtractThinker.json_candidate response.
Proof.
  destruct (brace_pair_dec response)
    as [(pre & mid & post & -> & Hpre & Hpost)|Hno].
  - rewrite (json_candidate_braces pre mid post Hpre Hpost). split.
    + exists pre, post. cbn [app]. rewrite <- app_assoc. reflexivity.
    + apply (json_candidate_braces [] mid []); intros [].
  - rewrite (json_candidate_whole response Hno).
    destruct (strip_chars_spec is_space response) as (a & b & E & _).
    split; [exists a, b; exact E|].
    rewrite json_candidate_whole; [apply strip_chars_idem|].
    intros pre mid post E'. unfold strip in E'. rewrite E' in E.
    apply (Hno (a ++ pre) mid (post ++ b)). rewrite E, <- !app_assoc.
    cbn [app]. rewrite <- !app_assoc. reflexivity.
Qed.

(* ===================================================================== *)
(** * [InvoiceExtractor]: the regular expression, the validation *)
(* ===================================================================== *)

Section InvoiceFacts.

Import InvoiceExtractor.

Local Open Scope N_scope.

Lemma greedy_rbrace_none (s : str) :
  ~ In rbrace s -> greedy_rbrace s = None.
Proof.
  induction s as [|c s IH]; intros H; [reflexivity|].
  cbn [greedy_rbrace]. rewrite IH by (intros Hin; apply H; right; exact Hin).
  destruct (N.eqb_spec c rbrace) as [->|_]; [|reflexivity].
  exfalso. apply H. left. reflexivity.
Qed.

Lemma greedy_rbrace_last (mid post : str) :
  ~ In rbrace post ->
  greedy_rbrace (mid ++ rbrace :: post) = Some (mid ++ [rbrace]).
Proof.
  intros H. induction mid as [|c mid IH].
  - cbn [app greedy_rbrace]. rewrite (greedy_rbrace_none post H), N.eqb_refl.
    reflexivity.
  - cbn [app greedy_rbrace]. rewrite IH. reflexivity.
Qed.

Lemma search_braces_none (s : str) :
  ~ In rbrace s -> search_braces s = None.
Proof.
  induction s as [|c s IH]; intros H; [reflexivity|].
  assert (Hs : ~ In rbrace s) by (intros Hin; apply H; right; exact Hin).
  cbn [search_braces]. rewrite (greedy_rbrace_none s Hs), (IH Hs).
  destruct (c =? lbrace); reflexivity.
Qed.

Lemma search_braces_skip (pre s : str) :
  ~ In lbrace pre -> search_braces (pre ++ s) = search_braces s.
Proof.
  induction pre as [|c pre IH]; intros H; [reflexivity|].
  cbn [app search_braces]. destruct (N.eqb_spec c lbrace) as [->|_].
  - exfalso. apply H. left. reflexivity.
  - apply IH. intros Hin. apply H. right. exact Hin.
Qed.

Lemma dict_get_item (d : list (str * value)) (k : str) (default : value) :
  Json.dict_get d k default
  = match dict_item d k with
    | Some v => v
    | None => default
    end.
Proof.
  induction d as [|[k' v] d IH]; [reflexivity|].
  cbn [Json.dict_get dict_item]. destruct (str_eqb k k'); [reflexivity|exact IH].
Qed.





Lemma parse_llm_response_eq (response : value) (s : session) :
  parse_llm_response response s
  = match response with
    | VStr text =>
        match search_braces text with
        | Some json_str =>
            match Json.loads json_str with
            | Some v => (Ret v, s)
            | None =>
                (Ret VNone,
                 {| client := client s;
                    journal := journal s
                               ++ [(List.length (trace (client s)),
                                    Logged ERROR FailedToParseJSON)] |})
            end
        | None =>
            (Ret VNone,
             {| client := client s;
                journal := journal s
                           ++ [(List.length (trace (client s)),
                                Logged ERROR NoJSONFound)] |})
        end
    | _ => (Raise (OtherException (py "TypeError")), s)
    end.
Proof.
  unfold parse_llm_response, tryC.
  destruct response as [| | | |text| |]; try reflexivity.
  destruct (search_braces text) as [json_str|]; [|reflexivity].
  unfold lift, json_loads. destruct s as [w j]. cbn [client journal].
  destruct (Json.loads json_str); reflexivity.
Qed.


End InvoiceFacts.

(** X14: The regular expression of [parse_llm_response] selects the same text
    as the brace scan of [extract_with_prompt]: when the first opening
    brace of the response precedes its last closing brace, the match is the
    text from the one to the other, both included. When no closing brace
    follows the first opening brace there is no match, and the whole
    response is not tried. *)
Theorem regex_search_is_brace_scan (response : str) :
  (forall pre mid post,
     response = pre ++ lbrace :: mid ++ rbrace :: post ->
     ~ In lbrace pre -> ~ In rbrace post ->
     InvoiceExtractor.search_braces response = Some (lbrace :: mid ++ [rbrace])
     /\ ExtractThinker.json_candidate response = lbrace :: mid ++ [rbrace])
  /\ ((forall pre mid post,
         response <> pre ++ lbrace :: mid ++ rbrace :: post) ->
      InvoiceExtractor.search_braces response = None).
Proof.
  split.
  - intros pre mid post -> Hpre Hpost.
    split; [|apply json_candidate_braces; assumption].
    rewrite (search_braces_skip pre _ Hpre). cbn [InvoiceExtractor.search_braces].
    rewrite N.eqb_refl, (greedy_rbrace_last mid post Hpost). reflexivity.
  - intros Hno.
    destruct (in_dec N.eq_dec lbrace response) as [Hl|Hl].
    + destruct (first_occurrence _ _ Hl) as (pre & rest & E & Hpre).
      assert (Hr : ~ In rbrace rest).
      { intros Hr. destruct (in_split _ _ Hr) as (mid & post & ->).
        apply (Hno pre mid post E). }
      rewrite E, (search_braces_skip pre _ Hpre).
      cbn [InvoiceExtractor.search_braces].
      rewrite N.eqb_refl, (greedy_rbrace_none rest Hr).
      apply search_braces_none, Hr.
    + rewrite <- (app_nil_r response). apply search_braces_skip, Hl.
Qed.

Lemma regex_search_is_brace_scan_witness :
  InvoiceExtractor.search_braces prose_sample = Some (jsn "{'a':1}")
  /\ ExtractThinker.json_candidate prose_sample = jsn "{'a':1}".
Proof.
  apply (proj1 (regex_search_is_brace_scan prose_sample)
               (py "Sure! Here is the result: ") (jsn "'a':1")
               (py " Hope that helps.")).
  - reflexivity.
  - vm_compute. intuition discriminate.
  - vm_compute. intuition discriminate.
Defined.



Section ExtractFacts.

Import InvoiceExtractor.

Variable E : env.
Hypothesis HE : raises_Exceptions_only E.
Hypothesis Hok : env_ok E.
Variable fuel : nat.
Hypothesis Hfuel : (60 < fuel)%nat.
Variable float_is_zero : str -> bool.




End ExtractFacts.



(** The whole path on a sample: the body read from the bucket holds a model
    output with an invoice in it. *)
Example extract_invoice_data_sample :
  fst (InvoiceExtractor.extract_invoice_data env_invoice 61 (fun _ => false)
         (py "INVOICE #INV-1") s0)
  = Ret (Some {| InvoiceExtractor.invoice_number := VStr (py "INV-1");
                 InvoiceExtractor.line_items :=
                   [{| InvoiceExtractor.id := VStr (py "LI-001");
                       InvoiceExtractor.description := VStr (py "Widget A");
                       InvoiceExtractor.shipper_address :=
                         VStr (py "ABC Corp") |}] |}).
Proof. vm_compute. reflexivity. Qed.

(* ===================================================================== *)
(** * Dicts, field definitions, the schema *)
(* ===================================================================== *)

Section DictFacts.

Local Open Scope N_scope.

Lemma str_eqb_refl (a : str) : str_eqb a a = true.
Proof.
  induction a as [|x a IH]; [reflexivity|]. cbn [str_eqb].
  rewrite N.eqb_refl. exact IH.
Qed.

Lemma str_eqb_eq (a b : str) : str_eqb a b = true -> a = b.
Proof.
  revert b. induction a as [|x a IH]; intros [|y b] H; try discriminate.
  - reflexivity.
  - cbn [str_eqb] in H. apply andb_true_iff in H as [Hx Ha].
    apply N.eqb_eq in Hx. rewrite Hx, (IH b Ha). reflexivity.
Qed.

Lemma str_eqb_neq (a b : str) : a <> b -> str_eqb a b = false.
Proof.
  intros H. destruct (str_eqb a b) eqn:E; [|reflexivity].
  destruct (H (str_eqb_eq a b E)).
Qed.

Lemma dict_get_set_same (d : list (str * value)) (k : str) (v def : value) :
  Json.dict_get (Json.dict_set d k v) k def = v.
Proof.
  induction d as [|[k' v'] d IH].
  - cbn [Json.dict_set Json.dict_get]. rewrite str_eqb_refl. reflexivity.
  - cbn [Json.dict_set]. destruct (str_eqb k k') eqn:E.
    + cbn [Json.dict_get]. rewrite E. reflexivity.
    + cbn [Json.dict_get]. rewrite E. exact IH.
Qed.

Lemma dict_get_set_other (d : list (str * value)) (k k' : str)
    (v def : value) :
  k' <> k ->
  Json.dict_get (Json.dict_set d k v) k' def = Json.dict_get d k' def.
Proof.
  intros H. induction d as [|[k0 v0] d IH].
  - cbn [Json.dict_set Json.dict_get]. rewrite (str_eqb_neq k' k H).
    reflexivity.
  - cbn [Json.dict_set]. destruct (str_eqb k k0) eqn:E.
    + apply str_eqb_eq in E. subst k0. cbn [Json.dict_get].
      rewrite (str_eqb_neq k' k H). reflexivity.
    + cbn [Json.dict_get]. destruct (str_eqb k' k0); [reflexivity|exact IH].
Qed.

Lemma dict_set_keys (d : list (str * value)) (k : str) (v : value) :
  List.map fst (Json.dict_set d k v)
  = if InvoiceExtractor.contains d k then List.map fst d
    else List.map fst d ++ [k].
Proof.
  unfold InvoiceExtractor.contains. induction d as [|[k0 v0] d IH].
  - reflexivity.
  - cbn [Json.dict_set InvoiceExtractor.dict_item].
    destruct (str_eqb k k0) eqn:E; [reflexivity|].
    cbn [List.map fst]. rewrite IH.
    destruct (InvoiceExtractor.dict_item d k); reflexivity.
Qed.

Lemma contains_In (d : list (str * value)) (k : str) :
  InvoiceExtractor.contains d k = true <-> In k (List.map fst d).
Proof.
  unfold InvoiceExtractor.contains. induction d as [|[k0 v0] d IH].
  - split; [discriminate|intros []].
  - cbn [InvoiceExtractor.dict_item List.map fst In].
    destruct (str_eqb k k0) eqn:E.
    + apply str_eqb_eq in E. subst k0. split; [left; reflexivity|reflexivity].
    + rewrite IH. split; [right; assumption|].
      intros [H|H]; [|exact H]. subst k0. rewrite str_eqb_refl in E.
      discriminate.
Qed.

Lemma contains_set (d : list (str * value)) (k k' : str) (v : value) :
  InvoiceExtractor.contains (Json.dict_set d k v) k'
  = InvoiceExtractor.contains d k' || str_eqb k' k.
Proof.
  unfold InvoiceExtractor.contains. induction d as [|[k0 v0] d IH].
  - cbn [Json.dict_set InvoiceExtractor.dict_item].
    destruct (str_eqb k' k); reflexivity.
  - cbn [Json.dict_set]. destruct (str_eqb k k0) eqn:E.
    + apply str_eqb_eq in E. subst k0. cbn [InvoiceExtractor.dict_item].
      destruct (str_eqb k' k); [reflexivity|].
      rewrite orb_false_r. reflexivity.
    + cbn [InvoiceExtractor.dict_item].
      destruct (str_eqb k' k0); [reflexivity|exact IH].
Qed.

End DictFacts.

(** X17: [set_field] followed by [get_field] gives the value back; the other
    fields are not touched; the names stay pairwise distinct; a name that
    was present keeps its place and a new one is added at the end. *)
Theorem set_field_get_field (fields : list (str * value)) (field_name : str)
    (v : value) :
  ExtractedInvoiceData.get_field
    (ExtractedInvoiceData.set_field fields field_name v) field_name = v
  /\ (forall other, other <> field_name ->
        ExtractedInvoiceData.get_field
          (ExtractedInvoiceData.set_field fields field_name v) other
        = ExtractedInvoiceData.get_field fields other)
  /\ (NoDup (List.map fst fields) ->
      NoDup (List.map fst (ExtractedInvoiceData.set_field fields field_name v)))
  /\ List.map fst (ExtractedInvoiceData.set_field fields field_name v)
     = if InvoiceExtractor.contains fields field_name
       then List.map fst fields
       else List.map fst fields ++ [field_name].
Proof.
  unfold ExtractedInvoiceData.get_field, ExtractedInvoiceData.set_field.
  split; [apply dict_get_set_same|].
  split; [intros other H; apply dict_get_set_other, H|].
  split; [|apply dict_set_keys].
  intros Hnd. rewrite dict_set_keys.
  destruct (InvoiceExtractor.contains fields field_name) eqn:E; [exact Hnd|].
  apply NoDup_app; [exact Hnd|constructor; [intros []|constructor]|].
  intros x Hx [<-|[]].
  apply contains_In in Hx. congruence.
Qed.

Lemma set_field_get_field_witness :
  ExtractedInvoiceData.get_field
    (ExtractedInvoiceData.set_field [(py "total", VInt 1)] (py "date") VNone)
    (py "total")
  = ExtractedInvoiceData.get_field [(py "total", VInt 1)] (py "total").
Proof.
  apply (proj1 (proj2 (set_field_get_field [(py "total", VInt 1)] (py "date")
                         VNone))).
  discriminate.
Defined.

Section FieldFacts.

Import FieldConfig.

Lemma schema_loop_spec (lower : str -> str) :
  forall defs properties required_names,
    let '(p, r) := schema_loop lower defs properties required_names in
    r = required_names
        ++ List.map (fun f => VStr (field_name f)) (get_required_fields defs)
    /\ (forall name,
          InvoiceExtractor.contains p name = true <->
          InvoiceExtractor.contains properties name = true
          \/ In name (List.map field_name defs))
    /\ (forall name fs,
          InvoiceExtractor.dict_item p name = Some fs ->
          InvoiceExtractor.dict_item properties name = Some fs
          \/ exists f, In f defs /\ field_name f = name
                       /\ fs = VDict (field_schema lower f)).
Proof.
  induction defs as [|f defs IH]; intros properties required_names.
  - cbn [schema_loop get_required_fields filter List.map].
    rewrite app_nil_r. split; [reflexivity|]. split.
    + intros name. split; [left; assumption|intros [H|[]]; exact H].
    + intros name fs H. left. exact H.
  - cbn [schema_loop].
    specialize (IH (Json.dict_set properties (field_name f)
                      (VDict (field_schema lower f)))
                   (if required f
                    then required_names ++ [VStr (field_name f)]
                    else required_names)).
    destruct (schema_loop lower defs _ _) as [p r].
    destruct IH as (Hr & Hc & Hi). split; [|split].
    + rewrite Hr. unfold get_required_fields. cbn [filter].
      destruct (required f); [|reflexivity].
      cbn [List.map]. rewrite <- app_assoc. reflexivity.
    + intros name. rewrite Hc, contains_set. cbn [List.map In].
      rewrite orb_true_iff. split.
      * intros [[H|H]|H]; [left; exact H| |right; right; exact H].
        right. left. symmetry. apply str_eqb_eq, H.
      * intros [H|[H|H]]; [left; left; exact H| |right; exact H].
        left. right. subst name. apply str_eqb_refl.
    + intros name fs H. destruct (Hi name fs H) as [H1|(g & Hg & Hn & Hfs)].
      * destruct (str_eqb name (field_name f)) eqn:E.
        -- apply str_eqb_eq in E. subst name. right. exists f.
           split; [left; reflexivity|]. split; [reflexivity|].
           assert (Hget : Json.dict_get
                            (Json.dict_set properties (field_name f)
                               (VDict (field_schema lower f)))
                            (field_name f) VNone = fs).
           { rewrite dict_get_item, H1. reflexivity. }
           rewrite dict_get_set_same in Hget. symmetry. exact Hget.
        -- left.
           assert (Hne : name <> field_name f).
           { intros ->. rewrite str_eqb_refl in E. discriminate. }
           pose proof (dict_get_set_other properties (field_name f) name
                         (VDict (field_schema lower f)) VNone Hne) as Hg.
           pose proof (contains_set properties (field_name f) name
                         (VDict (field_schema lower f))) as Hcs.
           rewrite E, orb_false_r in Hcs. unfold InvoiceExtractor.contains in Hcs.
           rewrite !dict_get_item, H1 in Hg. rewrite H1 in Hcs.
           destruct (InvoiceExtractor.dict_item properties name);
             [congruence|discriminate].
      * right. exists g. split; [right; exact Hg|]. split; assumption.
Qed.

Lemma mapping_get_types (key : str) :
  In (mapping_get type_mapping key (py "string")) json_types.
Proof.
  unfold type_mapping. cbn [mapping_get].
  repeat match goal with
         | |- context [if ?b then _ else _] => destruct b
         end; cbn; auto 10.
Qed.

Lemma field_schema_type (lower : str -> str) (f : FieldDefinition) :
  exists t, InvoiceExtractor.dict_item (field_schema lower f) (py "type")
            = Some (VStr t) /\ In t json_types.
Proof.
  exists (mapping_get type_mapping (lower (field_type f)) (py "string")).
  split; [|apply mapping_get_types]. unfold field_schema.
  destruct (given (example_value f)), (given (validation_rules f));
    reflexivity.
Qed.

End FieldFacts.

(** X18: [get_field_by_name] returns a definition of the list that carries the
    name, the first one in the list; it returns [None] exactly when no
    definition carries the name. *)
Theorem field_lookup_by_name (field_definitions : list FieldConfig.FieldDefinition)
    (name : str) :
  match FieldConfig.get_field_by_name field_definitions name with
  | Some field_def =>
      exists before after,
        field_definitions = before ++ field_def :: after
        /\ FieldConfig.field_name field_def = name
        /\ forall f, In f before -> FieldConfig.field_name f <> name
  | None =>
      forall f, In f field_definitions -> FieldConfig.field_name f <> name
  end.
Proof.
  induction field_definitions as [|f defs IH]; [intros f []|].
  cbn [FieldConfig.get_field_by_name].
  destruct (str_eqb (FieldConfig.field_name f) name) eqn:E.
  - exists [], defs. split; [reflexivity|]. split; [apply str_eqb_eq, E|].
    intros g [].
  - assert (Hf : FieldConfig.field_name f <> name).
    { intros H. rewrite H, str_eqb_refl in E. discriminate. }
    destruct (FieldConfig.get_field_by_name defs name) as [g|].
    + destruct IH as (before & after & -> & Hn & Hb).
      exists (f :: before), after. split; [reflexivity|]. split; [exact Hn|].
      intros h [<-|Hh]; [exact Hf|apply Hb, Hh].
    + intros h [<-|Hh]; [exact Hf|apply IH, Hh].
Qed.

(** X19: The schema of [create_json_schema] is consistent: its [required] list
    names the required definitions in their order; every name it lists,
    and every definition, has an entry in [properties]; and every entry of
    [properties] is the schema of a definition with that name, whose [type]
    is one of the five JSON type names, whatever the case mapping does. *)
Theorem json_schema_consistent (lower : str -> str)
    (field_definitions : list FieldConfig.FieldDefinition) :
  exists properties required_names,
    FieldConfig.create_json_schema lower field_definitions
    = VDict [(py "type", VStr (py "object"));
             (py "properties", VDict properties);
             (py "required", VList required_names)]
    /\ required_names
       = List.map (fun f => VStr (FieldConfig.field_name f))
           (FieldConfig.get_required_fields field_definitions)
    /\ (forall name,
          InvoiceExtractor.contains properties name = true
          <-> In name (List.map FieldConfig.field_name field_definitions))
    /\ (forall name fs,
          InvoiceExtractor.dict_item properties name = Some fs ->
          exists f d t,
            In f field_definitions /\ FieldConfig.field_name f = name
            /\ fs = VDict d
            /\ InvoiceExtractor.dict_item d (py "type") = Some (VStr t)
            /\ In t json_types).
Proof.
  unfold FieldConfig.create_json_schema.
  pose proof (schema_loop_spec lower field_definitions [] []) as H.
  destruct (FieldConfig.schema_loop lower field_definitions [] []) as [p r].
  destruct H as (Hr & Hc & Hi). exists p, r. split; [reflexivity|].
  split; [exact Hr|]. split.
  - intros name. rewrite Hc. split; [intros [H|H]; [discriminate|exact H]|].
    intros H. right. exact H.
  - intros name fs H. destruct (Hi name fs H) as [H1|(f & Hf & Hn & ->)];
      [discriminate|].
    destruct (field_schema_type lower f) as (t & Ht & Hin).
    exists f, (FieldConfig.field_schema lower f), t. repeat split; assumption.
Qed.

(* ===================================================================== *)
(** * [LocalLlamaExtractor], the payload, an error without a code *)
(* ===================================================================== *)

Section LocalFacts.

Lemma slice_prefix (text : str) (n : nat) :
  (n <= List.length text)%nat -> slice text 0 (Z.of_nat n) = firstn n text.
Proof.
  intros H. unfold slice, slice_bound.
  destruct (Z.ltb_spec 0 0) as [H0|_]; [lia|].
  destruct (Z.ltb_spec (Z.of_nat n) 0) as [H0|_]; [lia|].
  rewrite !Z.min_l by lia. rewrite Z.sub_0_r, Nat2Z.id. reflexivity.
Qed.

Lemma raw_text_cases (text : str) :
  ((List.length text <= 500)%nat /\ ExtractThinkerLocal.raw_text text = text)
  \/ ((500 < List.length text)%nat
      /\ ExtractThinkerLocal.raw_text text = firstn 500 text ++ py "...").
Proof.
  unfold ExtractThinkerLocal.raw_text.
  destruct (Z.gtb_spec (Z.of_nat (List.length text)) 500) as [H|H].
  - right. split; [lia|].
    change (slice text 0 500) with (slice text 0 (Z.of_nat 500)).
    rewrite (slice_prefix text 500) by lia. reflexivity.
  - left. split; [lia|reflexivity].
Qed.

Lemma local_extract_data_eq (extract : str -> Q -> Z -> bool -> C value)
    (text : str) (temperature : Q) (max_tokens : Z) (s : session) :
  LocalLlamaBatch.extract_data extract text temperature max_tokens s
  = match extract text temperature max_tokens
            (LLMInference.Qltb 0 temperature) s with
    | (Raise e, s1) =>
        if is_Exception e
        then (Ret (VDict []),
              {| client := client s1;
                 journal := journal s1
                            ++ [(List.length (trace (client s1)),
                                 Printed (ExtractionError e))] |})
        else (Raise e, s1)
    | r => r
    end.
Proof.
  unfold LocalLlamaBatch.extract_data, tryC.
  destruct (extract text temperature max_tokens
              (LLMInference.Qltb 0 temperature) s) as [[v|e|] s1];
    try reflexivity.
  destruct (is_Exception e); reflexivity.
Qed.

Lemma local_batch_loop_run (extract : str -> Q -> Z -> bool -> C value)
    (temperature : Q) (max_tokens : Z) (n : nat) :
  extract_ends extract ->
  forall texts i results s,
    exists new s',
      LocalLlamaBatch.batch_loop extract n i texts temperature max_tokens
        results s = (Ret (results ++ new), s')
      /\ List.length new = List.length texts.
Proof.
  intros Hends. induction texts as [|text texts IH]; intros i results s.
  { exists [], s. rewrite app_nil_r. split; reflexivity. }
  cbn [LocalLlamaBatch.batch_loop].
  unfold bindC at 1, printC at 1, write at 1. cbv beta iota.
  unfold bindC at 1. rewrite local_extract_data_eq.
  match goal with
  | |- context [extract text temperature max_tokens ?b ?s1] =>
      destruct (Hends text temperature max_tokens b s1) as [Hd He];
      destruct (extract text temperature max_tokens b s1) as [[v|e|] s2]
  end; cbn [fst] in Hd, He.
  - destruct (IH (S i) (results ++ [v]) s2) as (new & s' & Hrun & Hlen).
    exists (v :: new), s'. rewrite Hrun, <- app_assoc.
    split; [reflexivity|cbn [List.length]; lia].
  - rewrite (He e eq_refl).
    match goal with
    | |- context [LocalLlamaBatch.batch_loop _ _ _ _ _ _ _ ?s3] =>
        destruct (IH (S i) (results ++ [VDict []]) s3)
          as (new & s' & Hrun & Hlen)
    end.
    exists (VDict [] :: new), s'. rewrite Hrun, <- app_assoc.
    split; [reflexivity|cbn [List.length]; lia].
  - destruct (Hd eq_refl).
Qed.

End LocalFacts.

(** X20: When the library call fails with an exception of the [Exception]
    hierarchy, [extract_data] of [extract_thinker.py] prints one line and
    returns the mapping of [error] and [raw_text], where [raw_text] is the
    text itself when it has at most 500 characters and its first 500
    characters followed by three dots otherwise: never more than 503
    characters. *)
Theorem extract_data_failure_report
    (extract : str -> Q -> Z -> bool -> C value) (str_of_exn : exn -> str)
    (text : str) (temperature : Q) (max_tokens : Z) (s s1 : session)
    (e : exn) :
  extract text temperature max_tokens (LLMInference.Qltb 0 temperature) s
  = (Raise e, s1) ->
  is_Exception e = true ->
  exists raw,
    ExtractThinkerLocal.extract_data extract str_of_exn text temperature
      max_tokens s
    = (Ret (VDict [(py "error", VStr (str_of_exn e));
                   (py "raw_text", VStr raw)]),
       {| client := client s1;
          journal := journal s1
                     ++ [(List.length (trace (client s1)),
                          Printed (ExtractionError e))] |})
    /\ (List.length raw <= 503)%nat
    /\ firstn 500 raw = firstn 500 text
    /\ ((List.length text <= 500)%nat -> raw = text)
    /\ ((500 < List.length text)%nat -> raw = firstn 500 text ++ py "...").
Proof.
  intros Hrun He. exists (ExtractThinkerLocal.raw_text text). split.
  { unfold ExtractThinkerLocal.extract_data, tryC. rewrite Hrun, He.
    reflexivity. }
  destruct (raw_text_cases text) as [[Hlen ->]|[Hlen ->]].
  - split; [lia|]. split; [reflexivity|]. split; [reflexivity|]. lia.
  - split.
    { rewrite length_app, length_firstn.
      change (List.length (py "...")) with 3%nat. lia. }
    split.
    { rewrite firstn_app, length_firstn, firstn_firstn.
      replace (500 - Nat.min 500 (List.length text))%nat with 0%nat by lia.
      rewrite Nat.min_id. cbn [firstn]. apply app_nil_r. }
    split; [lia|reflexivity].
Qed.

Lemma extract_data_failure_report_witness :
  exists raw,
    ExtractThinkerLocal.extract_data extract_fails (fun _ => py "bad value")
      (py "short text") (1 # 10) 512 s0
    = (Ret (VDict [(py "error", VStr (py "bad value"));
                   (py "raw_text", VStr raw)]),
       {| client := client s0;
          journal := journal s0
                     ++ [(List.length (trace (client s0)),
                          Printed (ExtractionError ValueError))] |})
    /\ (List.length raw <= 503)%nat
    /\ firstn 500 raw = firstn 500 (py "short text")
    /\ ((List.length (py "short text") <= 500)%nat -> raw = py "short text")
    /\ ((500 < List.length (py "short text"))%nat ->
        raw = firstn 500 (py "short text") ++ py "...").
Proof.
  apply (extract_data_failure_report extract_fails (fun _ => py "bad value")
           (py "short text") (1 # 10) 512 s0 s0 ValueError); reflexivity.
Defined.

(** X21: [extract_data] of [extract_thinker_local_llama.py] returns what the
    library call returns, and the empty mapping, after one printed line,
    when the call fails with an exception of the [Exception] hierarchy; and
    [batch_extract] returns one result per text, letting no exception
    through, as long as every call of the library returns or fails with
    such an exception. *)
Theorem batch_extract_one_result_per_text
    (extract : str -> Q -> Z -> bool -> C value) (texts : list str)
    (temperature : Q) (max_tokens : Z) (s : session) :
  extract_ends extract ->
  (forall text s0 r s1,
     extract text temperature max_tokens (LLMInference.Qltb 0 temperature) s0
     = (r, s1) ->
     fst (LocalLlamaBatch.extract_data extract text temperature max_tokens s0)
     = match r with
       | Raise _ => Ret (VDict [])
       | _ => r
       end)
  /\ exists results s',
       LocalLlamaBatch.batch_extract extract texts temperature max_tokens s
       = (Ret results, s')
       /\ List.length results = List.length texts.
Proof.
  intros Hends. split.
  - intros text s0 r s1 Hrun. rewrite local_extract_data_eq, Hrun.
    destruct r as [v|e|]; try reflexivity.
    pose proof (proj2 (Hends text temperature max_tokens
                         (LLMInference.Qltb 0 temperature) s0) e) as He.
    rewrite Hrun in He. rewrite (He eq_refl). reflexivity.
  - destruct (local_batch_loop_run extract temperature max_tokens
                (List.length texts) Hends texts 0%nat [] s)
      as (new & s' & Hrun & Hlen).
    exists new, s'. split; [exact Hrun|exact Hlen].
Qed.

Lemma batch_extract_one_result_per_text_witness :
  exists results s',
    LocalLlamaBatch.batch_extract extract_fails [py "a"; py "b"] (1 # 10) 512
      s0 = (Ret results, s')
    /\ List.length results = 2%nat.
Proof.
  apply (batch_extract_one_result_per_text extract_fails [py "a"; py "b"]
           (1 # 10) 512 s0).
  intros text temperature max_tokens do_sample s. split; [discriminate|].
  intros e H. injection H as <-. reflexivity.
Defined.



(** X8: A [ClientError] whose response carries no error code ends the wait at
    its first poll: the lookup of the code raises [KeyError], which the
    outer handler logs before returning [None]; no sleep follows. *)
Theorem client_error_without_code (E : env) (fuel : nat) (bucket key : str)
    (T : Z) (w : world) :
  s3_reply E (polls w) = Raises (ClientError None) ->
  (0 < T)%Z -> (0 < fuel)%nat ->
  exists w',
    LLMInference.wait_for_async_result E fuel (s3_location bucket key) T w
    = (Ret VNone, add w' (Log ERROR (ErrorWaiting KeyError)))
    /\ polls w' = S (polls w)
    /\ sleeps w' = sleeps w.
Proof.
  intros Hreply HT Hfuel.
  destruct (wait_for_s3_location E fuel bucket key T w) as (b & k & ->).
  destruct fuel as [|fuel]; [lia|]. rewrite poll_loop_S.
  rewrite Qltb_intro.
  2:{ assert (H : inject_Z 0 < inject_Z T) by (rewrite <- Zlt_Qlt; exact HT).
      change (inject_Z 0) with 0 in H. lra. }
  cbv zeta. rewrite Hreply. cbn [is_not_found except_Exception is_Exception].
  eexists. split; [reflexivity|].
  split; [apply polls_tick_get|apply sleeps_tick_get].
Qed.

Lemma client_error_without_code_witness :
  exists w',
    LLMInference.wait_for_async_result
      {| async_reply := fun _ => Returns None;
         sync_reply := fun _ => Returns [];
         s3_reply := fun _ => Raises (ClientError None);
         s3_latency := fun _ => 0;
         sleep_overrun := fun _ => 0 |}
      1 (s3_location (py "bucket") (py "key")) 300 w0
    = (Ret VNone, add w' (Log ERROR (ErrorWaiting KeyError)))
    /\ polls w' = S (polls w0)
    /\ sleeps w' = sleeps w0.
Proof.
  apply (client_error_without_code
           {| async_reply := fun _ => Returns None;
              sync_reply := fun _ => Returns [];
              s3_reply := fun _ => Raises (ClientError None);
              s3_latency := fun _ => 0;
              sleep_overrun := fun _ => 0 |}
           1 (py "bucket") (py "key") 300 w0); [reflexivity|lia|lia].
Defined.

(* ===================================================================== *)
(** * The wait as a whole, and the template of the prompt *)
(* ===================================================================== *)

Section AlternationFacts.

Variable E : env.


End AlternationFacts.



(** X23: The JSON template that [create_extraction_prompt] shows to the model
    is itself accepted as an invoice: when the invoice text holds no opening
    brace and the model answers with the prompt it was given,
    [parse_llm_response] returns the template and
    [validate_extracted_data] accepts it, and the invoice built from it
    carries the placeholder [string] in every field. *)
Theorem prompt_template_passes_validation (invoice_text : str) (s : session) :
  ~ In lbrace invoice_text ->
  InvoiceExtractor.parse_llm_response
    (VStr (InvoiceExtractor.create_extraction_prompt invoice_text)) s
  = (Ret invoice_template, s)
  /\ InvoiceExtractor.validate_extracted_data invoice_template = true
  /\ InvoiceExtractor.build_invoice invoice_template s
     = (Ret {| InvoiceExtractor.invoice_number := VStr (py "string");
               InvoiceExtractor.line_items :=
                 [{| InvoiceExtractor.id := VStr (py "string");
                     InvoiceExtractor.description := VStr (py "string");
                     InvoiceExtractor.shipper_address := VStr (py "string") |}]
            |}, s).
Proof.
  intros Hno. split; [|split; [vm_compute; reflexivity|reflexivity]].
  rewrite parse_llm_response_eq.
  unfold InvoiceExtractor.create_extraction_prompt.
  pose (A := py "Extract the following information from this invoice text and return it as valid JSON:"
            ++ [nl; nl] ++ py "1. Invoice Number" ++ [nl]
            ++ py "2. Line Items (each with: line item ID, description, and shipper address)"
            ++ [nl; nl] ++ py "Invoice Text:" ++ [nl]).
  pose (B := [nl; nl] ++ py "Return the data in this exact JSON format:" ++ [nl]).
  pose (mid := [nl]
              ++ jsn "    'invoice_number': 'string'," ++ [nl]
              ++ jsn "    'line_items': [" ++ [nl]
              ++ py "        {" ++ [nl]
              ++ jsn "            'id': 'string'," ++ [nl]
              ++ jsn "            'description': 'string', " ++ [nl]
              ++ jsn "            'shipper_address': 'string'" ++ [nl]
              ++ py "        }" ++ [nl]
              ++ py "    ]" ++ [nl]).
  pose (post := [nl; nl]
               ++ py "Only return the JSON response, no additional text or explanation.").
  assert (Hprompt :
    py "Extract the following information from this invoice text and return it as valid JSON:"
    ++ [nl; nl] ++ py "1. Invoice Number" ++ [nl]
    ++ py "2. Line Items (each with: line item ID, description, and shipper address)"
    ++ [nl; nl] ++ py "Invoice Text:" ++ [nl]
    ++ invoice_text ++ [nl; nl]
    ++ py "Return the data in this exact JSON format:" ++ [nl]
    ++ py "{" ++ [nl]
    ++ jsn "    'invoice_number': 'string'," ++ [nl]
    ++ jsn "    'line_items': [" ++ [nl]
    ++ py "        {" ++ [nl]
    ++ jsn "            'id': 'string'," ++ [nl]
    ++ jsn "            'description': 'string', " ++ [nl]
    ++ jsn "            'shipper_address': 'string'" ++ [nl]
    ++ py "        }" ++ [nl]
    ++ py "    ]" ++ [nl]
    ++ py "}" ++ [nl; nl]
    ++ py "Only return the JSON response, no additional text or explanation."
    = (A ++ invoice_text ++ B) ++ lbrace :: mid ++ rbrace :: post).
  { subst A B mid post. rewrite <- !app_assoc. reflexivity. }
  rewrite Hprompt.
  rewrite search_braces_skip.
  2:{ intros Hin. apply in_app_iff in Hin as [Hin|Hin].
      - subst A. vm_compute in Hin. intuition discriminate.
      - apply in_app_iff in Hin as [Hin|Hin]; [contradiction|].
        subst B. vm_compute in Hin. intuition discriminate. }
  cbn [InvoiceExtractor.search_braces]. rewrite N.eqb_refl.
  rewrite greedy_rbrace_last.
  2:{ subst post. vm_compute. intuition discriminate. }
  assert (Hl : Json.loads (lbrace :: mid ++ [rbrace]) = Some invoice_template).
  { subst mid. vm_compute. reflexivity. }
  rewrite Hl. reflexivity.
Qed.

Lemma prompt_template_passes_validation_witness :
  InvoiceExtractor.validate_extracted_data invoice_template = true.
Proof.
  apply (prompt_template_passes_validation (py "INVOICE #1") s0).
  vm_compute. intuition discriminate.
Defined.
